(** * The bcrypt dictionary cracker of Module4/task2_bcrypt_cracker.py

    A shallow embedding of the credential-record parser, the word corpus
    provider, the chunking distributor and the two cracking orchestrators,
    followed by the properties of the specification that concern them.

    Conventions of the embedding:
    - a Python [str] is a [string]; its characters are the code points
      U+0000..U+00FF, one per [ascii]. The word corpus provider is also
      given on words of any code points ([Uni.get_nltk_words]), where
      lower-casing can lengthen a word;
    - a Python [int] is a [Z];
    - [bcrypt.checkpw] is an external primitive: it is a parameter
      [checkpw : string -> string -> option bool], where [None] stands for a
      raised exception;
    - wall-clock measurements ([time.time()]), console output and the
      writes to the progress file are left out; the only log lines kept
      are the group headers of the orchestrators. *)

From Stdlib Require Import ZArith Lia Ascii.
From Stdlib Require String.
From stdpp Require Import base list gmap strings sorting.

(** Exceptions the modelled code can raise. *)
Inductive exn := ValueError | ZeroDivisionError.

(** The outcome of a call: a returned value or a raised exception. *)
Inductive outcome (A : Type) :=
| Returned (a : A)
| Raised (e : exn).
Arguments Returned {A} a.
Arguments Raised {A} e.

#[export] Instance outcome_ret : MRet outcome := fun A a => Returned a.
#[export] Instance outcome_bind : MBind outcome := fun A B k m =>
  match m with
  | Returned a => k a
  | Raised e => Raised e
  end.
#[export] Instance outcome_fmap : FMap outcome := fun A B f m =>
  match m with
  | Returned a => Returned (f a)
  | Raised e => Raised e
  end.

(** ** Python builtins used by the cracker *)

Module Py.

Definition ord (c : ascii) : N := N_of_ascii c.

(** [str.isspace] on one character: TAB..CR, FS..US, SPACE, NEL, NBSP. *)
Definition isspace (c : ascii) : bool :=
  let n := ord c in
  ((9 <=? n) && (n <=? 13) || (28 <=? n) && (n <=? 32)
   || (n =? 133) || (n =? 160))%N.

Fixpoint lstrip (s : string) : string :=
  match s with
  | EmptyString => EmptyString
  | String c s' => if isspace c then lstrip s' else s
  end.

Fixpoint rstrip (s : string) : string :=
  match s with
  | EmptyString => EmptyString
  | String c s' =>
      match rstrip s' with
      | EmptyString => if isspace c then EmptyString else String c EmptyString
      | r => String c r
      end
  end.

(** [s.strip()] *)
Definition strip (s : string) : string := rstrip (lstrip s).

(** The field before the first [sep], and the fields after it. *)
Fixpoint fields (sep : ascii) (s : string) : string * list string :=
  match s with
  | EmptyString => (EmptyString, [])
  | String c s' =>
      let '(h, t) := fields sep s' in
      if Ascii.eqb c sep then (EmptyString, h :: t) else (String c h, t)
  end.

(** [s.split(sep)] for a one-character separator. *)
Definition split (sep : ascii) (s : string) : list string :=
  let '(h, t) := fields sep s in h :: t.

(** [sep.join(fields)] for a one-character separator. *)
Fixpoint join (sep : ascii) (fields : list string) : string :=
  match fields with
  | [] => EmptyString
  | [f] => f
  | f :: rest => f +:+ String sep (join sep rest)
  end.

(** [s[:n]] and [s[n:]] for [n >= 0]. *)
Fixpoint take (n : nat) (s : string) : string :=
  match n, s with
  | S n', String c s' => String c (take n' s')
  | _, _ => EmptyString
  end.

Fixpoint drop (n : nat) (s : string) : string :=
  match n, s with
  | S n', String _ s' => drop n' s'
  | _, _ => s
  end.

(** [n] occurrences of [c] in [s]. *)
Fixpoint count (c : ascii) (s : string) : nat :=
  match s with
  | EmptyString => 0
  | String c' s' => (if Ascii.eqb c' c then 1 else 0) + count c s'
  end.

Definition isdigit (c : ascii) : bool :=
  let n := ord c in ((48 <=? n) && (n <=? 57))%N.

Definition digit_value (c : ascii) : Z := Z.of_N (ord c) - 48.

(** The digits of a decimal literal, with single underscores allowed
    between digits. [sep] tells that the previous character was not a
    digit (start of the literal or an underscore). *)
Fixpoint int_digits (sep : bool) (acc : Z) (s : string) : option Z :=
  match s with
  | EmptyString => if sep then None else Some acc
  | String c s' =>
      if isdigit c then int_digits false (10 * acc + digit_value c) s'
      else if Ascii.eqb c "_" then
             if sep then None else int_digits true acc s'
      else None
  end.

(** [s] is made of decimal digits only. *)
Fixpoint all_digits (s : string) : bool :=
  match s with
  | EmptyString => true
  | String c s' => isdigit c && all_digits s'
  end.

(** White space that [int] skips around the literal. *)
Definition int_space (c : ascii) : bool :=
  let n := ord c in
  ((9 <=? n) && (n <=? 13) || (n =? 32) || (n =? 133) || (n =? 160))%N.

Fixpoint int_lskip (s : string) : string :=
  match s with
  | EmptyString => EmptyString
  | String c s' => if int_space c then int_lskip s' else s
  end.

Fixpoint int_rskip (s : string) : string :=
  match s with
  | EmptyString => EmptyString
  | String c s' =>
      match int_rskip s' with
      | EmptyString => if int_space c then EmptyString else String c EmptyString
      | r => String c r
      end
  end.

(** The number of decimal digits of a literal; underscores, the sign and
    the white space around it do not count. *)
Fixpoint digit_count (s : string) : N :=
  match s with
  | EmptyString => 0%N
  | String c s' => ((if isdigit c then 1 else 0) + digit_count s')%N
  end.

(** [sys.get_int_max_str_digits()], which the program leaves at its
    default. *)
Definition int_max_str_digits : N := 4300.

(** [int(s)] for a [str] argument in base 10; [None] is [ValueError],
    which is also what a literal of more than [int_max_str_digits] digits
    gets. *)
Definition int (s : string) : option Z :=
  let literal := int_rskip (int_lskip s) in
  if (int_max_str_digits <? digit_count literal)%N then None
  else
    match literal with
    | String "-" body => Z.opp <$> int_digits true 0 body
    | String "+" body => int_digits true 0 body
    | body => int_digits true 0 body
    end.

(** [str.lower] on the code points below 256, each of which it maps to one
    code point below 256: the letters A to Z and the capital letters of
    U+00C0..U+00DE move up by 32. [Uni.lower] is [str.lower] on all code
    points. *)
Definition lower_char (c : ascii) : ascii :=
  let n := ord c in
  if ((65 <=? n) && (n <=? 90) || (192 <=? n) && (n <=? 214)
      || (216 <=? n) && (n <=? 222))%N
  then ascii_of_N (n + 32) else c.

Fixpoint lower (s : string) : string :=
  match s with
  | EmptyString => EmptyString
  | String c s' => String (lower_char c) (lower s')
  end.

(** [range(n)] *)
Definition range (n : Z) : list Z := Z.of_nat <$> seq 0 (Z.to_nat n).

(** An index of a slice, brought into [0, len]. *)
Definition slice_index (len i : Z) : Z :=
  if (i <? 0)%Z then Z.max 0 (i + len) else Z.min i len.

(** [l[start:stop]] *)
Definition slice {A} (l : list A) (start stop : Z) : list A :=
  let len := Z.of_nat (length l) in
  let lo := slice_index len start in
  let hi := slice_index len stop in
  list.take (Z.to_nat (hi - lo)) (list.drop (Z.to_nat lo) l).

End Py.

(** ** Credential record parser *)

(** The dict returned by [parse_shadow_entry]. *)
Record Entry := {
  user : string;
  algorithm : string;
  workfactor : Z;
  salt : string;
  bcrypt_salt : string;
  hash : string;
  full_hash : string
}.

Definition parse_shadow_entry (line : string) : outcome (option Entry) :=
  match Py.strip line with
  | EmptyString => Returned None
  | stripped =>
      match Py.split ":" stripped with
      | [user; full_hash] =>
          let hash_parts := Py.split "$" full_hash in
          if (length hash_parts <? 4)%nat then Returned None
          else
            let algorithm := nth 1 hash_parts "" in
            match Py.int (nth 2 hash_parts "") with
            | None => Raised ValueError
            | Some workfactor =>
                let salt_hash := nth 3 hash_parts "" in
                let salt := Py.take 22 salt_hash in
                let hash_value := Py.drop 22 salt_hash in
                let bcrypt_salt :=
                  "$" +:+ algorithm +:+ "$" +:+ nth 2 hash_parts ""
                      +:+ "$" +:+ salt in
                Returned (Some {| user := user;
                                  algorithm := algorithm;
                                  workfactor := workfactor;
                                  salt := salt;
                                  bcrypt_salt := bcrypt_salt;
                                  hash := hash_value;
                                  full_hash := full_hash |})
            end
      | _ => Returned None
      end
  end.

(** The loop of [parse_shadow_file] over the lines, [entries] being the
    list built so far. *)
Fixpoint parse_lines (entries : list Entry) (lines : list string)
  : outcome (list Entry) :=
  match lines with
  | [] => Returned entries
  | line :: rest =>
      entry ← parse_shadow_entry line;
      match entry with
      | Some e => parse_lines (entries ++ [e]) rest
      | None => parse_lines entries rest
      end
  end.

(** [parse_shadow_file(filepath, content)]. The file named by [filepath] is
    given by the lines [readlines()] yields; an absent or empty argument is
    [None]. *)
Definition parse_shadow_file (filepath : option (list string))
    (content : option string) : outcome (list Entry) :=
  match content, filepath with
  | Some (String c s), _ =>
      parse_lines [] (Py.split "010" (Py.strip (String c s)))
  | _, Some lines => parse_lines [] lines
  | _, None => Raised ValueError
  end.

(** ** Word corpus provider *)

(** [sorted(xs)] on strings (code-point order) and on integers. *)
Definition sorted_str : list string -> list string := merge_sort String.le.
Definition sorted_int : list Z -> list Z := merge_sort Z.le.

(** [get_nltk_words(min_length, max_length)], the NLTK corpus
    [words.words()] being the argument [word_list], on words of code points
    below 256 ([Uni.get_nltk_words] takes any words). [set(...)] is a
    [gset]; [list(set(...))] enumerates it in the order [elements] gives. *)
Definition get_nltk_words (word_list : list string)
    (min_length max_length : Z) : list string :=
  let filtered_words :=
    Py.lower <$>
      filter (fun w => (min_length <= Z.of_nat (String.length w) <= max_length)%Z)
             word_list in
  sorted_str (elements (list_to_set filtered_words : gset string)).

(** ** Verification oracle and the two per-user crackers *)

Module Result.
(** The dict appended to [results] by the orchestrators, without its
    ['time'] entry. *)
Record t := {
  user : string;
  password : option string;
  attempts : Z;
  workfactor : Z
}.
End Result.

(** The header line an orchestrator logs when it starts a group. *)
Record GroupHeader := {
  header_workfactor : Z;
  header_users : nat;
  header_cores : option Z
}.

(** What a run of an orchestrator leaves behind. *)
Record Run := {
  log : list GroupHeader;
  results : list Result.t
}.

(** [multiprocessing.Pool.map]: the workers finish in any order, and each
    result is stored at the position of its task. [picks] tells which of
    the tasks still running finishes next (counted among those still
    running, modulo their number); when [picks] is used up the others
    finish in task order. *)
Fixpoint finish_order (picks : list nat) (running : list nat) : list nat :=
  match picks, running with
  | p :: picks', _ :: _ =>
      let k := p mod length running in
      match running !! k with
      | Some i => i :: finish_order picks' (delete k running)
      | None => running
      end
  | _, _ => running
  end.

Definition pool_map {A B} (picks : list nat) (f : A -> B) (tasks : list A)
  : list B :=
  let slots :=
    foldl (fun slots i => <[i := f <$> tasks !! i]> slots)
          (replicate (length tasks) None)
          (finish_order picks (seq 0 (length tasks))) in
  omap id slots.

Section Cracker.

Variable checkpw : string -> string -> option bool.

Definition check_password_checkpw (password full_hash : string) : bool :=
  match checkpw password full_hash with
  | Some b => b
  | None => false
  end.

(** The loop of [crack_single_user], [i] being the index of the first
    word of [word_list]. The progress lines it prints every
    [progress_interval] words are left out. *)
Fixpoint single_user_scan (full_hash : string) (i : Z)
    (word_list : list string) : option (string * Z) :=
  match word_list with
  | [] => None
  | word :: rest =>
      if check_password_checkpw word full_hash then Some (word, (i + 1)%Z)
      else single_user_scan full_hash (i + 1)%Z rest
  end.

Definition crack_single_user (user full_hash : string)
    (word_list : list string) : option (string * Z) :=
  single_user_scan full_hash 0 word_list.

(** The loop of [crack_worker_chunk]. *)
Fixpoint worker_scan (full_hash : string) (start_index i : Z)
    (word_chunk : list string) : option (string * Z) :=
  match word_chunk with
  | [] => None
  | word :: rest =>
      match checkpw word full_hash with
      | Some true => Some (word, (start_index + i)%Z)
      | _ => worker_scan full_hash start_index (i + 1)%Z rest
      end
  end.

Definition crack_worker_chunk (args : list string * string * Z)
  : option (string * Z) :=
  let '(word_chunk, full_hash, start_index) := args in
  worker_scan full_hash start_index 0 word_chunk.

(** [args_list] of [crack_user_parallel]: one task [(slice, full_hash,
    start)] for every chunk that starts inside the word list. *)
Definition chunk_args (full_hash : string) (word_list : list string)
    (num_processes : Z) : list (list string * string * Z) :=
  let len := Z.of_nat (length word_list) in
  let chunk_size := (len / num_processes)%Z in
  let chunk_size := if (chunk_size =? 0)%Z then 1%Z else chunk_size in
  i ← Py.range num_processes;
  let start := (i * chunk_size)%Z in
  let end_ := if (i <? num_processes - 1)%Z then (start + chunk_size)%Z
              else len in
  if (start <? len)%Z
  then [(Py.slice word_list start end_, full_hash, start)] else [].

(** The loop of [crack_user_parallel] over the results of the pool. *)
Fixpoint first_result (results : list (option (string * Z)))
  : option (string * Z) :=
  match results with
  | [] => None
  | Some (password, word_idx) :: _ => Some (password, (word_idx + 1)%Z)
  | None :: rest => first_result rest
  end.

(** [crack_user_parallel]; [picks] is the order in which the workers of
    its pool finish. The division raises for 0 processes, [Pool] for a
    negative number of them. *)
Definition crack_user_parallel (picks : list nat) (user full_hash : string)
    (word_list : list string) (num_processes : Z)
  : outcome (option (string * Z)) :=
  if (num_processes =? 0)%Z then Raised ZeroDivisionError
  else
    let args_list := chunk_args full_hash word_list num_processes in
    if (num_processes <? 1)%Z then Raised ValueError
    else Returned (first_result (pool_map picks crack_worker_chunk args_list)).

End Cracker.

(** ** Cost-factor grouper and the cracking orchestrators *)

(** One round of the grouping loop: [workfactor_groups[wf].append(entry)],
    after the key was created when absent. *)
Definition add_to_group (workfactor_groups : gmap Z (list Entry))
    (entry : Entry) : gmap Z (list Entry) :=
  let wf := workfactor entry in
  let workfactor_groups :=
    if decide (workfactor_groups !! wf = None)
    then <[wf := []]> workfactor_groups else workfactor_groups in
  alter (fun group => group ++ [entry]) wf workfactor_groups.

Definition group_by_workfactor (entries : list Entry)
  : gmap Z (list Entry) :=
  foldl add_to_group ∅ entries.

(** [sorted(workfactor_groups.keys())] *)
Definition sorted_keys (workfactor_groups : gmap Z (list Entry)) : list Z :=
  sorted_int (elements (dom workfactor_groups)).

(** A [dict] from user names to entries, in insertion order. *)
Definition dict_set (k : string) (v : Entry) (d : list (string * Entry))
  : list (string * Entry) :=
  if decide (k ∈ d.*1)
  then (fun kv => if decide (kv.1 = k) then (k, v) else kv) <$> d
  else d ++ [(k, v)].

Definition dict_del (k : string) (d : list (string * Entry))
  : list (string * Entry) :=
  filter (fun kv => kv.1 ≠ k) d.

(** [{e['user']: e for e in group}] *)
Definition users_dict (group : list Entry) : list (string * Entry) :=
  foldl (fun d e => dict_set (user e) e d) [] group.

Section Orchestrator.

Variable checkpw : string -> string -> option bool.
Variable cpu_count : Z.

(** The loop over the users of one group in
    [crack_by_workfactor_group_parallel]. [picks user] is the order in which
    the workers started for [user] finish. *)
Fixpoint crack_group_parallel (picks : string -> list nat)
    (word_list : list string) (num_processes workfactor : Z)
    (group : list Entry) (results : list Result.t)
  : outcome (list Result.t) :=
  match group with
  | [] => Returned results
  | entry :: rest =>
      let user := user entry in
      result ← crack_user_parallel checkpw (picks user) user
                 (full_hash entry) word_list num_processes;
      let r :=
        match result with
        | Some (password, attempts) =>
            {| Result.user := user; Result.password := Some password;
               Result.attempts := attempts;
               Result.workfactor := workfactor |}
        | None =>
            {| Result.user := user; Result.password := None;
               Result.attempts := Z.of_nat (length word_list);
               Result.workfactor := workfactor |}
        end in
      crack_group_parallel picks word_list num_processes workfactor rest
        (results ++ [r])
  end.

(** The loop over the sorted keys in [crack_by_workfactor_group_parallel]. *)
Fixpoint crack_groups_parallel (picks : string -> list nat)
    (word_list : list string) (num_processes : Z)
    (workfactor_groups : gmap Z (list Entry)) (keys : list Z) (run : Run)
  : outcome Run :=
  match keys with
  | [] => Returned run
  | workfactor :: rest =>
      let group := workfactor_groups !!! workfactor in
      let header := {| header_workfactor := workfactor;
                       header_users := length group;
                       header_cores := Some num_processes |} in
      results ← crack_group_parallel picks word_list num_processes
                  workfactor group (results run);
      crack_groups_parallel picks word_list num_processes workfactor_groups
        rest {| log := log run ++ [header]; results := results |}
  end.

Definition crack_by_workfactor_group_parallel (picks : string -> list nat)
    (entries : list Entry) (word_list : list string)
    (num_processes : option Z) : outcome Run :=
  let num_processes := default cpu_count num_processes in
  let workfactor_groups := group_by_workfactor entries in
  crack_groups_parallel picks word_list num_processes workfactor_groups
    (sorted_keys workfactor_groups) {| log := []; results := [] |}.

(** The loop over the words in [crack_by_workfactor_group], [i] being the
    index of the first word of [word_list]; it yields the users left and
    the results. *)
Fixpoint scan_words (workfactor : Z) (i : Z) (word_list : list string)
    (remaining : list (string * Entry)) (results : list Result.t)
  : list (string * Entry) * list Result.t :=
  match word_list with
  | [] => (remaining, results)
  | word :: rest =>
      match remaining with
      | [] => (remaining, results)
      | _ =>
          let found :=
            filter (fun kv => check_password_checkpw checkpw word
                                (full_hash kv.2) = true) remaining in
          let results :=
            results ++
              ((fun kv => {| Result.user := kv.1;
                             Result.password := Some word;
                             Result.attempts := (i + 1)%Z;
                             Result.workfactor := workfactor |}) <$> found) in
          let found_users := found.*1 in
          let remaining :=
            foldl (fun d user => dict_del user d) remaining found_users in
          scan_words workfactor (i + 1)%Z rest remaining results
      end
  end.

(** One group of [crack_by_workfactor_group]. *)
Definition crack_group (word_list : list string) (workfactor : Z)
    (group : list Entry) (results : list Result.t) : list Result.t :=
  let '(remaining, results) :=
    scan_words workfactor 0 word_list (users_dict group) results in
  results ++
    ((fun kv => {| Result.user := kv.1; Result.password := None;
                   Result.attempts := Z.of_nat (length word_list);
                   Result.workfactor := workfactor |}) <$> remaining).

Fixpoint crack_groups (word_list : list string)
    (workfactor_groups : gmap Z (list Entry)) (keys : list Z) (run : Run)
  : Run :=
  match keys with
  | [] => run
  | workfactor :: rest =>
      let group := workfactor_groups !!! workfactor in
      let header := {| header_workfactor := workfactor;
                       header_users := length group;
                       header_cores := None |} in
      crack_groups word_list workfactor_groups rest
        {| log := log run ++ [header];
           results := crack_group word_list workfactor group (results run) |}
  end.

Definition crack_by_workfactor_group (entries : list Entry)
    (word_list : list string) : Run :=
  let workfactor_groups := group_by_workfactor entries in
  crack_groups word_list workfactor_groups (sorted_keys workfactor_groups)
    {| log := []; results := [] |}.

End Orchestrator.

(** ** Vocabulary of the chunking properties *)

(** The integers of the half-open range [[s, e)], in order. *)
Definition interval (s e : Z) : list Z :=
  (fun k => (s + Z.of_nat k)%Z) <$> seq 0 (Z.to_nat (e - s)).

(** [tiling a b l]: the ranges of [l] are non-empty, each starts where the
    previous one ends, the first at [a], and the last ends at [b]. *)
Inductive tiling : Z -> Z -> list (Z * Z) -> Prop :=
| tiling_nil a : tiling a a []
| tiling_cons a e b l : (a < e)%Z -> tiling e b l -> tiling a b ((a, e) :: l).

(** The bounds [(start, end)] of the chunks [crack_user_parallel] cuts a
    list of [len] words into. *)
Definition chunk_bounds (len num_processes : Z) : list (Z * Z) :=
  let chunk_size := (len / num_processes)%Z in
  let chunk_size := if (chunk_size =? 0)%Z then 1%Z else chunk_size in
  i ← Py.range num_processes;
  let start := (i * chunk_size)%Z in
  let end_ := if (i <? num_processes - 1)%Z then (start + chunk_size)%Z
              else len in
  if (start <? len)%Z then [(start, end_)] else [].

(** The chunk size [crack_user_parallel] settles on. *)
Definition chunk_size_of (len num_processes : Z) : Z :=
  Z.max 1 (len / num_processes)%Z.

(** The bounds of the chunk of index [i]. *)
Definition chunk_at (len num_processes i : Z) : Z * Z :=
  let cs := chunk_size_of len num_processes in
  ((i * cs)%Z,
   if (i <? num_processes - 1)%Z then (i * cs + cs)%Z else len).

(** The chunk size [ceil(len / N)] the specification names. *)
Definition ceil_div (len N : Z) : Z := ((len + N - 1) / N)%Z.

(** ** Stand-ins for [bcrypt.checkpw] used in the examples *)

(** A scheme that only looks at the first two characters of the password;
    it raises on an empty reference. *)
Definition truncating_checkpw (password full_hash : string) : option bool :=
  match full_hash with
  | EmptyString => None
  | _ => Some (bool_decide (Py.take 2 password = full_hash))
  end.

(** ** Vocabulary of the orchestrator properties *)

(** The entry of [results] made from what a per-user scan found, [total]
    being the length of the corpus. *)
Definition result_of (user : string) (workfactor total : Z)
    (found : option (string * Z)) : Result.t :=
  match found with
  | Some (password, attempts) =>
      {| Result.user := user; Result.password := Some password;
         Result.attempts := attempts; Result.workfactor := workfactor |}
  | None =>
      {| Result.user := user; Result.password := None;
         Result.attempts := total; Result.workfactor := workfactor |}
  end.

(** The result both orchestrators are shown to produce for the entry [e]
    of the group [wf]. *)
Definition expected_result (checkpw : string -> string -> option bool)
    (word_list : list string) (wf : Z) (e : Entry) : Result.t :=
  result_of (user e) wf (Z.of_nat (length word_list))
    (single_user_scan checkpw (full_hash e) 0 word_list).

(** What the specification asks of the CrackResult [r] of the record [e]
    over the corpus [word_list]: either the password is the first word that
    verifies and the attempts are its 1-based position, or no word verifies,
    there is no password and the attempts are the length of the corpus. *)
Definition prescribed (checkpw : string -> string -> option bool)
    (word_list : list string) (e : Entry) (r : Result.t) : Prop :=
  Result.user r = user e /\ Result.workfactor r = workfactor e /\
  ((exists (k : nat) (w : string),
      word_list !! k = Some w
      /\ checkpw w (full_hash e) = Some true
      /\ (forall (k' : nat) w', (k' < k)%nat -> word_list !! k' = Some w' ->
            checkpw w' (full_hash e) <> Some true)
      /\ Result.password r = Some w
      /\ Result.attempts r = (Z.of_nat k + 1)%Z)
   \/ ((forall w, w ∈ word_list -> checkpw w (full_hash e) <> Some true)
       /\ Result.password r = None
       /\ Result.attempts r = Z.of_nat (length word_list))).

(** Records for the examples: [truncating_checkpw] takes the reference to
    be the first two characters of the password. *)
Definition sample_entry (user : string) (workfactor : Z) (reference : string)
  : Entry :=
  {| user := user; algorithm := "2b"; workfactor := workfactor;
     salt := ""; bcrypt_salt := ""; hash := ""; full_hash := reference |}.

Definition sample_entries : list Entry :=
  [ sample_entry "Balin" 10 "ta"; sample_entry "Bilbo" 8 "zz";
    sample_entry "Oin" 10 "bb"; sample_entry "Kili" 9 "aa" ].

Definition sample_words : list string :=
  ["aaaaaa"; "bbbbbb"; "tamper"; "target"].

(** Lines for the examples of the parser. *)
Definition line_short_salt : string := "bob:$2b$08$short".
Definition line_cost_zero : string :=
  "bob:$2b$0$J9FW66ZdPI2nrIMcOxFYI.qx268uZn.ajhymLP/YHaAsfBGP3Fnmq".
Definition line_cost_negative : string :=
  "bob:$2b$-5$J9FW66ZdPI2nrIMcOxFYI.qx268uZn.ajhymLP/YHaAsfBGP3Fnmq".
Definition line_cost_text : string :=
  "bob:$2b$xx$J9FW66ZdPI2nrIMcOxFYI.qx268uZn.ajhymLP/YHaAsfBGP3Fnmq".
Definition line_cost_one_digit : string :=
  "bob:$2b$8$J9FW66ZdPI2nrIMcOxFYI.qx268uZn.ajhymLP/YHaAsfBGP3Fnmq".
Definition line_Bilbo : string :=
  "Bilbo:$2b$08$J9FW66ZdPI2nrIMcOxFYI.qx268uZn.ajhymLP/YHaAsfBGP3Fnmq".

(** ** Words of any script

    A Python [str] is a sequence of code points. The parser and the
    crackers above are written on strings of code points below 256; the
    word corpus is also given here on all of them, since [str.lower] maps
    one code point outside that range to two. *)

Module Uni.

Local Open Scope N_scope.

Abbreviation str := (list N) (only parsing).

(** The string of code points below 256 as a [str]. *)
Fixpoint of_string (s : string) : str :=
  match s with
  | EmptyString => []
  | String c s' => Py.ord c :: of_string s'
  end.

Definition in_range (c : N) (r : N * N) : bool := (r.1 <=? c) && (c <=? r.2).

Definition in_ranges (ranges : list (N * N)) (c : N) : bool :=
  existsb (in_range c) ranges.

(** The ranges of the Case_Ignorable code points of Unicode 14.0, the
    version of the character database in CPython 3.11. *)
Definition case_ignorable_ranges : list (N * N) :=
  [(39, 39); (46, 46); (58, 58); (94, 94); (96, 96); (168, 168); (173, 173);
   (175, 175); (180, 180); (183, 184); (688, 879); (884, 885); (890, 890);
   (900, 901); (903, 903); (1155, 1161); (1369, 1369); (1375, 1375);
   (1425, 1469); (1471, 1471); (1473, 1474); (1476, 1477); (1479, 1479);
   (1524, 1524); (1536, 1541); (1552, 1562); (1564, 1564); (1600, 1600);
   (1611, 1631); (1648, 1648); (1750, 1757); (1759, 1768); (1770, 1773);
   (1807, 1807); (1809, 1809); (1840, 1866); (1958, 1968); (2027, 2037);
   (2042, 2042); (2045, 2045); (2070, 2093); (2137, 2139); (2184, 2184);
   (2192, 2193); (2200, 2207); (2249, 2306); (2362, 2362); (2364, 2364);
   (2369, 2376); (2381, 2381); (2385, 2391); (2402, 2403); (2417, 2417);
   (2433, 2433); (2492, 2492); (2497, 2500); (2509, 2509); (2530, 2531);
   (2558, 2558); (2561, 2562); (2620, 2620); (2625, 2626); (2631, 2632);
   (2635, 2637); (2641, 2641); (2672, 2673); (2677, 2677); (2689, 2690);
   (2748, 2748); (2753, 2757); (2759, 2760); (2765, 2765); (2786, 2787);
   (2810, 2815); (2817, 2817); (2876, 2876); (2879, 2879); (2881, 2884);
   (2893, 2893); (2901, 2902); (2914, 2915); (2946, 2946); (3008, 3008);
   (3021, 3021); (3072, 3072); (3076, 3076); (3132, 3132); (3134, 3136);
   (3142, 3144); (3146, 3149); (3157, 3158); (3170, 3171); (3201, 3201);
   (3260, 3260); (3263, 3263); (3270, 3270); (3276, 3277); (3298, 3299);
   (3328, 3329); (3387, 3388); (3393, 3396); (3405, 3405); (3426, 3427);
   (3457, 3457); (3530, 3530); (3538, 3540); (3542, 3542); (3633, 3633);
   (3636, 3642); (3654, 3662); (3761, 3761); (3764, 3772); (3782, 3782);
   (3784, 3789); (3864, 3865); (3893, 3893); (3895, 3895); (3897, 3897);
   (3953, 3966); (3968, 3972); (3974, 3975); (3981, 3991); (3993, 4028);
   (4038, 4038); (4141, 4144); (4146, 4151); (4153, 4154); (4157, 4158);
   (4184, 4185); (4190, 4192); (4209, 4212); (4226, 4226); (4229, 4230);
   (4237, 4237); (4253, 4253); (4348, 4348); (4957, 4959); (5906, 5908);
   (5938, 5939); (5970, 5971); (6002, 6003); (6068, 6069); (6071, 6077);
   (6086, 6086); (6089, 6099); (6103, 6103); (6109, 6109); (6155, 6159);
   (6211, 6211); (6277, 6278); (6313, 6313); (6432, 6434); (6439, 6440);
   (6450, 6450); (6457, 6459); (6679, 6680); (6683, 6683); (6742, 6742);
   (6744, 6750); (6752, 6752); (6754, 6754); (6757, 6764); (6771, 6780);
   (6783, 6783); (6823, 6823); (6832, 6862); (6912, 6915); (6964, 6964);
   (6966, 6970); (6972, 6972); (6978, 6978); (7019, 7027); (7040, 7041);
   (7074, 7077); (7080, 7081); (7083, 7085); (7142, 7142); (7144, 7145);
   (7149, 7149); (7151, 7153); (7212, 7219); (7222, 7223); (7288, 7293);
   (7376, 7378); (7380, 7392); (7394, 7400); (7405, 7405); (7412, 7412);
   (7416, 7417); (7468, 7530); (7544, 7544); (7579, 7679); (8125, 8125);
   (8127, 8129); (8141, 8143); (8157, 8159); (8173, 8175); (8189, 8190);
   (8203, 8207); (8216, 8217); (8228, 8228); (8231, 8231); (8234, 8238);
   (8288, 8292); (8294, 8303); (8305, 8305); (8319, 8319); (8336, 8348);
   (8400, 8432); (11388, 11389); (11503, 11505); (11631, 11631);
   (11647, 11647); (11744, 11775); (11823, 11823); (12293, 12293);
   (12330, 12333); (12337, 12341); (12347, 12347); (12441, 12446);
   (12540, 12542); (40981, 40981); (42232, 42237); (42508, 42508);
   (42607, 42610); (42612, 42621); (42623, 42623); (42652, 42655);
   (42736, 42737); (42752, 42785); (42864, 42864); (42888, 42890);
   (42994, 42996); (43000, 43001); (43010, 43010); (43014, 43014);
   (43019, 43019); (43045, 43046); (43052, 43052); (43204, 43205);
   (43232, 43249); (43263, 43263); (43302, 43309); (43335, 43345);
   (43392, 43394); (43443, 43443); (43446, 43449); (43452, 43453);
   (43471, 43471); (43493, 43494); (43561, 43566); (43569, 43570);
   (43573, 43574); (43587, 43587); (43596, 43596); (43632, 43632);
   (43644, 43644); (43696, 43696); (43698, 43700); (43703, 43704);
   (43710, 43711); (43713, 43713); (43741, 43741); (43756, 43757);
   (43763, 43764); (43766, 43766); (43867, 43871); (43881, 43883);
   (44005, 44005); (44008, 44008); (44013, 44013); (64286, 64286);
   (64434, 64450); (65024, 65039); (65043, 65043); (65056, 65071);
   (65106, 65106); (65109, 65109); (65279, 65279); (65287, 65287);
   (65294, 65294); (65306, 65306); (65342, 65342); (65344, 65344);
   (65392, 65392); (65438, 65439); (65507, 65507); (65529, 65531);
   (66045, 66045); (66272, 66272); (66422, 66426); (67456, 67461);
   (67463, 67504); (67506, 67514); (68097, 68099); (68101, 68102);
   (68108, 68111); (68152, 68154); (68159, 68159); (68325, 68326);
   (68900, 68903); (69291, 69292); (69446, 69456); (69506, 69509);
   (69633, 69633); (69688, 69702); (69744, 69744); (69747, 69748);
   (69759, 69761); (69811, 69814); (69817, 69818); (69821, 69821);
   (69826, 69826); (69837, 69837); (69888, 69890); (69927, 69931);
   (69933, 69940); (70003, 70003); (70016, 70017); (70070, 70078);
   (70089, 70092); (70095, 70095); (70191, 70193); (70196, 70196);
   (70198, 70199); (70206, 70206); (70367, 70367); (70371, 70378);
   (70400, 70401); (70459, 70460); (70464, 70464); (70502, 70508);
   (70512, 70516); (70712, 70719); (70722, 70724); (70726, 70726);
   (70750, 70750); (70835, 70840); (70842, 70842); (70847, 70848);
   (70850, 70851); (71090, 71093); (71100, 71101); (71103, 71104);
   (71132, 71133); (71219, 71226); (71229, 71229); (71231, 71232);
   (71339, 71339); (71341, 71341); (71344, 71349); (71351, 71351);
   (71453, 71455); (71458, 71461); (71463, 71467); (71727, 71735);
   (71737, 71738); (71995, 71996); (71998, 71998); (72003, 72003);
   (72148, 72151); (72154, 72155); (72160, 72160); (72193, 72202);
   (72243, 72248); (72251, 72254); (72263, 72263); (72273, 72278);
   (72281, 72283); (72330, 72342); (72344, 72345); (72752, 72758);
   (72760, 72765); (72767, 72767); (72850, 72871); (72874, 72880);
   (72882, 72883); (72885, 72886); (73009, 73014); (73018, 73018);
   (73020, 73021); (73023, 73029); (73031, 73031); (73104, 73105);
   (73109, 73109); (73111, 73111); (73459, 73460); (78896, 78904);
   (92912, 92916); (92976, 92982); (92992, 92995); (94031, 94031);
   (94095, 94111); (94176, 94177); (94179, 94180); (110576, 110579);
   (110581, 110587); (110589, 110590); (113821, 113822); (113824, 113827);
   (118528, 118573); (118576, 118598); (119143, 119145); (119155, 119170);
   (119173, 119179); (119210, 119213); (119362, 119364); (121344, 121398);
   (121403, 121452); (121461, 121461); (121476, 121476); (121499, 121503);
   (121505, 121519); (122880, 122886); (122888, 122904); (122907, 122913);
   (122915, 122916); (122918, 122922); (123184, 123197); (123566, 123566);
   (123628, 123631); (125136, 125142); (125252, 125259); (127995, 127999);
   (917505, 917505); (917536, 917631); (917760, 917999)].

(** The ranges of the Cased code points. *)
Definition cased_ranges : list (N * N) :=
  [(65, 90); (97, 122); (170, 170); (181, 181); (186, 186); (192, 214);
   (216, 246); (248, 442); (444, 447); (452, 659); (661, 696); (704, 705);
   (736, 740); (837, 837); (880, 883); (886, 887); (890, 893); (895, 895);
   (902, 902); (904, 906); (908, 908); (910, 929); (931, 1013); (1015, 1153);
   (1162, 1327); (1329, 1366); (1376, 1416); (4256, 4293); (4295, 4295);
   (4301, 4301); (4304, 4346); (4349, 4351); (5024, 5109); (5112, 5117);
   (7296, 7304); (7312, 7354); (7357, 7359); (7424, 7615); (7680, 7957);
   (7960, 7965); (7968, 8005); (8008, 8013); (8016, 8023); (8025, 8025);
   (8027, 8027); (8029, 8029); (8031, 8061); (8064, 8116); (8118, 8124);
   (8126, 8126); (8130, 8132); (8134, 8140); (8144, 8147); (8150, 8155);
   (8160, 8172); (8178, 8180); (8182, 8188); (8305, 8305); (8319, 8319);
   (8336, 8348); (8450, 8450); (8455, 8455); (8458, 8467); (8469, 8469);
   (8473, 8477); (8484, 8484); (8486, 8486); (8488, 8488); (8490, 8493);
   (8495, 8500); (8505, 8505); (8508, 8511); (8517, 8521); (8526, 8526);
   (8544, 8575); (8579, 8580); (9398, 9449); (11264, 11492); (11499, 11502);
   (11506, 11507); (11520, 11557); (11559, 11559); (11565, 11565);
   (42560, 42605); (42624, 42653); (42786, 42887); (42891, 42894);
   (42896, 42954); (42960, 42961); (42963, 42963); (42965, 42969);
   (42997, 42998); (43000, 43002); (43824, 43866); (43868, 43880);
   (43888, 43967); (64256, 64262); (64275, 64279); (65313, 65338);
   (65345, 65370); (66560, 66639); (66736, 66771); (66776, 66811);
   (66928, 66938); (66940, 66954); (66956, 66962); (66964, 66965);
   (66967, 66977); (66979, 66993); (66995, 67001); (67003, 67004);
   (67456, 67456); (67459, 67461); (67463, 67504); (67506, 67514);
   (68736, 68786); (68800, 68850); (71840, 71903); (93760, 93823);
   (119808, 119892); (119894, 119964); (119966, 119967); (119970, 119970);
   (119973, 119974); (119977, 119980); (119982, 119993); (119995, 119995);
   (119997, 120003); (120005, 120069); (120071, 120074); (120077, 120084);
   (120086, 120092); (120094, 120121); (120123, 120126); (120128, 120132);
   (120134, 120134); (120138, 120144); (120146, 120485); (120488, 120512);
   (120514, 120538); (120540, 120570); (120572, 120596); (120598, 120628);
   (120630, 120654); (120656, 120686); (120688, 120712); (120714, 120744);
   (120746, 120770); (120772, 120779); (122624, 122633); (122635, 122654);
   (125184, 125251); (127280, 127305); (127312, 127337); (127344, 127369)].

(** [_PyUnicode_IsCaseIgnorable] and [_PyUnicode_IsCased]. *)
Definition is_case_ignorable (c : N) : bool :=
  in_ranges case_ignorable_ranges c.

Definition is_cased (c : N) : bool := in_ranges cased_ranges c.

(** The lower-case mapping of single code points, by rows
    [(first, last, step, image)]: the code points [first], [first + step],
    ..., [last] map to [image], [image + step], ...; a code point in no
    row maps to itself. *)
Definition lower_rows : list (N * N * N * N) :=
  [(65, 90, 1, 97); (192, 214, 1, 224); (216, 222, 1, 248);
   (256, 302, 2, 257); (306, 310, 2, 307); (313, 327, 2, 314);
   (330, 374, 2, 331); (376, 376, 1, 255); (377, 381, 2, 378);
   (385, 385, 1, 595); (386, 388, 2, 387); (390, 390, 1, 596);
   (391, 391, 1, 392); (393, 394, 1, 598); (395, 395, 1, 396);
   (398, 398, 1, 477); (399, 399, 1, 601); (400, 400, 1, 603);
   (401, 401, 1, 402); (403, 403, 1, 608); (404, 404, 1, 611);
   (406, 406, 1, 617); (407, 407, 1, 616); (408, 408, 1, 409);
   (412, 412, 1, 623); (413, 413, 1, 626); (415, 415, 1, 629);
   (416, 420, 2, 417); (422, 422, 1, 640); (423, 423, 1, 424);
   (425, 425, 1, 643); (428, 428, 1, 429); (430, 430, 1, 648);
   (431, 431, 1, 432); (433, 434, 1, 650); (435, 437, 2, 436);
   (439, 439, 1, 658); (440, 440, 1, 441); (444, 444, 1, 445);
   (452, 452, 1, 454); (453, 453, 1, 454); (455, 455, 1, 457);
   (456, 456, 1, 457); (458, 458, 1, 460); (459, 475, 2, 460);
   (478, 494, 2, 479); (497, 497, 1, 499); (498, 500, 2, 499);
   (502, 502, 1, 405); (503, 503, 1, 447); (504, 542, 2, 505);
   (544, 544, 1, 414); (546, 562, 2, 547); (570, 570, 1, 11365);
   (571, 571, 1, 572); (573, 573, 1, 410); (574, 574, 1, 11366);
   (577, 577, 1, 578); (579, 579, 1, 384); (580, 580, 1, 649);
   (581, 581, 1, 652); (582, 590, 2, 583); (880, 882, 2, 881);
   (886, 886, 1, 887); (895, 895, 1, 1011); (902, 902, 1, 940);
   (904, 906, 1, 941); (908, 908, 1, 972); (910, 911, 1, 973);
   (913, 929, 1, 945); (932, 939, 1, 964); (975, 975, 1, 983);
   (984, 1006, 2, 985); (1012, 1012, 1, 952); (1015, 1015, 1, 1016);
   (1017, 1017, 1, 1010); (1018, 1018, 1, 1019); (1021, 1023, 1, 891);
   (1024, 1039, 1, 1104); (1040, 1071, 1, 1072); (1120, 1152, 2, 1121);
   (1162, 1214, 2, 1163); (1216, 1216, 1, 1231); (1217, 1229, 2, 1218);
   (1232, 1326, 2, 1233); (1329, 1366, 1, 1377); (4256, 4293, 1, 11520);
   (4295, 4295, 1, 11559); (4301, 4301, 1, 11565); (5024, 5103, 1, 43888);
   (5104, 5109, 1, 5112); (7312, 7354, 1, 4304); (7357, 7359, 1, 4349);
   (7680, 7828, 2, 7681); (7838, 7838, 1, 223); (7840, 7934, 2, 7841);
   (7944, 7951, 1, 7936); (7960, 7965, 1, 7952); (7976, 7983, 1, 7968);
   (7992, 7999, 1, 7984); (8008, 8013, 1, 8000); (8025, 8031, 2, 8017);
   (8040, 8047, 1, 8032); (8072, 8079, 1, 8064); (8088, 8095, 1, 8080);
   (8104, 8111, 1, 8096); (8120, 8121, 1, 8112); (8122, 8123, 1, 8048);
   (8124, 8124, 1, 8115); (8136, 8139, 1, 8050); (8140, 8140, 1, 8131);
   (8152, 8153, 1, 8144); (8154, 8155, 1, 8054); (8168, 8169, 1, 8160);
   (8170, 8171, 1, 8058); (8172, 8172, 1, 8165); (8184, 8185, 1, 8056);
   (8186, 8187, 1, 8060); (8188, 8188, 1, 8179); (8486, 8486, 1, 969);
   (8490, 8490, 1, 107); (8491, 8491, 1, 229); (8498, 8498, 1, 8526);
   (8544, 8559, 1, 8560); (8579, 8579, 1, 8580); (9398, 9423, 1, 9424);
   (11264, 11311, 1, 11312); (11360, 11360, 1, 11361);
   (11362, 11362, 1, 619); (11363, 11363, 1, 7549); (11364, 11364, 1, 637);
   (11367, 11371, 2, 11368); (11373, 11373, 1, 593); (11374, 11374, 1, 625);
   (11375, 11375, 1, 592); (11376, 11376, 1, 594); (11378, 11378, 1, 11379);
   (11381, 11381, 1, 11382); (11390, 11391, 1, 575);
   (11392, 11490, 2, 11393); (11499, 11501, 2, 11500);
   (11506, 11506, 1, 11507); (42560, 42604, 2, 42561);
   (42624, 42650, 2, 42625); (42786, 42798, 2, 42787);
   (42802, 42862, 2, 42803); (42873, 42875, 2, 42874);
   (42877, 42877, 1, 7545); (42878, 42886, 2, 42879);
   (42891, 42891, 1, 42892); (42893, 42893, 1, 613);
   (42896, 42898, 2, 42897); (42902, 42920, 2, 42903);
   (42922, 42922, 1, 614); (42923, 42923, 1, 604); (42924, 42924, 1, 609);
   (42925, 42925, 1, 620); (42926, 42926, 1, 618); (42928, 42928, 1, 670);
   (42929, 42929, 1, 647); (42930, 42930, 1, 669); (42931, 42931, 1, 43859);
   (42932, 42946, 2, 42933); (42948, 42948, 1, 42900);
   (42949, 42949, 1, 642); (42950, 42950, 1, 7566); (42951, 42953, 2, 42952);
   (42960, 42960, 1, 42961); (42966, 42968, 2, 42967);
   (42997, 42997, 1, 42998); (65313, 65338, 1, 65345);
   (66560, 66599, 1, 66600); (66736, 66771, 1, 66776);
   (66928, 66938, 1, 66967); (66940, 66954, 1, 66979);
   (66956, 66962, 1, 66995); (66964, 66965, 1, 67003);
   (68736, 68786, 1, 68800); (71840, 71871, 1, 71872);
   (93760, 93791, 1, 93792); (125184, 125217, 1, 125218)].

Definition in_row (c : N) (row : N * N * N * N) : bool :=
  let '(first, last, step, _) := row in
  (first <=? c) && (c <=? last) && ((c - first) mod step =? 0).

Definition row_image (c : N) (row : N * N * N * N) : N :=
  let '(first, _, _, image) := row in image + (c - first).

Fixpoint to_lower_in (rows : list (N * N * N * N)) (c : N) : N :=
  match rows with
  | [] => c
  | row :: rows' => if in_row c row then row_image c row
                    else to_lower_in rows' c
  end.

Definition to_lower (c : N) : N := to_lower_in lower_rows c.

(** [_PyUnicode_ToLowerFull]: the capital I with dot above (U+0130) is the
    one code point whose lower-case form has two code points, i and the
    combining dot above. *)
Definition to_lower_full (c : N) : list N :=
  if c =? 304 then [105; 775] else [to_lower c].

Fixpoint first_not_ignorable (s : list N) : option N :=
  match s with
  | [] => None
  | c :: s' => if is_case_ignorable c then first_not_ignorable s'
               else Some c
  end.

(** [handle_capital_sigma]: a capital sigma (U+03A3) becomes the final
    sigma (U+03C2) when, case-ignorable code points apart, a cased one
    comes before it and none comes after it, and the small sigma (U+03C3)
    otherwise. [before] is the text before it, last code point first. *)
Definition handle_capital_sigma (before after : list N) : N :=
  match first_not_ignorable before with
  | Some c =>
      if is_cased c
      then match first_not_ignorable after with
           | Some c' => if is_cased c' then 963 else 962
           | None => 962
           end
      else 963
  | None => 963
  end.

(** [lower_ucs4] on the code point that follows [before]. *)
Definition lower_ucs4 (before : list N) (c : N) (after : list N) : list N :=
  if c =? 931 then [handle_capital_sigma before after] else to_lower_full c.

Fixpoint do_lower (before : list N) (s : list N) : list N :=
  match s with
  | [] => []
  | c :: s' => lower_ucs4 before c s' ++ do_lower (c :: before) s'
  end.

(** [s.lower()] *)
Definition lower (s : str) : str := do_lower [] s.

(** [u <= v] on [str]: code point by code point. *)
Fixpoint leb (u v : str) : bool :=
  match u, v with
  | [], _ => true
  | _ :: _, [] => false
  | a :: u', b :: v' =>
      if a <? b then true else if a =? b then leb u' v' else false
  end.

Definition le (u v : str) : Prop := leb u v = true.

#[export] Instance le_dec : RelDecision le.
Proof. intros u v. unfold le. apply _. Defined.

(** [sorted(xs)] on [str]. *)
Definition sorted_str : list str -> list str := merge_sort le.

(** [get_nltk_words(min_length, max_length)] on a corpus [words.words()]
    of any script. *)
Definition get_nltk_words (word_list : list str)
    (min_length max_length : Z) : list str :=
  let filtered_words :=
    lower <$>
      filter (fun w => (min_length <= Z.of_nat (length w) <= max_length)%Z)
             word_list in
  sorted_str (elements (list_to_set filtered_words : gset str)).




End Uni.

(** The word [U+0130 stanbul], of 8 code points, and its lower-case form,
    of 9. *)
Definition word_Istanbul : Uni.str :=
  [304; 115; 116; 97; 110; 98; 117; 108]%N.
Definition word_istanbul : Uni.str :=
  [105; 775; 115; 116; 97; 110; 98; 117; 108]%N.

(** ** Vocabulary of the further properties *)



(** [s] is made of white space only. *)
Fixpoint all_space (s : string) : bool :=
  match s with
  | EmptyString => true
  | String c s' => Py.isspace c && all_space s'
  end.


(** ** The rest of the program: test vector, command line, [main] *)

(** [SHADOW_FILE_CONTENT] *)
Definition SHADOW_FILE_CONTENT : string :=
"Bilbo:$2b$08$J9FW66ZdPI2nrIMcOxFYI.qx268uZn.ajhymLP/YHaAsfBGP3Fnmq
Gandalf:$2b$08$J9FW66ZdPI2nrIMcOxFYI.q2PW6mqALUl2/uFvV9OFNPmHGNPa6YC
Thorin:$2b$08$J9FW66ZdPI2nrIMcOxFYI.6B7jUcPdnqJz4tIUwKBu8lNMs5NdT9q
Fili:$2b$09$M9xNRFBDn0pUkPKIVCSBzuwNDDNTMWlvn7lezPr8IwVUsJbys3YZm
Kili:$2b$09$M9xNRFBDn0pUkPKIVCSBzuPD2bsU1q8yZPlgSdQXIBILSMCbdE4Im
Balin:$2b$10$xGKjb94iwmlth954hEaw3O3YmtDO/mEFLIO0a0xLK1vL79LA73Gom
Dwalin:$2b$10$xGKjb94iwmlth954hEaw3OFxNMF64erUqDNj6TMMKVDcsETsKK5be
Oin:$2b$10$xGKjb94iwmlth954hEaw3OcXR2H2PRHCgo98mjS11UIrVZLKxyABK
Gloin:$2b$11$/8UByex2ktrWATZOBLZ0DuAXTQl4mWX1hfSjliCvFfGH7w1tX5/3q
Dori:$2b$11$/8UByex2ktrWATZOBLZ0Dub5AmZeqtn7kv/3NCWBrDaRCFahGYyiq
Nori:$2b$11$/8UByex2ktrWATZOBLZ0DuER3Ee1GdP6f30TVIXoEhvhQDwghaU12
Ori:$2b$12$rMeWZtAVcGHLEiDNeKCz8OiERmh0dh8AiNcf7ON3O3P0GWTABKh0O
Bifur:$2b$12$rMeWZtAVcGHLEiDNeKCz8OMoFL0k33O8Lcq33f6AznAZ/cL1LAOyK
Bofur:$2b$12$rMeWZtAVcGHLEiDNeKCz8Ose2KNe821.l2h5eLffzWoP01DlQb72O
Durin:$2b$13$6ypcazOOkUT/a7EwMuIjH.qbdqmHPDAC9B5c37RT9gEw18BX6FOay".

(** [c.isdigit()] for one character: the decimal digits and the
    superscripts two, three and one. *)
Definition isdigit_char (c : ascii) : bool :=
  let n := Py.ord c in
  ((48 <=? n) && (n <=? 57) || (n =? 178) || (n =? 179) || (n =? 185))%N.

Fixpoint all_isdigit (s : string) : bool :=
  match s with
  | EmptyString => true
  | String c s' => isdigit_char c && all_isdigit s'
  end.

(** [s.isdigit()] *)
Definition str_isdigit (s : string) : bool :=
  match s with
  | EmptyString => false
  | _ => all_isdigit s
  end.

(** [xs.index(x)]; [None] is [ValueError]. *)
Fixpoint list_index (x : string) (xs : list string) : option nat :=
  match xs with
  | [] => None
  | y :: rest => if decide (y = x) then Some 0%nat
                 else S <$> list_index x rest
  end.

(** What the script is asked to do. *)
Inductive command :=
| QuickTest
| Main (background_mode : bool) (parallel : Z).

(** The [if __name__ == "__main__"] block, [argv] being [sys.argv] and
    [cpu_count] the value of [multiprocessing.cpu_count()]. *)
Definition parse_command_line (cpu_count : Z) (argv : list string)
  : outcome command :=
  if bool_decide (1 < length argv)%nat && bool_decide (argv !! 1%nat = Some "--test")
  then Returned QuickTest
  else
    let background := bool_decide ("--background" ∈ argv) in
    if decide ("--parallel" ∈ argv) then
      match list_index "--parallel" argv with
      | None => Raised ValueError
      | Some idx =>
          match argv !! (idx + 1)%nat with
          | Some arg =>
              if str_isdigit arg then
                match Py.int arg with
                | Some parallel => Returned (Main background parallel)
                | None => Raised ValueError
                end
              else Returned (Main background cpu_count)
          | None => Returned (Main background cpu_count)
          end
      end
    else Returned (Main background 0).

(** The key [(x['workfactor'], x['user'])] of the summary, compared as
    Python compares tuples. *)
Definition summary_key_le (r1 r2 : Result.t) : Prop :=
  (Result.workfactor r1 < Result.workfactor r2)%Z
  \/ (Result.workfactor r1 = Result.workfactor r2
      /\ String.le (Result.user r1) (Result.user r2)).

#[export] Instance summary_key_le_dec : RelDecision summary_key_le.
Proof. intros r1 r2. unfold summary_key_le. apply _. Defined.

(** [sorted(results, key=...)]: a stable sort, written as an insertion
    sort that puts an element before the first one whose key is not
    smaller. *)
Fixpoint insert_by_key (r : Result.t) (l : list Result.t) : list Result.t :=
  match l with
  | [] => [r]
  | y :: l' => if decide (summary_key_le r y) then r :: l
               else y :: insert_by_key r l'
  end.

Definition sorted_by_key (l : list Result.t) : list Result.t :=
  foldr insert_by_key [] l.

(** Truth value of [r['password']]: a password that is not empty. *)
Definition password_found (r : Result.t) : bool :=
  match Result.password r with
  | Some (String _ _) => true
  | _ => false
  end.

(** A row of the summary table, without its time column. *)
Definition summary_row (r : Result.t) : string * string * Z :=
  (Result.user r,
   match Result.password r with
   | Some (String c s) => String c s
   | _ => "NOT FOUND"
   end,
   Result.workfactor r).

(** What [main] leaves behind: the results it returns, the group headers
    and the summary it logs. *)
Record MainRun := {
  main_run : Run;
  summary_rows : list (string * string * Z);
  cracked : nat
}.

Section Program.

Variable checkpw : string -> string -> option bool.
(** [bcrypt.hashpw]; [None] stands for a raised exception. *)
Variable hashpw : string -> string -> option string.
Variable cpu_count : Z.

Definition verify_test_vector : outcome bool :=
  match hashpw "registrationsucks" "$2b$08$J9FW66ZdPI2nrIMcOxFYI." with
  | Some result =>
      Returned
        (bool_decide
           (result
            = "$2b$08$J9FW66ZdPI2nrIMcOxFYI.zKGJsUXmWLAYWsNmIANUy5JbSjfyLFu"))
  | None => Raised ValueError
  end.

(** [main(background_mode, parallel)], [nltk_words] being the NLTK corpus
    and [picks] the finishing orders of the pools. It returns [None] when
    the test vector fails. The files written in background mode, the time
    estimates and the CSV file are left out. *)
Definition main (nltk_words : list string) (picks : string -> list nat)
    (background_mode : bool) (parallel : Z) : outcome (option MainRun) :=
  ok ← verify_test_vector;
  if negb ok then Returned None
  else
    entries ← parse_shadow_file None (Some SHADOW_FILE_CONTENT);
    let word_list := get_nltk_words nltk_words 6 10 in
    run ← (if (0 <? parallel)%Z
           then crack_by_workfactor_group_parallel checkpw cpu_count picks
                  entries word_list (Some parallel)
           else Returned (crack_by_workfactor_group checkpw entries word_list));
    Returned
      (Some {| main_run := run;
               summary_rows := summary_row <$> sorted_by_key (results run);
               cracked := length (filter (fun r => password_found r = true)
                                    (results run)) |}).

End Program.
(** * Properties

    ** Sanity checks on the shadow file of the source *)

Example parse_Bilbo :
  parse_shadow_entry
    "Bilbo:$2b$08$J9FW66ZdPI2nrIMcOxFYI.qx268uZn.ajhymLP/YHaAsfBGP3Fnmq"
  = Returned (Some {| user := "Bilbo"; algorithm := "2b"; workfactor := 8;
                      salt := "J9FW66ZdPI2nrIMcOxFYI.";
                      bcrypt_salt := "$2b$08$J9FW66ZdPI2nrIMcOxFYI.";
                      hash := "qx268uZn.ajhymLP/YHaAsfBGP3Fnmq";
                      full_hash :=
                        "$2b$08$J9FW66ZdPI2nrIMcOxFYI.qx268uZn.ajhymLP/YHaAsfBGP3Fnmq" |}).
Proof. reflexivity. Qed.

Example chunks_10_3 : chunk_bounds 10 3 = [(0, 3); (3, 6); (6, 10)]%Z.
Proof. reflexivity. Qed.

Example chunks_2_5 : chunk_bounds 2 5 = [(0, 1); (1, 2)]%Z.
Proof. reflexivity. Qed.

Example corpus_small :
  get_nltk_words ["Zebra"; "apple"; "Apple"; "fig"; "banana"; "zebra"] 5 6
  = ["apple"; "banana"; "zebra"].
Proof. vm_compute. reflexivity. Qed.

(** ** List facts *)

Section ListFacts.

Context {A B : Type}.

Lemma filter_iff_elem (P1 P2 : A -> Prop)
    `{!forall x, Decision (P1 x), !forall x, Decision (P2 x)} (l : list A) :
  (forall x, x ∈ l -> P1 x <-> P2 x) -> filter P1 l = filter P2 l.
Proof.
  induction l as [|a l IH]; intros Hiff; [done|].
  rewrite !filter_cons.
  rewrite IH by (intros x Hx; apply Hiff; by right).
  destruct (decide (P1 a)) as [Ha|Ha].
  - by rewrite decide_True by (apply Hiff; [left|done]).
  - rewrite decide_False; [done|]. intros Ha2. apply Ha, Hiff; [left|done].
Qed.

Lemma NoDup_fmap_elem_inj (f : A -> B) (l : list A) x y :
  NoDup (f <$> l) -> x ∈ l -> y ∈ l -> f x = f y -> x = y.
Proof.
  induction l as [|a l IH]; [by intros _ ?%elem_of_nil|].
  rewrite fmap_cons, NoDup_cons.
  intros [Ha Hnd] [->|Hx]%elem_of_cons [->|Hy]%elem_of_cons Hf; [done|..].
  - destruct Ha. rewrite Hf. by apply list_elem_of_fmap_2.
  - destruct Ha. rewrite <- Hf. by apply list_elem_of_fmap_2.
  - by apply IH.
Qed.

Lemma concat_fmap_bind {C} (f : C -> list A) (l : list C) :
  concat (f <$> l) = l ≫= f.
Proof. induction l as [|x l IH]; [done|]. csimpl. by rewrite IH. Qed.

End ListFacts.

(** ** Facts about the string builtins *)

Section PyFacts.

Implicit Types (s u v : string) (c sep : ascii).

Lemma str_app_cons c u v : String c u +:+ v = String c (u +:+ v).
Proof. done. Qed.

Lemma app_nil_l_str v : EmptyString +:+ v = v.
Proof. done. Qed.

Lemma str_count_app c u v :
  Py.count c (u +:+ v) = Py.count c u + Py.count c v.
Proof.
  induction u as [|c' u IH]; [done|].
  rewrite str_app_cons. simpl. rewrite IH. lia.
Qed.

Lemma str_length_app u v :
  String.length (u +:+ v) = String.length u + String.length v.
Proof.
  induction u as [|c' u IH]; [done|]. rewrite str_app_cons. simpl. by rewrite IH.
Qed.

Lemma str_take_drop s n : Py.take n s +:+ Py.drop n s = s.
Proof.
  revert s. induction n as [|n IH]; intros [|c s]; simpl; try done.
  rewrite str_app_cons. f_equal. apply IH.
Qed.

Lemma str_length_take s n :
  String.length (Py.take n s) = Nat.min n (String.length s).
Proof.
  revert s. induction n as [|n IH]; intros [|c s]; simpl; try done.
  by rewrite IH.
Qed.

Lemma str_take_app_length u v : Py.take (String.length u) (u +:+ v) = u.
Proof.
  induction u as [|c u IH]; [by destruct v|].
  rewrite str_app_cons. simpl. by rewrite IH.
Qed.

Lemma str_count_take c s n : Py.count c (Py.take n s) <= Py.count c s.
Proof.
  revert s. induction n as [|n IH]; intros [|c' s]; simpl; try lia.
  specialize (IH s). lia.
Qed.

Lemma app_assoc_str u v s : (u +:+ v) +:+ s = u +:+ (v +:+ s).
Proof.
  induction u as [|c u IH]; [done|]. rewrite !str_app_cons. by rewrite IH.
Qed.

(** *** [split] *)

Lemma fields_length sep s :
  length (Py.fields sep s).2 = Py.count sep s.
Proof.
  induction s as [|c s IH]; simpl; [done|].
  destruct (Py.fields sep s) as [h t]. simpl in IH.
  destruct (Ascii.eqb c sep); simpl; by rewrite IH.
Qed.

(** [split] yields one field more than there are separators. *)
Lemma split_length sep s :
  length (Py.split sep s) = S (Py.count sep s).
Proof.
  unfold Py.split. pose proof (fields_length sep s) as H.
  destruct (Py.fields sep s) as [h t]. simpl in *. by rewrite H.
Qed.

Lemma split_cons sep c s :
  Py.split sep (String c s)
  = if Ascii.eqb c sep then EmptyString :: Py.split sep s
    else match Py.split sep s with
         | h :: t => String c h :: t
         | [] => []
         end.
Proof.
  unfold Py.split. simpl. destruct (Py.fields sep s) as [h t].
  by destruct (Ascii.eqb c sep).
Qed.

Lemma split_nosep sep s : Py.count sep s = 0 -> Py.split sep s = [s].
Proof.
  induction s as [|c s IH]; [done|]. rewrite split_cons. simpl.
  destruct (Ascii.eqb c sep); [done|]. intros H. by rewrite IH.
Qed.

Lemma split_app sep u v :
  Py.count sep u = 0 ->
  Py.split sep (u +:+ String sep v) = u :: Py.split sep v.
Proof.
  induction u as [|c u IH].
  - intros _. rewrite app_nil_l_str, split_cons. by rewrite Ascii.eqb_refl.
  - rewrite str_app_cons, split_cons. simpl.
    destruct (Ascii.eqb c sep); [done|]. intros H. by rewrite IH.
Qed.

(** No field holds the separator. *)
Lemma split_fields_nosep sep s f :
  f ∈ Py.split sep s -> Py.count sep f = 0.
Proof.
  revert f. induction s as [|c s IH]; intros f.
  - intros ->%list_elem_of_singleton. done.
  - rewrite split_cons. destruct (Ascii.eqb c sep) eqn:E.
    + intros [->|Hf]%elem_of_cons; [done|]. by apply IH.
    + destruct (Py.split sep s) as [|h t]; [by intros ?%elem_of_nil|].
      intros [->|Hf]%elem_of_cons.
      * simpl. rewrite E. apply IH. left.
      * apply IH. by right.
Qed.

Lemma join_cons_cons sep f g (l : list string) :
  Py.join sep (f :: g :: l) = f +:+ String sep (Py.join sep (g :: l)).
Proof. done. Qed.

Lemma join_split sep s : Py.join sep (Py.split sep s) = s.
Proof.
  induction s as [|c s IH]; [done|]. rewrite split_cons.
  destruct (Ascii.eqb_spec c sep) as [->|Hne].
  - pose proof (split_length sep s).
    destruct (Py.split sep s) as [|h t]; [done|].
    by rewrite join_cons_cons, IH.
  - pose proof (split_length sep s).
    destruct (Py.split sep s) as [|h t]; [done|].
    destruct t as [|h' t].
    + simpl in *. by rewrite IH.
    + rewrite !join_cons_cons in *. by rewrite <- IH.
Qed.

(** *** [strip] *)

Lemma count_lstrip c s :
  Py.isspace c = false -> Py.count c (Py.lstrip s) = Py.count c s.
Proof.
  intros Hc. induction s as [|c' s IH]; simpl; [done|].
  destruct (Py.isspace c') eqn:E; [|done].
  destruct (Ascii.eqb_spec c' c) as [->|]; [congruence|]. by rewrite IH.
Qed.

Lemma count_rstrip c s :
  Py.isspace c = false -> Py.count c (Py.rstrip s) = Py.count c s.
Proof.
  intros Hc. induction s as [|c' s IH]; simpl; [done|].
  destruct (Py.rstrip s) as [|c'' r] eqn:Er.
  - destruct (Py.isspace c') eqn:E.
    + destruct (Ascii.eqb_spec c' c) as [->|]; [congruence|]. by rewrite <- IH.
    + simpl. by rewrite <- IH.
  - simpl in *. by rewrite <- IH.
Qed.

Lemma count_strip c s :
  Py.isspace c = false -> Py.count c (Py.strip s) = Py.count c s.
Proof.
  intros Hc. unfold Py.strip. by rewrite count_rstrip, count_lstrip.
Qed.

End PyFacts.

(** ** Chunk partitioning *)

Section Chunking.

Local Open Scope Z_scope.

Lemma chunk_size_of_eq len N :
  0 <= len -> 1 <= N ->
  (if len / N =? 0 then 1 else len / N) = chunk_size_of len N.
Proof.
  intros Hl HN. unfold chunk_size_of.
  assert (0 <= len / N) by (apply Z.div_pos; lia).
  destruct (Z.eqb_spec (len / N) 0); lia.
Qed.

Lemma chunk_size_of_cases len N :
  0 <= len -> 1 <= N ->
  (N <= len /\ chunk_size_of len N = len / N /\ 1 <= len / N
   /\ N * (len / N) <= len)
  \/ (len < N /\ chunk_size_of len N = 1).
Proof.
  intros Hl HN. unfold chunk_size_of.
  destruct (Z_lt_le_dec len N) as [Hlt|Hge].
  - right. rewrite Z.div_small by lia. lia.
  - left. assert (1 <= len / N).
    { apply Z.div_le_lower_bound; lia. }
    pose proof (Z.mul_div_le len N). lia.
Qed.

(** A chunk is kept exactly when its index is below [min N len]. *)
Lemma chunk_start_lt len N i :
  0 <= len -> 1 <= N -> 0 <= i < N ->
  i * chunk_size_of len N < len <-> i < Z.min N len.
Proof.
  intros Hl HN Hi.
  destruct (chunk_size_of_cases len N Hl HN) as [(Hle & -> & H1 & H2)|[Hlt ->]].
  - rewrite Z.min_l by lia. split; [lia|]. intros _. nia.
  - rewrite Z.min_r by lia. lia.
Qed.

Lemma range_filter_lt (n : nat) (m : Z) k :
  0 <= m ->
  filter (fun i => i < m) (Z.of_nat <$> seq k n)
  = Z.of_nat <$> seq k (Z.to_nat (Z.min (Z.of_nat (k + n)) m) - k).
Proof.
  intros Hm. revert k. induction n as [|n IH]; intros k.
  - simpl. replace (_ - _)%nat with 0%nat by lia. done.
  - cbn [seq fmap list_fmap]. rewrite filter_cons. case_decide as Hk.
    + rewrite IH.
      replace (Z.to_nat (Z.min (Z.of_nat (k + S n)) m) - k)%nat
        with (S (Z.to_nat (Z.min (Z.of_nat (S k + n)) m) - S k)) by lia.
      done.
    + rewrite IH.
      replace (Z.to_nat (Z.min (Z.of_nat (k + S n)) m) - k)%nat with 0%nat by lia.
      replace (Z.to_nat (Z.min (Z.of_nat (S k + n)) m) - S k)%nat with 0%nat by lia.
      done.
Qed.

Lemma chunk_bounds_formula len N :
  0 <= len -> 1 <= N ->
  chunk_bounds len N = chunk_at len N <$> Py.range (Z.min N len).
Proof.
  intros Hl HN. unfold chunk_bounds. rewrite chunk_size_of_eq by done.
  transitivity (chunk_at len N <$> filter (fun i => i < Z.min N len) (Py.range N)).
  - assert (Hin : forall i, i ∈ Py.range N -> 0 <= i < N).
    { intros i. unfold Py.range. rewrite list_elem_of_fmap.
      intros (k & -> & Hk). apply elem_of_seq in Hk. lia. }
    induction (Py.range N) as [|i l IH]; [done|].
    cbn [mbind list_bind]. rewrite filter_cons.
    assert (Hi : 0 <= i < N) by (apply Hin; left).
    rewrite IH by (intros j Hj; apply Hin; by right).
    pose proof (chunk_start_lt len N i Hl HN Hi) as Hs.
    destruct (Z.ltb_spec (i * chunk_size_of len N) len); case_decide; try lia; done.
  - f_equal. unfold Py.range. rewrite range_filter_lt by lia.
    f_equal. f_equal. lia.
Qed.

Lemma tiling_le a b l : tiling a b l -> a <= b.
Proof. induction 1; lia. Qed.

Lemma tiling_bounds a b l :
  tiling a b l -> Forall (fun c => a <= c.1 /\ c.1 < c.2 /\ c.2 <= b) l.
Proof.
  induction 1 as [|a e b l Hlt Ht IH]; constructor.
  - simpl. apply tiling_le in Ht. lia.
  - eapply Forall_impl; [exact IH|]. simpl. intros c. lia.
Qed.

Lemma interval_nil s : interval s s = [].
Proof. unfold interval. by rewrite Z.sub_diag. Qed.

Lemma interval_app a e b :
  a <= e -> e <= b -> interval a e ++ interval e b = interval a b.
Proof.
  intros H1 H2. unfold interval.
  replace (Z.to_nat (b - a)) with (Z.to_nat (e - a) + Z.to_nat (b - e))%nat by lia.
  rewrite seq_app, fmap_app. f_equal. rewrite Nat.add_0_l.
  rewrite <- (Nat.add_0_r (Z.to_nat (e - a))) at 1.
  rewrite <- fmap_add_seq, <- list_fmap_compose.
  apply list_fmap_ext. intros _ k _. simpl. lia.
Qed.

Lemma range_interval n : Py.range n = interval 0 n.
Proof. unfold Py.range, interval. by rewrite Z.sub_0_r. Qed.

Lemma tiling_interval a b l :
  tiling a b l -> (l ≫= fun c => interval c.1 c.2) = interval a b.
Proof.
  induction 1 as [a|a e b l Hlt Ht IH].
  - by rewrite interval_nil.
  - cbn [mbind list_bind]. simpl. rewrite IH. apply interval_app; [lia|].
    by apply tiling_le in Ht.
Qed.

Lemma tiling_slices {A} (words : list A) a l :
  0 <= a -> tiling a (Z.of_nat (length words)) l ->
  concat ((fun c => Py.slice words c.1 c.2) <$> l) = drop (Z.to_nat a) words.
Proof.
  intros Ha Ht. remember (Z.of_nat (length words)) as b eqn:Hb.
  induction Ht as [a|a e b l Hlt Ht IH].
  - subst. rewrite Nat2Z.id. by rewrite drop_all.
  - cbn [fmap list_fmap concat]. simpl. rewrite IH by (done || lia).
    pose proof (tiling_le _ _ _ Ht) as Hle.
    unfold Py.slice, Py.slice_index. rewrite <- Hb.
    destruct (Z.ltb_spec a 0); [lia|]. destruct (Z.ltb_spec e 0); [lia|].
    rewrite !Z.min_l by lia.
    rewrite <- (take_drop (Z.to_nat (e - a)) (drop (Z.to_nat a) words)) at 2.
    f_equal. rewrite drop_drop. f_equal. lia.
Qed.

(** The chunks given by [chunk_at] for the indices [k, k + m) tile the
    corpus from the start of chunk [k] on. *)
Lemma chunk_at_tiling len N (m k : nat) :
  0 <= len -> 1 <= N -> Z.of_nat (k + m) = Z.min N len ->
  tiling (if m is O then len else Z.of_nat k * chunk_size_of len N) len
    (chunk_at len N <$> (Z.of_nat <$> seq k m)).
Proof.
  intros Hl HN. revert k. induction m as [|m IH]; intros k Hk.
  - constructor.
  - cbn [seq fmap list_fmap]. unfold chunk_at at 1.
    specialize (IH (S k) ltac:(lia)).
    assert (Hi : 0 <= Z.of_nat k < N) by lia.
    pose proof (proj2 (chunk_start_lt len N _ Hl HN Hi) ltac:(lia)) as Hs.
    destruct (chunk_size_of_cases len N Hl HN) as [(Hle & Hc & H1 & H2)|[Hlt Hc]].
    + destruct (Z.ltb_spec (Z.of_nat k) (N - 1)).
      * constructor; [lia|]. destruct m as [|m]; [lia|].
        replace (Z.of_nat k * chunk_size_of len N + chunk_size_of len N)
          with (Z.of_nat (S k) * chunk_size_of len N) by lia.
        exact IH.
      * constructor; [lia|]. destruct m as [|m]; [exact IH|lia].
    + destruct (Z.ltb_spec (Z.of_nat k) (N - 1)); [|lia].
      constructor; [lia|]. rewrite Hc in *. destruct m as [|m].
      * replace (Z.of_nat k * 1 + 1) with len by lia. exact IH.
      * replace (Z.of_nat k * 1 + 1) with (Z.of_nat (S k) * 1) by lia. exact IH.
Qed.

Lemma chunk_bounds_tiling len N :
  0 <= len -> 1 <= N -> tiling 0 len (chunk_bounds len N).
Proof.
  intros Hl HN. rewrite chunk_bounds_formula by done. unfold Py.range.
  pose proof (chunk_at_tiling len N (Z.to_nat (Z.min N len)) 0 Hl HN ltac:(lia)) as Ht.
  destruct (Z.to_nat (Z.min N len)) eqn:E; [|exact Ht].
  assert (len = 0) as -> by lia. constructor.
Qed.

End Chunking.

Section ChunkClaims.

Local Open Scope Z_scope.

Lemma chunk_bounds_length len N :
  0 <= len -> 1 <= N -> Z.of_nat (length (chunk_bounds len N)) = Z.min N len.
Proof.
  intros Hl HN. rewrite chunk_bounds_formula by done.
  unfold Py.range. rewrite !length_fmap, length_seq. lia.
Qed.

Lemma chunk_bounds_lookup len N (k : nat) c :
  0 <= len -> 1 <= N ->
  chunk_bounds len N !! k = Some c -> c = chunk_at len N (Z.of_nat k).
Proof.
  intros Hl HN. rewrite chunk_bounds_formula by done. unfold Py.range.
  rewrite !list_lookup_fmap. intros H.
  destruct (seq 0 (Z.to_nat (Z.min N len)) !! k) as [j|] eqn:E; [|done].
  apply lookup_seq in E as [-> _]. simpl in H. congruence.
Qed.

Lemma chunk_args_bounds full_hash (word_list : list string) N :
  chunk_args full_hash word_list N
  = (fun c => (Py.slice word_list c.1 c.2, full_hash, c.1))
      <$> chunk_bounds (Z.of_nat (length word_list)) N.
Proof.
  unfold chunk_args, chunk_bounds. cbv zeta.
  induction (Py.range N) as [|i l IH]; [done|].
  cbn [mbind list_bind]. rewrite fmap_app, IH. f_equal.
  by destruct (_ <? Z.of_nat (length word_list))%Z.
Qed.

(** The slices handed to the workers, put end to end, are the corpus. *)
Lemma chunk_args_concat full_hash (word_list : list string) N :
  1 <= N ->
  concat ((fun a => a.1.1) <$> chunk_args full_hash word_list N) = word_list.
Proof.
  intros HN. rewrite chunk_args_bounds, <- list_fmap_compose.
  pose proof (chunk_bounds_tiling (Z.of_nat (length word_list)) N
                ltac:(lia) HN) as Ht.
  by rewrite <- (tiling_slices word_list 0 _ ltac:(lia) Ht) at 2.
Qed.

(** C2: for every corpus length L >= 0 and worker count N >= 1 the chunks
    built by [crack_user_parallel] are at most N non-empty half-open ranges
    inside [0, L), each starting where the previous one ends, the first at 0
    and the last ending at L; listing the indices of all chunks in turn
    gives 0, 1, ..., L-1, every index exactly once; and the slices of a
    corpus of L words are cut at these bounds and concatenate to it. *)
Theorem chunks_partition_corpus (L N : Z) (HL : 0 <= L) (HN : 1 <= N) :
  let chunks := chunk_bounds L N in
  Z.of_nat (length chunks) <= N
  /\ Forall (fun c => 0 <= c.1 /\ c.1 < c.2 /\ c.2 <= L) chunks
  /\ tiling 0 L chunks
  /\ (chunks ≫= fun c => interval c.1 c.2) = Py.range L
  /\ (forall x, 0 <= x < L ->
        length (filter (fun c => c.1 <= x < c.2) chunks) = 1%nat)
  /\ forall full_hash (word_list : list string),
       Z.of_nat (length word_list) = L ->
       chunk_args full_hash word_list N
       = (fun c => (Py.slice word_list c.1 c.2, full_hash, c.1)) <$> chunks
       /\ concat ((fun a => a.1.1) <$> chunk_args full_hash word_list N)
          = word_list.
Proof.
  intros chunks. pose proof (chunk_bounds_tiling L N HL HN) as Ht.
  fold chunks in Ht. split_and!.
  - unfold chunks. rewrite chunk_bounds_length by done. lia.
  - apply tiling_bounds in Ht. eapply Forall_impl; [exact Ht|].
    simpl. intros c. lia.
  - exact Ht.
  - rewrite range_interval. by apply tiling_interval.
  - intros x Hx. clear -Ht Hx. revert Hx.
    induction Ht as [a|a e b l Hlt Ht IH]; intros Hx; [lia|].
    rewrite filter_cons. simpl. case_decide as Hc.
    + simpl. f_equal. apply tiling_bounds in Ht.
      clear IH. induction Ht as [|c l Hc' _ IH]; [done|].
      rewrite filter_cons. case_decide; [lia|]. exact IH.
    + apply IH. lia.
  - intros full_hash word_list Hlen. split.
    + unfold chunks. by rewrite chunk_args_bounds, Hlen.
    + by apply chunk_args_concat.
Qed.

Lemma chunks_partition_corpus_witness :
  0 <= 10 /\ 1 <= 3 /\
  Z.of_nat (length (chunk_bounds 10 3)) <= 3 /\ tiling 0 10 (chunk_bounds 10 3).
Proof.
  split; [lia|]. split; [lia|].
  pose proof (chunks_partition_corpus 10 3 ltac:(lia) ltac:(lia)) as H.
  simpl in H. split; [apply H|apply H].
Defined.

(** C3, as stated, fails: a corpus of 10 words split for 3 workers gives
    chunks of 3, 3 and 4 words, not chunks of [ceil(10/3) = 4] words; and a
    corpus of 2 words split for 5 workers gives 2 chunks, not 5. *)
Lemma chunks_not_ceiling :
  chunk_bounds 10 3 = [(0, 3); (3, 6); (6, 10)]
  /\ ceil_div 10 3 = 4
  /\ ~ (let chunks := chunk_bounds 10 3 in
        Z.of_nat (length chunks) = 3
        /\ forall (k : nat) c, chunks !! k = Some c ->
             Z.of_nat k < 3 - 1 -> c.2 - c.1 = ceil_div 10 3)
  /\ length (chunk_bounds 2 5) <> 5%nat.
Proof.
  split_and!; [reflexivity|reflexivity| |by vm_compute].
  intros [_ H3].
  specialize (H3 0%nat (0, 3) eq_refl ltac:(lia)). vm_compute in H3.
  discriminate.
Qed.

Example chunks_2_5_count : length (chunk_bounds 2 5) = 2%nat.
Proof. reflexivity. Qed.

(** C3, amended: for a corpus of len >= 1 words and N >= 1 workers there are
    min(N, len) chunks, laid end to end from 0 to len; chunk k starts at
    k * max(1, floor(len / N)); every chunk but the N-th has
    max(1, floor(len / N)) words, and the N-th chunk, which exists when
    len >= N, runs to the end of the corpus and so has
    floor(len / N) + len mod N words. *)
Theorem chunks_floor_sizes (len N : Z) (Hlen : 1 <= len) (HN : 1 <= N) :
  let chunks := chunk_bounds len N in
  let cs := Z.max 1 (len / N) in
  Z.of_nat (length chunks) = Z.min N len
  /\ tiling 0 len chunks
  /\ forall (k : nat) c, chunks !! k = Some c ->
       c.1 = Z.of_nat k * cs
       /\ (Z.of_nat k < N - 1 -> c.2 - c.1 = cs)
       /\ (Z.of_nat k = N - 1 ->
             c.2 = len /\ c.2 - c.1 = len / N + len mod N).
Proof.
  intros chunks cs. split_and!.
  - by apply chunk_bounds_length; lia.
  - by apply chunk_bounds_tiling; lia.
  - intros k c Hk.
    assert (Hlt : Z.of_nat k < Z.min N len).
    { apply lookup_lt_Some in Hk. unfold chunks in Hk.
      pose proof (chunk_bounds_length len N ltac:(lia) HN). lia. }
    apply chunk_bounds_lookup in Hk as ->; [|lia|done].
    unfold chunk_at, chunk_size_of. fold cs. simpl. split_and!.
    + done.
    + intros Hk. destruct (Z.ltb_spec (Z.of_nat k) (N - 1)); lia.
    + intros Hk. destruct (Z.ltb_spec (Z.of_nat k) (N - 1)); [lia|].
      split; [done|]. rewrite Hk.
      assert (1 <= len / N) by (apply Z.div_le_lower_bound; lia).
      pose proof (Z.div_mod len N ltac:(lia)). unfold cs. nia.
Qed.

Lemma chunks_floor_sizes_witness :
  1 <= 10 /\ 1 <= 3 /\ Z.of_nat (length (chunk_bounds 10 3)) = Z.min 3 10.
Proof.
  split; [lia|]. split; [lia|].
  apply (chunks_floor_sizes 10 3); lia.
Defined.

End ChunkClaims.

(** ** The parallel distributor against the single-core scan *)

Section Distributor.

Local Open Scope Z_scope.

Context (checkpw : string -> string -> option bool).

Lemma finish_order_perm picks running :
  finish_order picks running ≡ₚ running.
Proof.
  revert running. induction picks as [|p picks IH]; intros running; [done|].
  destruct running as [|r rs]; [done|]. cbn [finish_order].
  set (k := (p `mod` length (r :: rs))%nat).
  destruct ((r :: rs) !! k) as [i|] eqn:E; [|done].
  rewrite IH. symmetry. by apply delete_Permutation.
Qed.

Lemma fill_slots_lookup {A B} (f : A -> B) (tasks : list A) order
    (slots : list (option B)) (j : nat) :
  foldl (fun slots i => <[i := f <$> tasks !! i]> slots) slots order !! j
  = if decide (j ∈ order /\ (j < length slots)%nat)
    then Some (f <$> tasks !! j) else slots !! j.
Proof.
  revert slots. induction order as [|i order IH]; intros slots.
  - cbn [foldl]. case_decide as H; [|done]. destruct H as [H _].
    by apply elem_of_nil in H.
  - cbn [foldl]. rewrite IH, length_insert.
    destruct (decide (j ∈ order /\ (j < length slots)%nat)) as [[H1 H2]|Hn].
    + rewrite decide_True; [done|]. split; [by right|done].
    + destruct (decide (j = i)) as [->|Hne].
      * destruct (decide (i < length slots)%nat).
        -- rewrite decide_True by (split; [left|done]).
           by rewrite list_lookup_insert_eq.
        -- rewrite decide_False by tauto. by rewrite list_insert_ge by lia.
      * rewrite decide_False; [by rewrite list_lookup_insert_ne|].
        rewrite elem_of_cons. tauto.
Qed.

(** Whatever the order in which the workers finish, [Pool.map] returns the
    results in the order of the tasks. *)
Lemma pool_map_fmap {A B} picks (f : A -> B) (tasks : list A) :
  pool_map picks f tasks = f <$> tasks.
Proof.
  unfold pool_map.
  set (slots := foldl _ _ _).
  assert (slots = (fun a => Some (f a)) <$> tasks) as ->.
  { apply list_eq. intros j. unfold slots. rewrite fill_slots_lookup.
    rewrite length_replicate, list_lookup_fmap.
    case_decide as H.
    - destruct H as [_ H]. apply lookup_lt_is_Some in H as [a ->]. done.
    - destruct (decide (j < length tasks)%nat) as [Hlt|Hge].
      + exfalso. apply H. split; [|done].
        rewrite finish_order_perm. apply elem_of_seq. lia.
      + rewrite !lookup_ge_None_2; [done|lia|rewrite length_replicate; lia]. }
  clear. induction tasks as [|a tasks IH]; [done|].
  cbn [fmap list_fmap omap list_omap id]. by f_equal.
Qed.

Lemma check_password_checkpw_true w h :
  check_password_checkpw checkpw w h = true <-> checkpw w h = Some true.
Proof.
  unfold check_password_checkpw. destruct (checkpw w h) as [[]|]; naive_solver.
Qed.

(** A worker finds what the single-core scan finds on its chunk, with the
    0-based global index where the scan has the 1-based one. *)
Lemma worker_scan_single full_hash start_index i chunk :
  (fun r => (r.1, r.2 + 1)) <$> worker_scan checkpw full_hash start_index i chunk
  = single_user_scan checkpw full_hash (start_index + i) chunk.
Proof.
  revert i. induction chunk as [|w chunk IH]; intros i; [done|]. simpl.
  unfold check_password_checkpw.
  destruct (checkpw w full_hash) as [[]|]; simpl; [done| |];
    rewrite IH; f_equal; lia.
Qed.

Lemma single_user_scan_app full_hash i l1 l2 :
  single_user_scan checkpw full_hash i (l1 ++ l2)
  = match single_user_scan checkpw full_hash i l1 with
    | Some r => Some r
    | None =>
        single_user_scan checkpw full_hash (i + Z.of_nat (length l1)) l2
    end.
Proof.
  revert i. induction l1 as [|w l1 IH]; intros i; simpl.
  - f_equal. lia.
  - destruct (check_password_checkpw checkpw w full_hash); [done|].
    rewrite IH. destruct (single_user_scan _ _ _ l1); [done|]. f_equal. lia.
Qed.

Lemma slice_eq {A} (l : list A) a e :
  0 <= a -> a <= e -> e <= Z.of_nat (length l) ->
  Py.slice l a e = take (Z.to_nat (e - a)) (drop (Z.to_nat a) l).
Proof.
  intros. unfold Py.slice, Py.slice_index.
  destruct (Z.ltb_spec a 0); [lia|]. destruct (Z.ltb_spec e 0); [lia|].
  by rewrite !Z.min_l by lia.
Qed.

(** The first result of workers that tile the corpus from [a] on is the
    result of the single-core scan from [a] on. *)
Lemma first_result_tiling full_hash (word_list : list string) a l :
  0 <= a -> tiling a (Z.of_nat (length word_list)) l ->
  first_result
    (crack_worker_chunk checkpw <$>
       ((fun c => (Py.slice word_list c.1 c.2, full_hash, c.1)) <$> l))
  = single_user_scan checkpw full_hash a (drop (Z.to_nat a) word_list).
Proof.
  intros Ha Ht. remember (Z.of_nat (length word_list)) as b eqn:Hb.
  induction Ht as [a|a e b l Hlt Ht IH].
  - subst. by rewrite Nat2Z.id, drop_all.
  - pose proof (tiling_le _ _ _ Ht) as Hle.
    cbn [fmap list_fmap]. simpl.
    rewrite <- (take_drop (Z.to_nat (e - a)) (drop (Z.to_nat a) word_list)).
    rewrite drop_drop, single_user_scan_app.
    rewrite slice_eq by lia.
    set (chunk := take _ _).
    assert (Hlen : Z.of_nat (length chunk) = e - a).
    { unfold chunk. rewrite length_take, length_drop. lia. }
    pose proof (worker_scan_single full_hash a 0 chunk) as Hw.
    rewrite Z.add_0_r in Hw. rewrite <- Hw.
    destruct (worker_scan checkpw full_hash a 0 chunk) as [[w idx]|]; [done|].
    simpl. rewrite IH by (done || lia). f_equal; [lia|]. f_equal. lia.
Qed.

(** For at least one process the parallel cracker returns what the
    single-core cracker returns. *)
Lemma crack_user_parallel_single picks user full_hash word_list N :
  1 <= N ->
  crack_user_parallel checkpw picks user full_hash word_list N
  = Returned (crack_single_user checkpw user full_hash word_list).
Proof.
  intros HN. unfold crack_user_parallel, crack_single_user.
  destruct (Z.eqb_spec N 0); [lia|]. destruct (Z.ltb_spec N 1); [lia|].
  f_equal. rewrite pool_map_fmap, chunk_args_bounds.
  apply (first_result_tiling full_hash word_list 0); [lia|].
  apply chunk_bounds_tiling; lia.
Qed.


Lemma single_user_scan_Some full_hash i word_list w idx :
  single_user_scan checkpw full_hash i word_list = Some (w, idx) <->
  exists k : nat,
    idx = i + Z.of_nat k + 1 /\ word_list !! k = Some w
    /\ checkpw w full_hash = Some true
    /\ forall (k' : nat) w', (k' < k)%nat -> word_list !! k' = Some w' ->
         checkpw w' full_hash <> Some true.
Proof.
  revert i. induction word_list as [|x l IH]; intros i; simpl.
  - split; [done|]. by intros (k & _ & ? & _).
  - destruct (check_password_checkpw checkpw x full_hash) eqn:E.
    + apply check_password_checkpw_true in E. split.
      * intros [= <- <-]. exists 0%nat. split_and!; [lia|done|done|lia].
      * intros (k & -> & Hk & Hc & Hmin). destruct k as [|k].
        -- simpl in Hk. injection Hk as ->. do 2 f_equal. lia.
        -- by destruct (Hmin 0%nat x ltac:(lia) eq_refl).
    + assert (Hx : checkpw x full_hash <> Some true).
      { rewrite <- check_password_checkpw_true. congruence. }
      rewrite IH. split.
      * intros (k & -> & Hk & Hc & Hmin). exists (S k).
        split_and!; [lia|done|done|].
        intros [|k'] w' Hlt Hw'; simpl in Hw'; [congruence|].
        apply (Hmin k'); [lia|done].
      * intros (k & -> & Hk & Hc & Hmin). destruct k as [|k].
        -- simpl in Hk. congruence.
        -- exists k. split_and!; [lia|done|done|].
           intros k' w' Hlt Hw'. apply (Hmin (S k')); [lia|done].
Qed.

Lemma single_user_scan_None full_hash i word_list :
  single_user_scan checkpw full_hash i word_list = None <->
  forall w, w ∈ word_list -> checkpw w full_hash <> Some true.
Proof.
  revert i. induction word_list as [|x l IH]; intros i; simpl.
  - split; [|done]. intros _ w Hw. by apply elem_of_nil in Hw.
  - destruct (check_password_checkpw checkpw x full_hash) eqn:E.
    + apply check_password_checkpw_true in E. split; [done|].
      intros H. destruct (H x); [left|done].
    + assert (Hx : checkpw x full_hash <> Some true).
      { rewrite <- check_password_checkpw_true. congruence. }
      rewrite IH. split.
      * intros H w [->|Hw]%elem_of_cons; auto.
      * intros H w Hw. apply H. by right.
Qed.

Lemma first_result_Some results w idx :
  first_result results = Some (w, idx) ->
  Some (w, idx - 1) ∈ results.
Proof.
  induction results as [|[[w' idx']|] l IH]; simpl; [done| |].
  - intros [= <- <-]. replace (idx' + 1 - 1) with idx' by lia. left.
  - intros H. right. auto.
Qed.

End Distributor.

Section DistributorClaims.

Local Open Scope Z_scope.

Context (checkpw : string -> string -> option bool).

(** C10: for every record, word list and worker count N >= 1, whatever the
    order in which the workers finish, [crack_user_parallel] returns
    normally, and what it returns is what [crack_single_user] returns
    (elapsed time left out): one finds a password if and only if the other
    does, and then both return the same word with the same attempt
    count. *)
Theorem parallel_agrees_with_single_core (picks : list nat)
    (user full_hash : string) (word_list : list string) (N : Z)
    (HN : 1 <= N) :
  let single := crack_single_user checkpw user full_hash word_list in
  exists parallel,
    crack_user_parallel checkpw picks user full_hash word_list N
    = Returned parallel
    /\ parallel = single
    /\ (is_Some parallel <-> is_Some single)
    /\ (forall word attempts,
          parallel = Some (word, attempts) <-> single = Some (word, attempts)).
Proof.
  intros single. exists single.
  assert (Heq : crack_user_parallel checkpw picks user full_hash word_list N
                = Returned single).
  { unfold crack_user_parallel, single, crack_single_user.
    destruct (Z.eqb_spec N 0); [lia|]. destruct (Z.ltb_spec N 1); [lia|].
    f_equal. rewrite pool_map_fmap, chunk_args_bounds.
    apply (first_result_tiling checkpw full_hash word_list 0); [lia|].
    apply chunk_bounds_tiling; lia. }
  by split_and!.
Qed.

(** C1: when two different positions of the corpus hold words that verify
    against the reference, then for every worker count N >= 1 there is one
    position k and word w such that, whatever the order in which the
    workers finish, [crack_user_parallel] returns w with the 1-based
    position k + 1; w is the word at index k, it verifies, no word at a
    smaller index does (so k is at most either of the two positions), and
    the worker whose chunk holds it reports the 0-based global index k. *)
Theorem parallel_prefers_lowest_index (user full_hash : string)
    (word_list : list string) (N : Z) (i j : nat) (wi wj : string)
    (HN : 1 <= N) (Hij : i <> j)
    (Hi : word_list !! i = Some wi) (Hj : word_list !! j = Some wj)
    (Hvi : checkpw wi full_hash = Some true)
    (Hvj : checkpw wj full_hash = Some true) :
  exists (k : nat) (w : string),
    (forall picks,
       crack_user_parallel checkpw picks user full_hash word_list N
       = Returned (Some (w, Z.of_nat k + 1)))
    /\ word_list !! k = Some w
    /\ checkpw w full_hash = Some true
    /\ (k <= i)%nat /\ (k <= j)%nat
    /\ (forall (k' : nat) w', (k' < k)%nat -> word_list !! k' = Some w' ->
          checkpw w' full_hash <> Some true)
    /\ exists args, args ∈ chunk_args full_hash word_list N
          /\ crack_worker_chunk checkpw args = Some (w, Z.of_nat k).
Proof.
  destruct (crack_single_user checkpw user full_hash word_list)
    as [[w idx]|] eqn:E.
  - pose proof E as E'. unfold crack_single_user in E'.
    apply single_user_scan_Some in E' as (k & -> & Hk & Hc & Hmin).
    exists k, w.
    assert (Hpar : forall picks,
      crack_user_parallel checkpw picks user full_hash word_list N
      = Returned (Some (w, Z.of_nat k + 1))).
    { intros picks. rewrite crack_user_parallel_single by done.
      rewrite E. do 3 f_equal. }
    split_and!; try done.
    + destruct (decide (k <= i)%nat); [done|].
      by destruct (Hmin i wi ltac:(lia) Hi).
    + destruct (decide (k <= j)%nat); [done|].
      by destruct (Hmin j wj ltac:(lia) Hj).
    + specialize (Hpar []). unfold crack_user_parallel in Hpar.
      destruct (Z.eqb_spec N 0); [lia|]. destruct (Z.ltb_spec N 1); [lia|].
      injection Hpar as Hpar. rewrite pool_map_fmap in Hpar.
      apply first_result_Some in Hpar.
      apply list_elem_of_fmap in Hpar as (args & Hargs & Hin).
      exists args. split; [done|]. rewrite <- Hargs. do 2 f_equal. lia.
  - unfold crack_single_user in E.
    rewrite single_user_scan_None in E.
    destruct (E wi); [|done]. by eapply list_elem_of_lookup_2.
Qed.

End DistributorClaims.

Lemma parallel_agrees_with_single_core_witness :
  (1 <= 3)%Z /\
  exists parallel,
    crack_user_parallel truncating_checkpw [2; 0]%nat "u" "ta"
      ["aaaaaa"; "bbbbbb"; "target"; "tamper"] 3
    = Returned parallel
    /\ parallel = crack_single_user truncating_checkpw "u" "ta"
                    ["aaaaaa"; "bbbbbb"; "target"; "tamper"].
Proof.
  split; [lia|].
  destruct (parallel_agrees_with_single_core truncating_checkpw [2; 0]%nat
              "u" "ta" ["aaaaaa"; "bbbbbb"; "target"; "tamper"] 3
              ltac:(lia)) as (parallel & H1 & H2 & _).
  exists parallel. split; [exact H1|exact H2].
Defined.

Lemma parallel_prefers_lowest_index_witness :
  exists (k : nat) (w : string),
    forall picks,
      crack_user_parallel truncating_checkpw picks "u" "ta"
        ["aaaaaa"; "tamper"; "bbbbbb"; "target"] 2
      = Returned (Some (w, (Z.of_nat k + 1)%Z)).
Proof.
  destruct (parallel_prefers_lowest_index truncating_checkpw "u" "ta"
              ["aaaaaa"; "tamper"; "bbbbbb"; "target"] 2 3%nat 1%nat
              "target" "tamper")
    as (k & w & H & _); [lia|lia|reflexivity|reflexivity|reflexivity
                        |reflexivity|].
  exists k, w. exact H.
Defined.

Example lowest_index_two_matches :
  crack_user_parallel truncating_checkpw [1]%nat "u" "ta"
    ["aaaaaa"; "tamper"; "bbbbbb"; "target"] 2
  = Returned (Some ("tamper", 2%Z)).
Proof. reflexivity. Qed.

(** ** Cost-factor grouper *)

Section Grouper.

Local Open Scope Z_scope.

Lemma add_to_group_lookup groups entry wf :
  add_to_group groups entry !! wf
  = if decide (wf = workfactor entry)
    then Some (default [] (groups !! wf) ++ [entry])
    else groups !! wf.
Proof.
  unfold add_to_group. cbn zeta.
  destruct (decide (wf = workfactor entry)) as [->|Hne].
  - rewrite lookup_alter_eq.
    destruct (decide (groups !! workfactor entry = None)) as [Hnone|Hsome].
    + by rewrite lookup_insert_eq, Hnone.
    + by destruct (groups !! workfactor entry).
  - rewrite lookup_alter_ne by done.
    destruct (decide (groups !! workfactor entry = None)); [|done].
    by rewrite lookup_insert_ne.
Qed.

Lemma foldl_add_to_group_lookup groups entries wf :
  foldl add_to_group groups entries !! wf
  = match filter (fun e => workfactor e = wf) entries with
    | [] => groups !! wf
    | es => Some (default [] (groups !! wf) ++ es)
    end.
Proof.
  revert groups. induction entries as [|e entries IH]; intros groups; [done|].
  cbn [foldl]. rewrite IH, add_to_group_lookup, filter_cons.
  destruct (decide (workfactor e = wf)) as [<-|Hne].
  - rewrite decide_True by done. simpl.
    destruct (filter _ entries); [done|]. by rewrite <- app_assoc.
  - by rewrite decide_False by done.
Qed.

(** The group of a cost factor is made of the entries that have it, in
    input order. *)
Lemma group_by_workfactor_lookup_total entries wf :
  group_by_workfactor entries !!! wf
  = filter (fun e => workfactor e = wf) entries.
Proof.
  unfold group_by_workfactor. rewrite lookup_total_alt.
  rewrite foldl_add_to_group_lookup, lookup_empty.
  by destruct (filter _ entries).
Qed.

Lemma group_by_workfactor_dom entries :
  dom (group_by_workfactor entries)
  = list_to_set (workfactor <$> entries).
Proof.
  apply set_eq. intros wf.
  rewrite elem_of_dom, elem_of_list_to_set, list_elem_of_fmap.
  unfold group_by_workfactor.
  rewrite foldl_add_to_group_lookup, lookup_empty.
  destruct (filter _ entries) as [|e es] eqn:E.
  - split; [by intros [? ?]|]. intros (e & -> & He).
    assert (e ∈ filter (fun e' => workfactor e' = workfactor e) entries)
      as Hin by by apply list_elem_of_filter.
    rewrite E in Hin. by apply elem_of_nil in Hin.
  - split; [|by eauto]. intros _. exists e.
    assert (e ∈ filter (fun e => workfactor e = wf) entries) as Hin
      by (rewrite E; left).
    apply list_elem_of_filter in Hin as [? ?]. by split.
Qed.

Lemma sorted_int_strict l :
  NoDup l -> StronglySorted Z.lt (sorted_int l).
Proof.
  intros Hnd. unfold sorted_int.
  pose proof (StronglySorted_merge_sort Z.le l) as Hs.
  assert (Hnd' : NoDup (merge_sort Z.le l))
    by by rewrite merge_sort_Permutation.
  induction Hs as [|x k Hs IH Hx]; constructor.
  - apply IH. by apply NoDup_cons in Hnd' as [_ ?].
  - apply NoDup_cons in Hnd' as [Hx' _].
    rewrite Forall_forall in Hx |- *. intros y Hy.
    specialize (Hx y Hy). assert (x <> y) by (intros ->; done). lia.
Qed.

Lemma sorted_keys_strict groups : StronglySorted Z.lt (sorted_keys groups).
Proof. apply sorted_int_strict, NoDup_elements. Qed.

Lemma elem_of_sorted_keys entries wf :
  wf ∈ sorted_keys (group_by_workfactor entries)
  <-> exists e, e ∈ entries /\ workfactor e = wf.
Proof.
  unfold sorted_keys, sorted_int. rewrite merge_sort_Permutation.
  rewrite elem_of_elements, group_by_workfactor_dom.
  rewrite elem_of_list_to_set, list_elem_of_fmap.
  split; intros (e & ? & ?); by exists e.
Qed.

(** The order of the keys does not depend on the order of the input. *)
Lemma sorted_keys_Permutation entries entries' :
  entries ≡ₚ entries' ->
  sorted_keys (group_by_workfactor entries)
  = sorted_keys (group_by_workfactor entries').
Proof.
  intros Hp. unfold sorted_keys. rewrite !group_by_workfactor_dom.
  f_equal. f_equal. apply set_eq. intros wf.
  by rewrite !elem_of_list_to_set, Hp.
Qed.

(** Taking the groups in the order of the keys goes through every entry
    once. *)
Lemma groups_cover (entries : list Entry) (keys : list Z) :
  NoDup keys -> (forall e, e ∈ entries -> workfactor e ∈ keys) ->
  (keys ≫= fun wf => filter (fun e => workfactor e = wf) entries)
  ≡ₚ entries.
Proof.
  intros Hnd. induction entries as [|e entries IH]; intros Hin.
  - clear. induction keys as [|k keys IH]; [done|]. by simpl.
  - transitivity
      (e :: (keys ≫= fun wf => filter (fun e => workfactor e = wf) entries));
      [|apply Permutation_skip, IH; intros e' He'; apply Hin; by right].
    assert (Hk : workfactor e ∈ keys) by (apply Hin; left).
    clear IH Hin. induction keys as [|k keys IH]; [by apply elem_of_nil in Hk|].
    apply NoDup_cons in Hnd as [Hk' Hnd]. cbn [mbind list_bind].
    rewrite filter_cons. destruct (decide (workfactor e = k)) as [<-|Hne].
    + simpl. apply Permutation_skip. f_equiv.
      clear IH Hk Hnd. induction keys as [|k keys IH]; [done|].
      cbn [mbind list_bind]. rewrite filter_cons.
      apply not_elem_of_cons in Hk' as [? ?].
      rewrite decide_False by done. f_equiv. by apply IH.
    + apply elem_of_cons in Hk as [?|Hk]; [done|].
      rewrite IH by done. by rewrite Permutation_middle.
Qed.

End Grouper.

(** ** Cracking orchestrators *)

Section OrchestratorFacts.

Local Open Scope Z_scope.

Context (checkpw : string -> string -> option bool) (cpu_count : Z).

Lemma expected_prescribed word_list (e : Entry) :
  prescribed checkpw word_list e (expected_result checkpw word_list (workfactor e) e).
Proof.
  unfold prescribed, expected_result, result_of.
  destruct (single_user_scan checkpw (full_hash e) 0 word_list)
    as [[w idx]|] eqn:E; simpl.
  - apply single_user_scan_Some in E as (k & -> & Hk & Hc & Hmin).
    split_and!; [done..|]. left. exists k, w. split_and!; (done || lia).
  - rewrite single_user_scan_None in E. split_and!; [done..|]. by right.
Qed.

(** *** The parallel orchestrator *)

Lemma crack_group_parallel_eq picks word_list N wf group results :
  1 <= N ->
  crack_group_parallel checkpw picks word_list N wf group results
  = Returned (results ++ (expected_result checkpw word_list wf <$> group)).
Proof.
  intros HN. revert results.
  induction group as [|e group IH]; intros results; simpl.
  - by rewrite app_nil_r.
  - rewrite crack_user_parallel_single by done. simpl.
    by rewrite IH, <- app_assoc.
Qed.

Lemma crack_groups_parallel_eq picks word_list N groups keys run :
  1 <= N ->
  crack_groups_parallel checkpw picks word_list N groups keys run
  = Returned
      {| log := log run ++
                  ((fun wf => {| header_workfactor := wf;
                                 header_users := length (groups !!! wf);
                                 header_cores := Some N |}) <$> keys);
         results := results run ++
                      (keys ≫= fun wf => expected_result checkpw word_list wf <$> groups !!! wf) |}.
Proof.
  intros HN. revert run.
  induction keys as [|wf keys IH]; intros [lg rs]; simpl.
  - by rewrite !app_nil_r.
  - rewrite crack_group_parallel_eq by done. simpl.
    rewrite IH. simpl. by rewrite <- !app_assoc.
Qed.

(** *** The sequential orchestrator *)

Lemma foldl_dict_del (d : list (string * Entry)) (ks : list string) :
  foldl (fun d user => dict_del user d) d ks
  = filter (fun kv => kv.1 ∉ ks) d.
Proof.
  revert d. induction ks as [|k ks IH]; intros d; simpl.
  - induction d as [|kv d IHd]; [done|].
    rewrite filter_cons_True by apply not_elem_of_nil. by f_equal.
  - rewrite IH. unfold dict_del. rewrite list_filter_filter.
    apply list_filter_iff. intros kv. rewrite not_elem_of_cons. tauto.
Qed.

Lemma users_dict_NoDup_eq (group : list Entry) :
  NoDup (user <$> group) ->
  users_dict group = (fun e => (user e, e)) <$> group.
Proof.
  unfold users_dict.
  assert (H : forall d,
    NoDup (d.*1 ++ (user <$> group)) ->
    foldl (fun d e => dict_set (user e) e d) d group
    = d ++ ((fun e => (user e, e)) <$> group)); [|by apply (H [])].
  induction group as [|e group IH]; intros d Hnd; simpl.
  - by rewrite app_nil_r.
  - unfold dict_set at 2. rewrite decide_False.
    + rewrite IH, <- app_assoc; [done|].
      rewrite fmap_app, <- app_assoc. done.
    + apply NoDup_app in Hnd as (_ & Hdis & _). intros Hin.
      apply (Hdis _ Hin). left.
Qed.

(** The keys of the users found by one word are the keys of no other
    user. *)
Lemma remaining_after_word (P : string * Entry -> Prop)
    `{!forall kv, Decision (P kv)} (d : list (string * Entry)) :
  NoDup d.*1 ->
  foldl (fun d user => dict_del user d) d (filter P d).*1
  = filter (fun kv => ~ P kv) d.
Proof.
  intros Hnd. rewrite foldl_dict_del. apply filter_iff_elem.
  intros kv Hkv. split.
  - intros Hn HP. apply Hn, list_elem_of_fmap. exists kv.
    split; [done|]. by apply list_elem_of_filter.
  - intros Hn (kv' & Heq & [HP Hin]%list_elem_of_filter)%list_elem_of_fmap.
    assert (kv' = kv) as <-; [|done].
    by apply (NoDup_fmap_elem_inj fst d).
Qed.


Lemma NoDup_keys_filter (P : string * Entry -> Prop)
    `{!forall kv, Decision (P kv)} (d : list (string * Entry)) :
  NoDup d.*1 -> NoDup (filter P d).*1.
Proof.
  intros Hnd. eapply sublist_NoDup; [exact Hnd|].
  apply fmap_sublist, sublist_filter.
Qed.

(** The loop over the words gives every user of [remaining] the result of
    the single-core scan of its own reference, in some order. *)
Lemma scan_words_perm wf total i word_list remaining results :
  NoDup remaining.*1 ->
  (scan_words checkpw wf i word_list remaining results).2
    ++ ((fun kv => result_of kv.1 wf total None)
          <$> (scan_words checkpw wf i word_list remaining results).1)
  ≡ₚ results
       ++ ((fun kv => result_of kv.1 wf total
                        (single_user_scan checkpw (full_hash kv.2) i word_list))
             <$> remaining).
Proof.
  revert i remaining results.
  induction word_list as [|word rest IH]; intros i remaining results Hnd.
  - done.
  - destruct remaining as [|kv0 d0] eqn:Hd; [done|]. rewrite <- Hd in *.
    assert (Hstep :
      scan_words checkpw wf i (word :: rest) remaining results
      = scan_words checkpw wf (i + 1) rest
          (filter (fun kv => ~ check_password_checkpw checkpw word
                               (full_hash kv.2) = true) remaining)
          (results ++
             ((fun kv => result_of kv.1 wf total (Some (word, i + 1)))
                <$> filter (fun kv => check_password_checkpw checkpw word
                                        (full_hash kv.2) = true) remaining))).
    { rewrite Hd at 1. cbn [scan_words]. rewrite <- Hd.
      by rewrite remaining_after_word. }
    rewrite Hstep, IH by by apply NoDup_keys_filter.
    rewrite <- app_assoc. f_equiv.
    rewrite <- (filter_app_complement
                  (fun kv => check_password_checkpw checkpw word
                               (full_hash kv.2) = true) remaining) at 3.
    rewrite fmap_app. f_equiv.
    + apply reflexive_eq, list_fmap_ext.
      intros ? kv Hkv%list_elem_of_lookup_2.
      apply list_elem_of_filter in Hkv as [Hc _]. simpl. by rewrite Hc.
    + apply reflexive_eq, list_fmap_ext.
      intros ? kv Hkv%list_elem_of_lookup_2.
      apply list_elem_of_filter in Hkv as [Hc _]. simpl.
      by destruct (check_password_checkpw checkpw word (full_hash kv.2)).
Qed.

Lemma crack_group_perm word_list wf group results :
  NoDup (user <$> group) ->
  crack_group checkpw word_list wf group results
  ≡ₚ results ++ (expected_result checkpw word_list wf <$> group).
Proof.
  intros Hnd. unfold crack_group.
  pose proof (scan_words_perm wf (Z.of_nat (length word_list)) 0 word_list
                (users_dict group) results) as H.
  destruct (scan_words _ _ _ _ _ _) as [remaining results'].
  simpl in H. unfold result_of in H at 1. rewrite H.
  - rewrite users_dict_NoDup_eq by done. by rewrite <- list_fmap_compose.
  - rewrite users_dict_NoDup_eq by done. by rewrite <- list_fmap_compose.
Qed.

Lemma crack_groups_log word_list groups keys run :
  log (crack_groups checkpw word_list groups keys run)
  = log run ++
      ((fun wf => {| header_workfactor := wf;
                     header_users := length (groups !!! wf);
                     header_cores := None |}) <$> keys).
Proof.
  revert run. induction keys as [|wf keys IH]; intros run; simpl.
  - by rewrite app_nil_r.
  - rewrite IH. simpl. by rewrite <- app_assoc.
Qed.

Lemma crack_groups_perm word_list groups keys run :
  (forall wf, wf ∈ keys -> NoDup (user <$> groups !!! wf)) ->
  results (crack_groups checkpw word_list groups keys run)
  ≡ₚ results run ++
       (keys ≫= fun wf => expected_result checkpw word_list wf <$> groups !!! wf).
Proof.
  revert run. induction keys as [|wf keys IH]; intros run Hnd; simpl.
  - by rewrite app_nil_r.
  - rewrite IH by (intros wf' ?; apply Hnd; by right). simpl.
    rewrite crack_group_perm by (apply Hnd; left). by rewrite <- app_assoc.
Qed.

(** The expected results of all groups are the expected results of all
    entries, each for its own cost factor. *)
Lemma expected_by_group word_list entries :
  (sorted_keys (group_by_workfactor entries) ≫= fun wf =>
     expected_result checkpw word_list wf <$> group_by_workfactor entries !!! wf)
  ≡ₚ (fun e => expected_result checkpw word_list (workfactor e) e) <$> entries.
Proof.
  transitivity
    ((fun e => expected_result checkpw word_list (workfactor e) e) <$>
       (sorted_keys (group_by_workfactor entries) ≫= fun wf =>
          filter (fun e => workfactor e = wf) entries)).
  - generalize (sorted_keys (group_by_workfactor entries)). intros keys.
    induction keys as [|wf keys IH]; [done|].
    cbn [mbind list_bind]. rewrite fmap_app, IH. f_equiv.
    rewrite group_by_workfactor_lookup_total.
    apply reflexive_eq, list_fmap_ext.
    intros ? e He%list_elem_of_lookup_2.
    apply list_elem_of_filter in He as [<- _]. done.
  - f_equiv. apply groups_cover.
    + unfold sorted_keys, sorted_int. rewrite merge_sort_Permutation.
      apply NoDup_elements.
    + intros e He. apply elem_of_sorted_keys. by exists e.
Qed.

Lemma NoDup_group_users entries wf :
  NoDup (user <$> entries) ->
  NoDup (user <$> group_by_workfactor entries !!! wf).
Proof.
  rewrite group_by_workfactor_lookup_total.
  intros Hnd. eapply sublist_NoDup; [exact Hnd|].
  apply fmap_sublist, sublist_filter.
Qed.


(** *** The results come group after group *)

Lemma scan_words_extra wf i word_list remaining results :
  exists extra,
    (scan_words checkpw wf i word_list remaining results).2
    = results ++ extra
    /\ Forall (fun r => Result.workfactor r = wf) extra.
Proof.
  revert i remaining results.
  induction word_list as [|word rest IH]; intros i remaining results.
  - exists []. simpl. by rewrite app_nil_r.
  - destruct remaining as [|kv0 d0].
    + exists []. simpl. by rewrite app_nil_r.
    + cbn [scan_words]. edestruct IH as (extra & -> & Hextra).
      rewrite <- app_assoc. eexists. split; [done|].
      apply Forall_app. split; [|done].
      apply Forall_fmap, Forall_forall. by intros kv _.
Qed.

Lemma crack_group_grouped word_list wf group results :
  exists extra,
    crack_group checkpw word_list wf group results = results ++ extra
    /\ Forall (fun r => Result.workfactor r = wf) extra.
Proof.
  unfold crack_group.
  destruct (scan_words_extra wf 0 word_list (users_dict group) results)
    as (extra & Heq & Hextra).
  destruct (scan_words checkpw wf 0 word_list (users_dict group) results)
    as [remaining results'].
  simpl in Heq. subst results'. rewrite <- app_assoc.
  eexists. split; [done|]. apply Forall_app. split; [done|].
  apply Forall_fmap, Forall_forall. by intros kv _.
Qed.

(** Results appended for strictly ascending keys, each group carrying its
    own key, are in ascending order of cost factor. *)
Lemma grouped_sorted (keys : list Z) (groups : list (list Result.t)) :
  StronglySorted Z.lt keys ->
  Forall2 (fun wf g => Forall (fun r => Result.workfactor r = wf) g)
    keys groups ->
  StronglySorted Z.le (Result.workfactor <$> concat groups)
  /\ Forall (fun r => Result.workfactor r ∈ keys) (concat groups).
Proof.
  intros Hs H2. induction H2 as [|wf g keys groups Hg H2 IH]; csimpl.
  - split; constructor.
  - apply StronglySorted_inv in Hs as [Hs Hlt].
    destruct (IH Hs) as [IHs IHin]. split.
    + rewrite fmap_app. apply StronglySorted_app_2.
      * intros x1 x2 (r1 & -> & Hr1)%list_elem_of_fmap
                     (r2 & -> & Hr2)%list_elem_of_fmap.
        pose proof (proj1 (Forall_forall _ _) Hg r1 Hr1) as ->.
        pose proof (proj1 (Forall_forall _ _) IHin r2 Hr2) as Hin.
        pose proof (proj1 (Forall_forall _ _) Hlt _ Hin). lia.
      * clear -Hg. induction Hg as [|r g Hr Hg IH]; csimpl; constructor.
        -- done.
        -- rewrite Forall_fmap. eapply Forall_impl; [exact Hg|].
           simpl. intros r' ->. lia.
      * done.
    + apply Forall_app. split.
      * eapply Forall_impl; [exact Hg|]. simpl. intros r ->. left.
      * eapply Forall_impl; [exact IHin|]. simpl. intros r ?. by right.
Qed.

Lemma crack_groups_grouped word_list groups keys run :
  exists parts,
    results (crack_groups checkpw word_list groups keys run)
    = results run ++ concat parts
    /\ Forall2 (fun wf g => Forall (fun r => Result.workfactor r = wf) g)
         keys parts.
Proof.
  revert run. induction keys as [|wf keys IH]; intros run; simpl.
  - exists []. split; [by rewrite app_nil_r|constructor].
  - edestruct IH as (parts & -> & Hparts). simpl.
    destruct (crack_group_grouped word_list wf (groups !!! wf) (results run))
      as (extra & -> & Hextra).
    exists (extra :: parts). split; [by rewrite <- app_assoc|].
    by constructor.
Qed.

Lemma expected_grouped word_list (groups : gmap Z (list Entry)) keys :
  Forall2 (fun wf g => Forall (fun r => Result.workfactor r = wf) g)
    keys ((fun wf => expected_result checkpw word_list wf <$> groups !!! wf) <$> keys).
Proof.
  induction keys as [|wf keys IH]; constructor; [|done].
  apply Forall_fmap, Forall_forall. intros e _. simpl.
  unfold expected_result, result_of.
  by destruct (single_user_scan _ _ _ _) as [[? ?]|].
Qed.

End OrchestratorFacts.

Section OrchestratorClaims.

Local Open Scope Z_scope.

Context (checkpw : string -> string -> option bool) (cpu_count : Z).

(** C5: for every batch of records, corpus and worker count N >= 1, the
    parallel orchestrator returns normally and its results are, in some
    order, one CrackResult per record, each as prescribed: when some word
    verifies against the record's reference, the password is the first such
    word and the attempts are its 1-based position in the corpus; when none
    does, there is no password and the attempts are the length of the
    corpus. The same holds of the sequential orchestrator when the user
    names of the batch are distinct. *)
Theorem crack_results_as_prescribed (picks : string -> list nat)
    (entries : list Entry) (word_list : list string)
    (num_processes : option Z)
    (HN : 1 <= default cpu_count num_processes) :
  (exists run rs,
     crack_by_workfactor_group_parallel checkpw cpu_count picks entries
       word_list num_processes = Returned run
     /\ results run ≡ₚ rs
     /\ Forall2 (prescribed checkpw word_list) entries rs)
  /\ (NoDup (user <$> entries) ->
      exists rs,
        results (crack_by_workfactor_group checkpw entries word_list) ≡ₚ rs
        /\ Forall2 (prescribed checkpw word_list) entries rs).
Proof.
  assert (Hpre : Forall2 (prescribed checkpw word_list) entries
            ((fun e => expected_result checkpw word_list (workfactor e) e)
               <$> entries)).
  { apply Forall2_fmap_r, Forall_Forall2_diag, Forall_forall.
    intros e _. apply expected_prescribed. }
  split.
  - unfold crack_by_workfactor_group_parallel.
    rewrite crack_groups_parallel_eq by done. simpl.
    eexists _, _. split; [done|]. split; [|exact Hpre]. simpl.
    apply expected_by_group.
  - intros Hnd. eexists. split; [|exact Hpre].
    unfold crack_by_workfactor_group.
    rewrite crack_groups_perm by (intros wf _; by apply NoDup_group_users).
    simpl. apply expected_by_group.
Qed.

(** C6: for every batch of records, both orchestrators start the groups in
    strictly ascending order of cost factor, one group for each cost factor
    that occurs in the batch; this order is the same for every reordering
    of the batch, and the results are appended in it. The parallel
    orchestrator is run with N >= 1 workers. *)
Theorem groups_in_ascending_cost_order (picks : string -> list nat)
    (entries : list Entry) (word_list : list string)
    (num_processes : option Z)
    (HN : 1 <= default cpu_count num_processes) :
  let run := crack_by_workfactor_group checkpw entries word_list in
  let order := header_workfactor <$> log run in
  StronglySorted Z.lt order
  /\ (forall wf, wf ∈ order <-> exists e, e ∈ entries /\ workfactor e = wf)
  /\ (forall entries', entries' ≡ₚ entries ->
        header_workfactor
          <$> log (crack_by_workfactor_group checkpw entries' word_list)
        = order)
  /\ StronglySorted Z.le (Result.workfactor <$> results run)
  /\ exists run_par,
       crack_by_workfactor_group_parallel checkpw cpu_count picks entries
         word_list num_processes = Returned run_par
       /\ header_workfactor <$> log run_par = order
       /\ StronglySorted Z.le (Result.workfactor <$> results run_par).
Proof.
  intros run order.
  assert (Horder : forall es,
    header_workfactor <$> log (crack_by_workfactor_group checkpw es word_list)
    = sorted_keys (group_by_workfactor es)).
  { intros es. unfold crack_by_workfactor_group.
    rewrite crack_groups_log. simpl. rewrite <- list_fmap_compose.
    apply list_fmap_id. }
  unfold order, run. rewrite Horder. split_and!.
  - apply sorted_keys_strict.
  - apply elem_of_sorted_keys.
  - intros entries' Hp. rewrite Horder. by apply sorted_keys_Permutation.
  - unfold crack_by_workfactor_group.
    destruct (crack_groups_grouped checkpw word_list
                (group_by_workfactor entries)
                (sorted_keys (group_by_workfactor entries))
                {| log := []; results := [] |}) as (parts & -> & Hparts).
    simpl. by apply (grouped_sorted (sorted_keys (group_by_workfactor entries)));
      [apply sorted_keys_strict|].
  - unfold crack_by_workfactor_group_parallel.
    rewrite crack_groups_parallel_eq by done. eexists. split; [done|].
    simpl. split.
    + rewrite <- list_fmap_compose. apply list_fmap_id.
    + pose proof (expected_grouped checkpw word_list
                    (group_by_workfactor entries)
                    (sorted_keys (group_by_workfactor entries))) as Hparts.
      apply grouped_sorted in Hparts as [Hs _]; [|apply sorted_keys_strict].
      by rewrite concat_fmap_bind in Hs.
Qed.

End OrchestratorClaims.

Lemma crack_results_as_prescribed_witness :
  (1 <= default 4 (Some 2))%Z
  /\ NoDup (user <$> sample_entries)
  /\ (exists run rs,
        crack_by_workfactor_group_parallel truncating_checkpw 4
          (fun _ => [1%nat]) sample_entries sample_words (Some 2%Z)
        = Returned run
        /\ results run ≡ₚ rs
        /\ Forall2 (prescribed truncating_checkpw sample_words)
             sample_entries rs)
  /\ exists rs,
       results (crack_by_workfactor_group truncating_checkpw sample_entries
                  sample_words) ≡ₚ rs
       /\ Forall2 (prescribed truncating_checkpw sample_words)
            sample_entries rs.
Proof.
  assert (H1 : (1 <= default 4 (Some 2))%Z) by (simpl; lia).
  assert (H2 : NoDup (user <$> sample_entries))
    by (apply (bool_decide_unpack _); vm_compute; exact I).
  destruct (crack_results_as_prescribed truncating_checkpw 4
              (fun _ => [1%nat]) sample_entries sample_words (Some 2%Z) H1)
    as [Hpar Hseq].
  split; [exact H1|]. split; [exact H2|]. split; [exact Hpar|].
  exact (Hseq H2).
Defined.

Lemma groups_in_ascending_cost_order_witness :
  (1 <= default 4 (Some 2))%Z
  /\ StronglySorted Z.lt
       (header_workfactor
          <$> log (crack_by_workfactor_group truncating_checkpw
                     sample_entries sample_words)).
Proof.
  assert (H1 : (1 <= default 4 (Some 2))%Z) by (simpl; lia).
  split; [exact H1|].
  apply (groups_in_ascending_cost_order truncating_checkpw 4
           (fun _ => [1%nat]) sample_entries sample_words (Some 2%Z) H1).
Defined.

Example sample_run_sequential :
  crack_by_workfactor_group truncating_checkpw sample_entries sample_words
  = {| log := [ {| header_workfactor := 8; header_users := 1;
                   header_cores := None |};
                {| header_workfactor := 9; header_users := 1;
                   header_cores := None |};
                {| header_workfactor := 10; header_users := 2;
                   header_cores := None |} ];
       results :=
         [ {| Result.user := "Bilbo"; Result.password := None;
              Result.attempts := 4; Result.workfactor := 8 |};
           {| Result.user := "Kili"; Result.password := Some "aaaaaa";
              Result.attempts := 1; Result.workfactor := 9 |};
           {| Result.user := "Oin"; Result.password := Some "bbbbbb";
              Result.attempts := 2; Result.workfactor := 10 |};
           {| Result.user := "Balin"; Result.password := Some "tamper";
              Result.attempts := 3; Result.workfactor := 10 |} ] |}.
Proof. vm_compute. reflexivity. Qed.

Example sample_run_parallel :
  results <$> crack_by_workfactor_group_parallel truncating_checkpw 4
                (fun _ => [1%nat]) sample_entries sample_words (Some 3%Z)
  = Returned
      [ {| Result.user := "Bilbo"; Result.password := None;
           Result.attempts := 4; Result.workfactor := 8 |};
        {| Result.user := "Kili"; Result.password := Some "aaaaaa";
           Result.attempts := 1; Result.workfactor := 9 |};
        {| Result.user := "Balin"; Result.password := Some "tamper";
           Result.attempts := 3; Result.workfactor := 10 |};
        {| Result.user := "Oin"; Result.password := Some "bbbbbb";
           Result.attempts := 2; Result.workfactor := 10 |} ].
Proof. vm_compute. reflexivity. Qed.

(** ** Word corpus provider, on words of code points below 256 *)

Section Corpus.

Local Open Scope Z_scope.

Lemma lower_length w : String.length (Py.lower w) = String.length w.
Proof. induction w as [|c w IH]; simpl; by f_equal. Qed.

Lemma sorted_str_sorted l : StronglySorted String.le (sorted_str l).
Proof. apply (StronglySorted_merge_sort String.le). Qed.

Lemma sorted_str_Permutation l : sorted_str l ≡ₚ l.
Proof. apply merge_sort_Permutation. Qed.

Lemma elem_of_filtered_set (word_list : list string) min_length max_length w :
  w ∈ elements
        (list_to_set
           (Py.lower <$>
              filter (fun w => min_length <= Z.of_nat (String.length w)
                               <= max_length) word_list) : gset string)
  <-> exists x, x ∈ word_list
                /\ min_length <= Z.of_nat (String.length x) <= max_length
                /\ w = Py.lower x.
Proof.
  rewrite elem_of_elements, elem_of_list_to_set, list_elem_of_fmap.
  split.
  - intros (x & -> & [Hlen Hx]%list_elem_of_filter). by exists x.
  - intros (x & Hx & Hlen & ->). exists x. split; [done|].
    by apply list_elem_of_filter.
Qed.

Lemma elem_of_get_nltk_words word_list min_length max_length w :
  w ∈ get_nltk_words word_list min_length max_length <->
  exists x, x ∈ word_list
            /\ min_length <= Z.of_nat (String.length x) <= max_length
            /\ w = Py.lower x.
Proof.
  unfold get_nltk_words. rewrite sorted_str_Permutation.
  apply elem_of_filtered_set.
Qed.

End Corpus.

(** ** The word corpus on words of any script *)

Section UnicodeOrder.

Local Open Scope N_scope.

Lemma uni_leb_cons a u b v :
  Uni.leb (a :: u) (b :: v) = true <-> a < b \/ (a = b /\ Uni.leb u v = true).
Proof.
  cbn [Uni.leb]. destruct (N.ltb_spec a b); [by split; [left|]|].
  destruct (N.eqb_spec a b); split; try done.
  - intros ?. by right.
  - intros [?|[_ ?]]; [lia|done].
  - intros [?|[? _]]; [lia|done].
Qed.

Lemma uni_leb_total u v : Uni.leb u v = true \/ Uni.leb v u = true.
Proof.
  revert v. induction u as [|a u IH]; intros [|b v];
    [by left|by left|by right|].
  rewrite !uni_leb_cons. destruct (N.lt_trichotomy a b) as [?|[->|?]];
    [by left; left| |by right; left].
  destruct (IH v); [left|right]; by right.
Qed.

Lemma uni_leb_trans u v w :
  Uni.leb u v = true -> Uni.leb v w = true -> Uni.leb u w = true.
Proof.
  revert v w. induction u as [|a u IH]; intros [|b v] [|c w]; try done.
  rewrite !uni_leb_cons. intros [?|[-> Huv]] [?|[-> Hvw]].
  - left. lia.
  - by left.
  - by left.
  - right. split; [done|]. by apply (IH v).
Qed.

Lemma uni_leb_antisym u v :
  Uni.leb u v = true -> Uni.leb v u = true -> u = v.
Proof.
  revert v. induction u as [|a u IH]; intros [|b v]; try done.
  rewrite !uni_leb_cons. intros [?|[? Huv]] [?|[? Hvu]]; try lia.
  subst. f_equal. by apply IH.
Qed.

#[local] Instance uni_le_total : Total Uni.le.
Proof. intros u v. apply uni_leb_total. Qed.

#[local] Instance uni_le_trans : Transitive Uni.le.
Proof. intros u v w. apply uni_leb_trans. Qed.

#[local] Instance uni_le_antisym : AntiSymm (=) Uni.le.
Proof. intros u v. apply uni_leb_antisym. Qed.

Lemma uni_sorted_str_sorted l : StronglySorted Uni.le (Uni.sorted_str l).
Proof. apply (StronglySorted_merge_sort Uni.le). Qed.

Lemma uni_sorted_str_Permutation l : Uni.sorted_str l ≡ₚ l.
Proof. apply merge_sort_Permutation. Qed.

(** A strictly ascending list is determined by its elements. *)
Lemma uni_sorted_unique (l1 l2 : list Uni.str) :
  StronglySorted Uni.le l1 -> StronglySorted Uni.le l2 ->
  NoDup l1 -> NoDup l2 -> (forall w, w ∈ l1 <-> w ∈ l2) -> l1 = l2.
Proof.
  intros H1 H2 Hn1 Hn2 Hel. apply (StronglySorted_unique Uni.le); [done..|].
  by apply NoDup_Permutation.
Qed.

Lemma uni_sorted_filter (P : Uni.str -> Prop) `{!forall w, Decision (P w)}
    (l : list Uni.str) :
  StronglySorted Uni.le l -> StronglySorted Uni.le (filter P l).
Proof.
  induction 1 as [|x l Hs IH Hx]; [constructor|].
  rewrite filter_cons. destruct (decide (P x)); [|done].
  constructor; [done|]. apply Forall_forall.
  intros y [_ Hy]%list_elem_of_filter.
  by apply (proj1 (Forall_forall _ _) Hx).
Qed.

End UnicodeOrder.

(** *** The lower-case mapping *)

Section UnicodeLower.

Local Open Scope N_scope.

Implicit Types (c x : N) (row : N * N * N * N).




















(** Lower-casing keeps the length of a word, but for the capital I with
    dot above, which counts twice. *)
Lemma do_lower_length before (s : list N) :
  length (Uni.do_lower before s)
  = (length s + length (filter (fun c => c = 304%N) s))%nat.
Proof.
  revert before. induction s as [|c s IH]; intros before; [done|].
  cbn [Uni.do_lower]. rewrite length_app, IH, filter_cons.
  unfold Uni.lower_ucs4, Uni.to_lower_full.
  destruct (N.eqb_spec c 931) as [->|].
  - rewrite decide_False by done. cbn [length]. lia.
  - destruct (N.eqb_spec c 304) as [->|].
    + rewrite decide_True by done. cbn [length]. lia.
    + rewrite decide_False by done. cbn [length]. lia.
Qed.

Lemma of_string_length s : length (Uni.of_string s) = String.length s.
Proof. induction s as [|c s IH]; simpl; by f_equal. Qed.

Lemma of_string_inj s t : Uni.of_string s = Uni.of_string t -> s = t.
Proof.
  revert t. induction s as [|c s IH]; intros [|d t]; try done.
  cbn [Uni.of_string]. intros [= Hc Hs]. f_equal; [|by apply IH].
  unfold Py.ord in Hc. by rewrite <- (ascii_N_embedding c), Hc, ascii_N_embedding.
Qed.

Lemma lower_ucs4_latin1 before (c : ascii) after :
  Uni.lower_ucs4 before (Py.ord c) after = [Py.ord (Py.lower_char c)].
Proof. by destruct c as [[] [] [] [] [] [] [] []]; vm_compute. Qed.

(** On strings of code points below 256 the two models of [lower]
    agree. *)
Lemma lower_of_string s :
  Uni.lower (Uni.of_string s) = Uni.of_string (Py.lower s).
Proof.
  unfold Uni.lower. generalize (@nil N).
  induction s as [|c s IH]; intros before; [done|].
  cbn [Uni.of_string Uni.do_lower Py.lower].
  by rewrite lower_ucs4_latin1, IH.
Qed.

Lemma leb_of_string s t :
  Uni.leb (Uni.of_string s) (Uni.of_string t) = String.leb s t.
Proof.
  unfold String.leb. revert t. induction s as [|c s IH]; intros [|d t];
    try done.
  cbn [Uni.of_string Uni.leb String.compare]. unfold Ascii.compare, Py.ord.
  specialize (IH t).
  destruct (N.compare_spec (N_of_ascii c) (N_of_ascii d)) as [->|Hlt|Hgt].
  - by rewrite N.ltb_irrefl, N.eqb_refl.
  - by destruct (N.ltb_spec (N_of_ascii c) (N_of_ascii d)); [|lia].
  - destruct (N.ltb_spec (N_of_ascii c) (N_of_ascii d)); [lia|].
    by destruct (N.eqb_spec (N_of_ascii c) (N_of_ascii d)); [lia|].
Qed.

End UnicodeLower.

Example lower_final_sigma :
  Uni.lower [927; 916; 927; 931]%N = [959; 948; 959; 962]%N
  /\ Uni.lower [931; 913; 931]%N = [963; 945; 962]%N.
Proof. split; vm_compute; reflexivity. Qed.

Example lower_Istanbul : Uni.lower word_Istanbul = word_istanbul.
Proof. vm_compute. reflexivity. Qed.

(** *** The corpus *)

Section UnicodeCorpus.

Local Open Scope Z_scope.

#[local] Existing Instances uni_le_total uni_le_trans uni_le_antisym.

Lemma uni_elem_of_get_nltk_words (word_list : list Uni.str)
    min_length max_length (w : Uni.str) :
  w ∈ Uni.get_nltk_words word_list min_length max_length <->
  exists x, x ∈ word_list
            /\ min_length <= Z.of_nat (length x) <= max_length
            /\ w = Uni.lower x.
Proof.
  unfold Uni.get_nltk_words. rewrite uni_sorted_str_Permutation.
  rewrite elem_of_elements, elem_of_list_to_set, list_elem_of_fmap.
  split.
  - intros (x & -> & [Hlen Hx]%list_elem_of_filter). by exists x.
  - intros (x & Hx & Hlen & ->). exists x. split; [done|].
    by apply list_elem_of_filter.
Qed.

Lemma uni_get_nltk_words_NoDup word_list min_length max_length :
  NoDup (Uni.get_nltk_words word_list min_length max_length).
Proof.
  unfold Uni.get_nltk_words. rewrite uni_sorted_str_Permutation.
  apply NoDup_elements.
Qed.

Lemma uni_get_nltk_words_sorted word_list min_length max_length :
  StronglySorted Uni.le (Uni.get_nltk_words word_list min_length max_length).
Proof. apply uni_sorted_str_sorted. Qed.

Lemma uni_lower_length (x : Uni.str) :
  length (Uni.lower x)
  = (length x + length (filter (fun c => c = 304%N) x))%nat.
Proof. apply do_lower_length. Qed.




(** X6: narrowing the bounds gives a part of the corpus: the corpus for
    bounds inside wider ones is a sublist of the corpus of the wider
    bounds; it is the corpus of the wider bounds without the words whose
    length is outside the narrower bounds when no source word holds the
    capital I with dot above; and with [min_length > max_length] the corpus
    is empty. *)
Theorem narrower_bounds_give_subcorpus (word_list : list Uni.str)
    (lo hi lo' hi' : Z) (Hlo : lo' <= lo) (Hhi : hi <= hi') :
  Uni.get_nltk_words word_list lo hi
  `sublist_of` Uni.get_nltk_words word_list lo' hi'
  /\ ((forall x, x ∈ word_list -> 304%N ∉ x) ->
      Uni.get_nltk_words word_list lo hi
      = filter (fun w => lo <= Z.of_nat (length w) <= hi)
          (Uni.get_nltk_words word_list lo' hi'))
  /\ (hi < lo -> Uni.get_nltk_words word_list lo hi = []).
Proof.
  split_and!.
  - assert (Uni.get_nltk_words word_list lo hi
            = filter (fun w => w ∈ Uni.get_nltk_words word_list lo hi)
                (Uni.get_nltk_words word_list lo' hi')) as ->;
      [|apply sublist_filter].
    apply uni_sorted_unique.
    + apply uni_get_nltk_words_sorted.
    + apply uni_sorted_filter, uni_get_nltk_words_sorted.
    + apply uni_get_nltk_words_NoDup.
    + apply NoDup_filter, uni_get_nltk_words_NoDup.
    + intros w. rewrite list_elem_of_filter. split; [|by intros [? _]].
      intros Hw. split; [done|].
      apply uni_elem_of_get_nltk_words in Hw as (x & Hx & Hlen & ->).
      apply uni_elem_of_get_nltk_words. exists x. split_and!; (done || lia).
  - intros Hno. apply uni_sorted_unique.
    + apply uni_get_nltk_words_sorted.
    + apply uni_sorted_filter, uni_get_nltk_words_sorted.
    + apply uni_get_nltk_words_NoDup.
    + apply NoDup_filter, uni_get_nltk_words_NoDup.
    + assert (Hlen : forall x, x ∈ word_list ->
                length (Uni.lower x) = length x).
      { intros x Hx. rewrite uni_lower_length.
        assert (filter (fun c => c = 304%N) x = []) as ->; [|simpl; lia].
        destruct (filter (fun c => c = 304%N) x) as [|c l] eqn:E; [done|].
        assert (c ∈ filter (fun c => c = 304%N) x) as Hc
          by (rewrite E; left).
        apply list_elem_of_filter in Hc as [-> Hc]. by destruct (Hno x Hx). }
      intros w. rewrite list_elem_of_filter, !uni_elem_of_get_nltk_words.
      split.
      * intros (x & Hx & Hl & ->). rewrite (Hlen x Hx).
        split; [done|]. exists x. split_and!; (done || lia).
      * intros (Hl & x & Hx & _ & ->). rewrite (Hlen x Hx) in Hl.
        by exists x.
  - intros Hempty.
    destruct (Uni.get_nltk_words word_list lo hi) as [|w l] eqn:E; [done|].
    assert (Hw : w ∈ Uni.get_nltk_words word_list lo hi)
      by (rewrite E; left).
    apply uni_elem_of_get_nltk_words in Hw as (x & _ & Hlen & _). lia.
Qed.

(** On words of code points below 256 the corpus is the one the crackers
    are given. *)
Lemma get_nltk_words_of_string (word_list : list string)
    (min_length max_length : Z) :
  Uni.get_nltk_words (Uni.of_string <$> word_list) min_length max_length
  = Uni.of_string <$> get_nltk_words word_list min_length max_length.
Proof.
  apply uni_sorted_unique.
  - apply uni_get_nltk_words_sorted.
  - apply (StronglySorted_fmap Uni.of_string String.le);
      [|apply sorted_str_sorted].
    intros s t Hst. unfold Uni.le. rewrite leb_of_string.
    by apply Is_true_true.
  - apply uni_get_nltk_words_NoDup.
  - apply NoDup_fmap_2; [intros s t; apply of_string_inj|].
    unfold get_nltk_words. rewrite sorted_str_Permutation.
    apply NoDup_elements.
  - intros w. rewrite uni_elem_of_get_nltk_words, list_elem_of_fmap.
    split.
    + intros (x & (s & -> & Hs)%list_elem_of_fmap & Hlen & ->).
      exists (Py.lower s). split; [by rewrite lower_of_string|].
      apply elem_of_get_nltk_words. exists s.
      by rewrite of_string_length in Hlen.
    + intros (t & -> & (s & Hs & Hlen & ->)%elem_of_get_nltk_words).
      exists (Uni.of_string s). split; [by apply list_elem_of_fmap_2|].
      by rewrite of_string_length, lower_of_string.
Qed.

End UnicodeCorpus.

Lemma narrower_bounds_give_subcorpus_witness :
  (3 <= 8)%Z /\ (8 <= 9)%Z
  /\ Uni.get_nltk_words [word_Istanbul; word_istanbul; [65; 66; 67]%N] 8 8
     `sublist_of`
     Uni.get_nltk_words [word_Istanbul; word_istanbul; [65; 66; 67]%N] 3 9.
Proof.
  split; [lia|]. split; [lia|].
  apply (narrower_bounds_give_subcorpus _ 8 8 3 9); lia.
Defined.
(** ** Credential record parser *)

Section Parser.

(** What an accepted line looks like. *)
Lemma parse_shadow_entry_accepts line e :
  parse_shadow_entry line = Returned (Some e) ->
  exists u fh p0 p1 p2 p3 more,
    Py.split ":" (Py.strip line) = [u; fh]
    /\ Py.split "$" fh = p0 :: p1 :: p2 :: p3 :: more
    /\ Py.int p2 = Some (workfactor e)
    /\ user e = u /\ full_hash e = fh /\ algorithm e = p1
    /\ salt e = Py.take 22 p3 /\ hash e = Py.drop 22 p3
    /\ bcrypt_salt e
       = "$" +:+ p1 +:+ "$" +:+ p2 +:+ "$" +:+ Py.take 22 p3.
Proof.
  unfold parse_shadow_entry.
  destruct (Py.strip line) as [|c0 s0] eqn:Es; [done|].
  destruct (Py.split ":" (String c0 s0)) as [|u [|fh [|? ?]]] eqn:Ec;
    try done.
  destruct (Py.split "$" fh) as [|p0 [|p1 [|p2 [|p3 more]]]] eqn:Ed;
    try done.
  cbn [length Nat.ltb Nat.leb nth].
  destruct (Py.int p2) as [wf|] eqn:Ei; [|done].
  intros [= <-]. by exists u, fh, p0, p1, p2, p3, more.
Qed.

(** What a rejected or raising line looks like: the parser returns a
    record exactly when the stripped line has one colon, the hash field
    at least three dollars and a cost field that [int] accepts. *)
Lemma parse_shadow_entry_rejects line :
  Py.count ":" line <> 1 -> parse_shadow_entry line = Returned None.
Proof.
  intros Hc. unfold parse_shadow_entry.
  destruct (Py.strip line) as [|c0 s0] eqn:Es; [done|].
  pose proof (split_length ":" (String c0 s0)) as Hlen.
  rewrite <- Es, count_strip, Es in Hlen by done.
  destruct (Py.split ":" (String c0 s0)) as [|u [|fh [|? ?]]]; try done.
  simpl in Hlen. lia.
Qed.

Lemma parse_shadow_entry_few_segments line u fh :
  Py.strip line = u +:+ ":" +:+ fh -> Py.count "$" fh < 3 ->
  parse_shadow_entry line = Returned None.
Proof.
  intros Hs Hd.
  destruct (decide (Py.count ":" line = 1)) as [Hc|Hc];
    [|by apply parse_shadow_entry_rejects].
  unfold parse_shadow_entry.
  destruct (Py.strip line) as [|c0 s0] eqn:Es; [done|].
  rewrite <- (count_strip ":" line), Es, Hs in Hc by done.
  change (u +:+ ":" +:+ fh) with (u +:+ String ":" fh) in *.
  rewrite str_count_app in Hc. simpl in Hc.
  rewrite Hs, split_app by lia. rewrite split_nosep by lia.
  pose proof (split_length "$" fh) as Hlen.
  destruct (length (Py.split "$" fh) <? 4)%nat eqn:E; [done|].
  apply Nat.ltb_ge in E. lia.
Qed.

Lemma parse_lines_skip entries line rest :
  parse_shadow_entry line = Returned None ->
  parse_lines entries (line :: rest) = parse_lines entries rest.
Proof. intros H. simpl. by rewrite H. Qed.

Lemma parse_lines_skip_middle entries before line after :
  parse_shadow_entry line = Returned None ->
  parse_lines entries (before ++ line :: after)
  = parse_lines entries (before ++ after).
Proof.
  intros H. revert entries.
  induction before as [|l before IH]; intros entries.
  - by apply parse_lines_skip.
  - simpl. destruct (parse_shadow_entry l) as [[e|]|]; simpl; by rewrite ?IH.
Qed.

End Parser.

Section ParserClaims.

(** C4, as stated, fails: a line whose salt+hash field is shorter than 22
    characters is accepted, so is a line whose cost is zero or negative,
    and a cost that is not an integer raises [ValueError], which ends the
    parsing of the whole batch. *)
Lemma malformed_cost_or_salt_not_rejected :
  (exists e, parse_shadow_entry line_short_salt = Returned (Some e)
             /\ salt e = "short" /\ hash e = "")
  /\ (exists e, parse_shadow_entry line_cost_zero = Returned (Some e)
                /\ workfactor e = 0%Z)
  /\ (exists e, parse_shadow_entry line_cost_negative = Returned (Some e)
                /\ workfactor e = (-5)%Z)
  /\ parse_shadow_entry line_cost_text = Raised ValueError
  /\ parse_shadow_file None
       (Some (line_cost_text +:+ String "010" line_Bilbo))
     = Raised ValueError
  /\ parse_shadow_file (Some [line_cost_text; line_Bilbo]) None
     = Raised ValueError.
Proof.
  split_and!; try (eexists; split_and!; reflexivity); reflexivity.
Qed.

(** C4, amended: every input line that lacks exactly one ':' separator, or
    whose hash field (the text after the ':' of the stripped line) has
    fewer than 4 '$'-delimited segments, that is fewer than 3 '$', is
    rejected by the parser, which returns no record and raises nothing; the
    line is skipped, and the batch parses as it does without the line. *)
Theorem malformed_lines_skipped (line : string)
    (H : Py.count ":" line <> 1
         \/ exists u fh, Py.strip line = u +:+ ":" +:+ fh
                         /\ Py.count "$" fh < 3) :
  parse_shadow_entry line = Returned None
  /\ (forall entries before after,
        parse_lines entries (before ++ line :: after)
        = parse_lines entries (before ++ after))
  /\ forall before after,
       parse_shadow_file (Some (before ++ line :: after)) None
       = parse_shadow_file (Some (before ++ after)) None.
Proof.
  assert (Hnone : parse_shadow_entry line = Returned None).
  { destruct H as [Hc|(u & fh & Hs & Hd)].
    - by apply parse_shadow_entry_rejects.
    - by apply (parse_shadow_entry_few_segments line u fh). }
  split_and!; [done|..].
  - intros. by apply parse_lines_skip_middle.
  - intros. simpl. by apply parse_lines_skip_middle.
Qed.

End ParserClaims.

Lemma malformed_lines_skipped_witness :
  Py.count ":" "bob-no-colon-hash" <> 1
  /\ parse_shadow_entry "bob-no-colon-hash" = Returned None
  /\ parse_shadow_file (Some [line_Bilbo; "bob-no-colon-hash"; line_cost_zero])
       None
     = parse_shadow_file (Some [line_Bilbo; line_cost_zero]) None.
Proof.
  assert (H : Py.count ":" "bob-no-colon-hash" <> 1) by (vm_compute; lia).
  destruct (malformed_lines_skipped "bob-no-colon-hash" (or_introl H))
    as (H1 & _ & H3).
  split; [exact H|]. split; [exact H1|].
  exact (H3 [line_Bilbo] [line_cost_zero]).
Defined.

Example malformed_few_segments :
  parse_shadow_entry "bob:$2b$08" = Returned None.
Proof. reflexivity. Qed.

Section ParserRoundTrip.

Local Open Scope Z_scope.

Lemma count_le_length c s : (Py.count c s <= String.length s)%nat.
Proof.
  induction s as [|c' s IH]; cbn [Py.count String.length]; [done|].
  destruct (Ascii.eqb c' c); lia.
Qed.

Lemma digit_facts c :
  Py.isdigit c = true ->
  0 <= Py.digit_value c <= 9
  /\ (if Ascii.eqb c "0" then Py.digit_value c = 0 else 0 < Py.digit_value c)
  /\ Py.int_space c = false
  /\ Ascii.eqb c "-" = false /\ Ascii.eqb c "+" = false.
Proof.
  destruct c as [[] [] [] [] [] [] [] []]; vm_compute;
    first [by intros [=] | intros _; split_and!; congruence].
Qed.

Lemma int_digits_value s sep acc v :
  0 <= acc -> Py.all_digits s = true ->
  Py.int_digits sep acc s = Some v ->
  acc <= v
  /\ (0 < v <-> 0 < acc \/ (Py.count "0" s < String.length s)%nat).
Proof.
  revert sep acc. induction s as [|c s IH]; intros sep acc Hacc Hall Hv.
  - simpl in *. destruct sep; [done|]. injection Hv as <-. lia.
  - simpl in Hall. apply andb_true_iff in Hall as [Hc Hall].
    simpl in Hv. rewrite Hc in Hv.
    destruct (digit_facts c Hc) as (Hd & H0 & _).
    apply IH in Hv as [Hle Hpos]; [|lia|done].
    pose proof (count_le_length "0" s). cbn [Py.count String.length].
    destruct (Ascii.eqb c "0"); split; lia.
Qed.

Lemma int_rskip_id s :
  (forall k c, String.get k s = Some c -> Py.int_space c = false) ->
  Py.int_rskip s = s.
Proof.
  induction s as [|c s IH]; intros H; [done|]. simpl.
  rewrite IH by (intros k c' Hk; by apply (H (S k))).
  destruct s; [|done]. by rewrite (H 0%nat c).
Qed.

Lemma all_digits_get s k c :
  Py.all_digits s = true -> String.get k s = Some c -> Py.isdigit c = true.
Proof.
  revert k. induction s as [|c' s IH]; intros k Hall; [done|].
  simpl in Hall. apply andb_true_iff in Hall as [Hc Hall].
  destruct k as [|k]; simpl.
  - by intros [= <-].
  - by apply IH.
Qed.

Lemma digit_count_all_digits s :
  Py.all_digits s = true -> Py.digit_count s = N.of_nat (String.length s).
Proof.
  induction s as [|c s IH]; [done|]. cbn [Py.all_digits].
  intros [Hc Hs]%andb_true_iff. cbn [Py.digit_count String.length].
  rewrite Hc, IH by done. lia.
Qed.

(** On a string of digits [int] reads the digits, unless there are more
    than the interpreter allows. *)
Lemma int_all_digits s :
  Py.all_digits s = true ->
  Py.int s
  = if (Py.int_max_str_digits <? N.of_nat (String.length s))%N then None
    else Py.int_digits true 0 s.
Proof.
  intros Hall. unfold Py.int.
  assert (Hl : Py.int_lskip s = s).
  { destruct s as [|c s]; [done|]. simpl.
    pose proof (all_digits_get _ 0%nat c Hall eq_refl) as Hc.
    destruct (digit_facts c Hc) as (_ & _ & -> & _). done. }
  rewrite Hl, int_rskip_id.
  - cbn zeta. rewrite digit_count_all_digits by done.
    destruct (_ <? _)%N; [done|].
    destruct s as [|c s]; [done|].
    pose proof (all_digits_get _ 0%nat c Hall eq_refl) as Hc.
    destruct (digit_facts c Hc) as (_ & _ & _ & Hm & Hp).
    destruct c as [[] [] [] [] [] [] [] []]; try done.
  - intros k c Hk.
    by destruct (digit_facts c (all_digits_get _ _ _ Hall Hk)) as (_ & _ & ? & _).
Qed.

(** C9, as stated, fails: the parser returns a record with cost factor 0
    for a cost field "0", and one with cost factor -5 for "-5". *)
Lemma cost_factor_not_always_positive :
  (exists e, parse_shadow_entry line_cost_zero = Returned (Some e)
             /\ ~ 0 < workfactor e)
  /\ (exists e, parse_shadow_entry line_cost_negative = Returned (Some e)
                /\ ~ 0 < workfactor e).
Proof.
  split; (eexists; split; [reflexivity|]); vm_compute; by intros [=].
Qed.

(** C9, amended: the cost factor of every record the parser produces is
    the value [int] gives the cost field of the line (the third
    '$'-segment of the hash field); the parser does not check its sign. It
    is positive exactly when that value is: when the cost field is written
    with decimal digits only, the cost factor is not negative, and it is
    positive if and only if one of the digits is not 0. *)
Theorem cost_factor_is_cost_field_value (line : string) (e : Entry)
    (H : parse_shadow_entry line = Returned (Some e)) :
  let cost_text := nth 2 (Py.split "$" (full_hash e)) "" in
  Py.int cost_text = Some (workfactor e)
  /\ (Py.all_digits cost_text = true ->
      0 <= workfactor e
      /\ (0 < workfactor e
          <-> (Py.count "0" cost_text < String.length cost_text)%nat)).
Proof.
  apply parse_shadow_entry_accepts in H
    as (u & fh & p0 & p1 & p2 & p3 & more & _ & Hd & Hi & _ & -> & _).
  rewrite Hd. cbn [nth]. split; [done|].
  intros Hall. rewrite int_all_digits in Hi by done.
  destruct (_ <? _)%N; [done|].
  apply int_digits_value in Hi; [|lia|done]. lia.
Qed.

End ParserRoundTrip.

Lemma cost_factor_is_cost_field_value_witness :
  parse_shadow_entry line_Bilbo
  = Returned (Some {| user := "Bilbo"; algorithm := "2b"; workfactor := 8;
                      salt := "J9FW66ZdPI2nrIMcOxFYI.";
                      bcrypt_salt := "$2b$08$J9FW66ZdPI2nrIMcOxFYI.";
                      hash := "qx268uZn.ajhymLP/YHaAsfBGP3Fnmq";
                      full_hash :=
                        "$2b$08$J9FW66ZdPI2nrIMcOxFYI.qx268uZn.ajhymLP/YHaAsfBGP3Fnmq" |})
  /\ Py.int "08" = Some 8%Z.
Proof.
  split; [reflexivity|].
  exact (proj1 (cost_factor_is_cost_field_value line_Bilbo _ eq_refl)).
Defined.

Section RoundTripClaim.

Lemma join_head_tail sep f (l : list string) :
  exists tail, Py.join sep (f :: l) = f +:+ tail.
Proof.
  destruct l as [|g l].
  - exists EmptyString. simpl. clear. induction f as [|c f IH]; [done|].
    rewrite str_app_cons. by f_equal.
  - eexists. apply join_cons_cons.
Qed.

(** C8, as stated, fails: the line with the one-digit cost "8" is accepted
    and its [bcrypt_salt] has 28 characters; it is not the first 29
    characters of the hash field. *)
Lemma bcrypt_salt_not_always_29_characters :
  exists e,
    parse_shadow_entry line_cost_one_digit = Returned (Some e)
    /\ bcrypt_salt e = "$2b$8$J9FW66ZdPI2nrIMcOxFYI."
    /\ Py.take 29 (full_hash e) = "$2b$8$J9FW66ZdPI2nrIMcOxFYI.q"
    /\ bcrypt_salt e <> Py.take 29 (full_hash e).
Proof.
  eexists. split; [reflexivity|]. split_and!; [reflexivity..|].
  vm_compute. by intros [=].
Qed.

(** C8, amended: for every input line that the parser accepts, the
    [bcrypt_salt] string is '$' + algorithm + '$' + cost field + '$' +
    salt, where algorithm and cost field are the second and third
    '$'-segments of the original hash field, byte for byte, and salt is the
    first 22 characters of the fourth; splitting [bcrypt_salt] on '$' gives
    back exactly these fields, and salt followed by hash is the fourth
    segment. When the hash field starts with '$', [bcrypt_salt] followed by
    hash starts the hash field; it is the first 29 characters of the hash
    field when moreover the algorithm and the cost field have 2 characters
    each and the fourth segment at least 22. *)
Theorem parser_round_trip (line : string) (e : Entry)
    (H : parse_shadow_entry line = Returned (Some e)) :
  let hash_parts := Py.split "$" (full_hash e) in
  let cost_text := nth 2 hash_parts "" in
  let salt_hash := nth 3 hash_parts "" in
  Py.strip line = user e +:+ ":" +:+ full_hash e
  /\ bcrypt_salt e
     = "$" +:+ algorithm e +:+ "$" +:+ cost_text +:+ "$" +:+ salt e
  /\ Py.split "$" (bcrypt_salt e) = [""; algorithm e; cost_text; salt e]
  /\ algorithm e = nth 1 hash_parts ""
  /\ salt e = Py.take 22 salt_hash
  /\ salt e +:+ hash e = salt_hash
  /\ Py.int cost_text = Some (workfactor e)
  /\ (nth 0 hash_parts "" = "" ->
      exists tail, full_hash e = bcrypt_salt e +:+ hash e +:+ tail)
  /\ (nth 0 hash_parts "" = "" ->
      String.length (algorithm e) = 2 -> String.length cost_text = 2 ->
      22 <= String.length salt_hash ->
      bcrypt_salt e = Py.take 29 (full_hash e)).
Proof.
  apply parse_shadow_entry_accepts in H
    as (u & fh & p0 & p1 & p2 & p3 & more & Hc & Hd & Hi
        & -> & -> & -> & -> & -> & ->).
  rewrite Hd. cbn [nth].
  assert (Hn1 : Py.count "$" p1 = 0).
  { apply (split_fields_nosep "$" fh). rewrite Hd. set_solver. }
  assert (Hn2 : Py.count "$" p2 = 0).
  { apply (split_fields_nosep "$" fh). rewrite Hd. set_solver. }
  assert (Hn3 : Py.count "$" (Py.take 22 p3) = 0).
  { pose proof (str_count_take "$" p3 22).
    assert (Py.count "$" p3 = 0); [|lia].
    apply (split_fields_nosep "$" fh). rewrite Hd. set_solver. }
  assert (Hprefix : p0 = "" ->
    exists tail,
      fh = ("$" +:+ p1 +:+ "$" +:+ p2 +:+ "$" +:+ Py.take 22 p3)
             +:+ Py.drop 22 p3 +:+ tail).
  { intros ->. destruct (join_head_tail "$" p3 more) as [tail Htail].
    exists tail. rewrite <- (join_split "$" fh), Hd.
    rewrite !join_cons_cons, Htail.
    rewrite <- (str_take_drop p3 22) at 1.
    change ("$" +:+ p1 +:+ "$" +:+ p2 +:+ "$" +:+ Py.take 22 p3)
      with (String "$" (p1 +:+ String "$" (p2 +:+ String "$" (Py.take 22 p3)))).
    rewrite app_nil_l_str, str_app_cons. f_equal.
    rewrite !app_assoc_str, str_app_cons. f_equal.
    rewrite !app_assoc_str, str_app_cons. done. }
  split_and!; try done.
  - rewrite <- (join_split ":" (Py.strip line)), Hc. done.
  - change ("$" +:+ p1 +:+ "$" +:+ p2 +:+ "$" +:+ Py.take 22 p3)
      with ("" +:+ String "$" (p1 +:+ String "$" (p2 +:+ String "$" (Py.take 22 p3)))).
    rewrite !split_app by done. by rewrite split_nosep.
  - apply str_take_drop.
  - intros Hp0 Hl1 Hl2 Hl3. destruct (Hprefix Hp0) as [tail Htail].
    rewrite Htail.
    set (b := "$" +:+ p1 +:+ "$" +:+ p2 +:+ "$" +:+ Py.take 22 p3).
    assert (Hlen : String.length b = 29).
    { unfold b.
      change ("$" +:+ p1 +:+ "$" +:+ p2 +:+ "$" +:+ Py.take 22 p3)
        with (String "$" (p1 +:+ String "$" (p2 +:+ String "$" (Py.take 22 p3)))).
      cbn [String.length]. rewrite str_length_app. cbn [String.length].
      rewrite str_length_app. cbn [String.length].
      rewrite str_length_take. lia. }
    rewrite <- Hlen. by rewrite str_take_app_length.
Qed.

End RoundTripClaim.

Lemma parser_round_trip_witness :
  exists e,
    parse_shadow_entry line_Bilbo = Returned (Some e)
    /\ Py.split "$" (bcrypt_salt e)
       = [""; "2b"; "08"; "J9FW66ZdPI2nrIMcOxFYI."]
    /\ bcrypt_salt e = Py.take 29 (full_hash e).
Proof.
  eexists. split; [reflexivity|].
  pose proof (parser_round_trip line_Bilbo _ eq_refl) as H.
  cbv zeta in H. destruct H as (_ & _ & H3 & _ & _ & _ & _ & _ & H9).
  split; [exact H3|].
  apply H9; [reflexivity|reflexivity|reflexivity|vm_compute; lia].
Defined.

(** * Further properties

    ** The parser on white space, on errors and on batches *)

Section ParserMore.

Implicit Types (s u v : string) (c : ascii).

Lemma lstrip_idemp s : Py.lstrip (Py.lstrip s) = Py.lstrip s.
Proof.
  induction s as [|c s IH]; [done|]. simpl.
  destruct (Py.isspace c) eqn:E; [done|]. simpl. by rewrite E.
Qed.

Lemma rstrip_cons c s :
  Py.rstrip (String c s)
  = match Py.rstrip s with
    | EmptyString => if Py.isspace c then EmptyString else String c EmptyString
    | r => String c r
    end.
Proof. done. Qed.

Lemma rstrip_idemp s : Py.rstrip (Py.rstrip s) = Py.rstrip s.
Proof.
  induction s as [|c s IH]; [done|]. rewrite rstrip_cons.
  destruct (Py.rstrip s) as [|c' r] eqn:E.
  - destruct (Py.isspace c) eqn:Ec; [done|]. rewrite rstrip_cons. simpl.
    by rewrite Ec.
  - rewrite rstrip_cons, IH. done.
Qed.

Lemma lstrip_rstrip s : Py.lstrip (Py.rstrip s) = Py.rstrip (Py.lstrip s).
Proof.
  induction s as [|c s IH]; [done|]. rewrite rstrip_cons.
  destruct (Py.isspace c) eqn:Ec.
  - cbn [Py.lstrip]. rewrite Ec, <- IH.
    destruct (Py.rstrip s) as [|c' r]; [done|].
    cbn [Py.lstrip]. by rewrite Ec.
  - cbn [Py.lstrip]. rewrite Ec, rstrip_cons.
    destruct (Py.rstrip s) as [|c' r]; cbn [Py.lstrip]; by rewrite Ec.
Qed.

Lemma strip_idemp s : Py.strip (Py.strip s) = Py.strip s.
Proof.
  unfold Py.strip.
  by rewrite lstrip_rstrip, lstrip_idemp, rstrip_idemp.
Qed.

Lemma rstrip_app_space s c :
  Py.isspace c = true ->
  Py.rstrip (s +:+ String c EmptyString) = Py.rstrip s.
Proof.
  intros Hc. induction s as [|c' s IH].
  - rewrite app_nil_l_str, rstrip_cons. simpl. by rewrite Hc.
  - rewrite str_app_cons, !rstrip_cons. by rewrite IH.
Qed.

Lemma strip_app_space s c :
  Py.isspace c = true -> Py.strip (s +:+ String c EmptyString) = Py.strip s.
Proof.
  intros Hc. induction s as [|c' s IH].
  - rewrite app_nil_l_str. unfold Py.strip. simpl. by rewrite Hc.
  - rewrite str_app_cons. unfold Py.strip in *. cbn [Py.lstrip].
    destruct (Py.isspace c'); [done|].
    by rewrite <- str_app_cons, rstrip_app_space.
Qed.

Lemma strip_app_spaces s ws :
  all_space ws = true -> Py.strip (s +:+ ws) = Py.strip s.
Proof.
  revert s. induction ws as [|c ws IH]; intros s Hws.
  - clear. f_equal. induction s as [|c s IH]; [done|].
    rewrite str_app_cons. by f_equal.
  - simpl in Hws. apply andb_true_iff in Hws as [Hc Hws].
    change (String c ws) with (String c EmptyString +:+ ws).
    rewrite <- app_assoc_str, IH by done. by apply strip_app_space.
Qed.

Lemma strip_cons_space c s :
  Py.isspace c = true -> Py.strip (String c s) = Py.strip s.
Proof. intros Hc. unfold Py.strip. simpl. by rewrite Hc. Qed.

Lemma strip_all_space ws : all_space ws = true -> Py.strip ws = EmptyString.
Proof.
  intros H. by rewrite <- (app_nil_l_str ws), strip_app_spaces.
Qed.

(** The parser sees a line through [strip] only. *)
Lemma parse_shadow_entry_strip_eq l1 l2 :
  Py.strip l1 = Py.strip l2 -> parse_shadow_entry l1 = parse_shadow_entry l2.
Proof. intros H. unfold parse_shadow_entry. by rewrite H. Qed.


Lemma strip_lead_spaces lead s :
  all_space lead = true -> Py.strip (lead +:+ s) = Py.strip s.
Proof.
  induction lead as [|c lead IH]; [done|]. simpl.
  intros [Hc Hl]%andb_true_iff. rewrite str_app_cons, strip_cons_space by done.
  by apply IH.
Qed.

(** X1: white space around a line, such as the newline [readlines()] leaves at
    its end, does not change what the parser makes of it. *)
Theorem parse_ignores_surrounding_space (line lead trail : string)
    (Hlead : all_space lead = true) (Htrail : all_space trail = true) :
  parse_shadow_entry (lead +:+ line +:+ trail) = parse_shadow_entry line
  /\ parse_shadow_entry (Py.strip line) = parse_shadow_entry line
  /\ forall entries rest,
       parse_lines entries ((lead +:+ line +:+ trail) :: rest)
       = parse_lines entries (line :: rest).
Proof.
  assert (H : parse_shadow_entry (lead +:+ line +:+ trail)
              = parse_shadow_entry line).
  { apply parse_shadow_entry_strip_eq.
    by rewrite strip_lead_spaces, strip_app_spaces. }
  split_and!; [done| |].
  - apply parse_shadow_entry_strip_eq, strip_idemp.
  - intros entries rest. simpl. by rewrite H.
Qed.

(** A line with one colon splits at it. *)
Lemma one_colon_split line :
  Py.count ":" line = 1 ->
  exists u fh, Py.strip line = u +:+ ":" +:+ fh
               /\ Py.split ":" (Py.strip line) = [u; fh].
Proof.
  intros Hc. pose proof (split_length ":" (Py.strip line)) as Hlen.
  rewrite count_strip, Hc in Hlen by done.
  destruct (Py.split ":" (Py.strip line)) as [|u [|fh [|? ?]]] eqn:E;
    try done.
  exists u, fh. split; [|done].
  by rewrite <- (join_split ":" (Py.strip line)), E.
Qed.

Lemma one_colon_unique line u fh :
  Py.count ":" line = 1 -> Py.strip line = u +:+ ":" +:+ fh ->
  Py.split ":" (Py.strip line) = [u; fh]
  /\ Py.count ":" u = 0 /\ Py.count ":" fh = 0.
Proof.
  intros Hc Hs. rewrite <- (count_strip ":" line), Hs in Hc by done.
  change (u +:+ ":" +:+ fh) with (u +:+ String ":" fh) in *.
  rewrite str_count_app in Hc. simpl in Hc.
  rewrite Hs, split_app by lia. rewrite split_nosep by lia.
  split_and!; [done|lia|lia].
Qed.

(** What the parser does with a line that has one colon. *)
Lemma parse_shadow_entry_one_colon line u fh :
  Py.count ":" line = 1 -> Py.strip line = u +:+ ":" +:+ fh ->
  parse_shadow_entry line
  = let hash_parts := Py.split "$" fh in
    if (length hash_parts <? 4)%nat then Returned None
    else match Py.int (nth 2 hash_parts "") with
         | None => Raised ValueError
         | Some wf =>
             Returned
               (Some {| user := u; algorithm := nth 1 hash_parts "";
                        workfactor := wf;
                        salt := Py.take 22 (nth 3 hash_parts "");
                        bcrypt_salt :=
                          "$" +:+ nth 1 hash_parts "" +:+ "$"
                              +:+ nth 2 hash_parts "" +:+ "$"
                              +:+ Py.take 22 (nth 3 hash_parts "");
                        hash := Py.drop 22 (nth 3 hash_parts "");
                        full_hash := fh |})
         end.
Proof.
  intros Hc Hs. destruct (one_colon_unique line u fh Hc Hs) as (Hsplit & _).
  unfold parse_shadow_entry.
  destruct (Py.strip line) as [|c0 s0] eqn:E; [by destruct u|].
  by rewrite Hsplit.
Qed.

Lemma int_digits_ascii s sep acc :
  Py.all_digits s = true -> (0 <= acc)%Z -> s <> EmptyString \/ sep = false ->
  exists n : Z, Py.int_digits sep acc s = Some n /\ (acc <= n)%Z.
Proof.
  revert sep acc. induction s as [|c s IH]; intros sep acc Hall Hacc Hne.
  - destruct Hne as [?| ->]; [done|]. exists acc. by split; [|lia].
  - simpl in Hall. apply andb_true_iff in Hall as [Hc Hall].
    simpl. rewrite Hc.
    assert (0 <= Py.digit_value c <= 9)%Z as Hdv.
    { clear -Hc. destruct c as [[] [] [] [] [] [] [] []]; vm_compute in Hc;
        try discriminate Hc; vm_compute; split; discriminate. }
    destruct (IH false (10 * acc + Py.digit_value c)%Z Hall) as (n & -> & Hle);
      [lia|by right|].
    exists n. split; [done|lia].
Qed.

(** The outcomes of the parser, by the form of the line. *)
Lemma parse_shadow_entry_outcomes (line : string) :
  (parse_shadow_entry line = Raised ValueError <->
   exists u fh,
     Py.count ":" line = 1 /\ Py.strip line = u +:+ ":" +:+ fh
     /\ 3 <= Py.count "$" fh
     /\ Py.int (nth 2 (Py.split "$" fh) "") = None)
  /\ parse_shadow_entry line <> Raised ZeroDivisionError
  /\ forall e,
       parse_shadow_entry line = Returned (Some e) <->
       exists u fh wf,
         Py.count ":" line = 1 /\ Py.strip line = u +:+ ":" +:+ fh
         /\ 3 <= Py.count "$" fh
         /\ Py.int (nth 2 (Py.split "$" fh) "") = Some wf
         /\ e = {| user := u; algorithm := nth 1 (Py.split "$" fh) "";
                   workfactor := wf;
                   salt := Py.take 22 (nth 3 (Py.split "$" fh) "");
                   bcrypt_salt :=
                     "$" +:+ nth 1 (Py.split "$" fh) "" +:+ "$"
                         +:+ nth 2 (Py.split "$" fh) "" +:+ "$"
                         +:+ Py.take 22 (nth 3 (Py.split "$" fh) "");
                   hash := Py.drop 22 (nth 3 (Py.split "$" fh) "");
                   full_hash := fh |}.
Proof.
  destruct (decide (Py.count ":" line = 1)) as [Hc|Hc].
  - destruct (one_colon_split line Hc) as (u & fh & Hs & _).
    pose proof (parse_shadow_entry_one_colon line u fh Hc Hs) as Hp.
    cbv zeta in Hp. pose proof (split_length "$" fh) as Hlen.
    assert (Huniq : forall u' fh',
              Py.strip line = u' +:+ ":" +:+ fh' -> u' = u /\ fh' = fh).
    { intros u' fh' Hs'.
      destruct (one_colon_unique line u fh Hc Hs) as (H1 & _).
      destruct (one_colon_unique line u' fh' Hc Hs') as (H2 & _).
      rewrite H1 in H2. by injection H2 as -> ->. }
    destruct (length (Py.split "$" fh) <? 4)%nat eqn:E.
    + apply Nat.ltb_lt in E. rewrite Hp. split_and!; [|done|].
      * split; [done|]. intros (u' & fh' & _ & Hs' & Hd & _).
        destruct (Huniq _ _ Hs') as [-> ->]. lia.
      * intros e. split; [done|]. intros (u' & fh' & wf & _ & Hs' & Hd & _).
        destruct (Huniq _ _ Hs') as [-> ->]. lia.
    + apply Nat.ltb_ge in E.
      destruct (Py.int (nth 2 (Py.split "$" fh) "")) as [wf|] eqn:Ei;
        rewrite Hp; split_and!; try done.
      * split; [done|]. intros (u' & fh' & _ & Hs' & _ & Hi).
        destruct (Huniq _ _ Hs') as [-> ->]. congruence.
      * intros e. split.
        -- intros [= <-]. exists u, fh, wf. split_and!; try done. lia.
        -- intros (u' & fh' & wf' & _ & Hs' & _ & Hi & ->).
           destruct (Huniq _ _ Hs') as [-> ->]. congruence.
      * split; [|done]. intros _. exists u, fh. split_and!; try done. lia.
      * intros e. split; [done|].
        intros (u' & fh' & wf' & _ & Hs' & _ & Hi & _).
        destruct (Huniq _ _ Hs') as [-> ->]. congruence.
  - rewrite parse_shadow_entry_rejects by done. split_and!; [|done|].
    + split; [done|]. by intros (u & fh & ? & _).
    + intros e. split; [done|]. by intros (u & fh & wf & ? & _).
Qed.


(** X2: the parser raises [ValueError], and nothing else, exactly on the
    lines that pass its two structural checks (one colon, at least four
    '$'-segments) and whose cost field [int] does not accept; it returns a
    record exactly on those whose cost field [int] accepts, and the record
    is made of the segments of the line. A cost field made of decimal
    digits is rejected only for its size: the parser then raises exactly
    when the field has more than 4300 digits. *)
Theorem parser_raises_exactly_on_bad_cost (line : string) :
  (parse_shadow_entry line = Raised ValueError <->
   exists u fh,
     Py.count ":" line = 1 /\ Py.strip line = u +:+ ":" +:+ fh
     /\ 3 <= Py.count "$" fh
     /\ Py.int (nth 2 (Py.split "$" fh) "") = None)
  /\ parse_shadow_entry line <> Raised ZeroDivisionError
  /\ (forall e,
       parse_shadow_entry line = Returned (Some e) <->
       exists u fh wf,
         Py.count ":" line = 1 /\ Py.strip line = u +:+ ":" +:+ fh
         /\ 3 <= Py.count "$" fh
         /\ Py.int (nth 2 (Py.split "$" fh) "") = Some wf
         /\ e = {| user := u; algorithm := nth 1 (Py.split "$" fh) "";
                   workfactor := wf;
                   salt := Py.take 22 (nth 3 (Py.split "$" fh) "");
                   bcrypt_salt :=
                     "$" +:+ nth 1 (Py.split "$" fh) "" +:+ "$"
                         +:+ nth 2 (Py.split "$" fh) "" +:+ "$"
                         +:+ Py.take 22 (nth 3 (Py.split "$" fh) "");
                   hash := Py.drop 22 (nth 3 (Py.split "$" fh) "");
                   full_hash := fh |})
  /\ (forall u fh,
        Py.count ":" line = 1 -> Py.strip line = u +:+ ":" +:+ fh ->
        3 <= Py.count "$" fh ->
        Py.all_digits (nth 2 (Py.split "$" fh) "") = true ->
        nth 2 (Py.split "$" fh) "" <> EmptyString ->
        (parse_shadow_entry line = Raised ValueError
         <-> (4300 < Z.of_nat (String.length (nth 2 (Py.split "$" fh) "")))%Z)).
Proof.
  destruct (parse_shadow_entry_outcomes line) as (H1 & H2 & H3).
  split_and!; [done..|].
  intros u fh Hc Hs Hd Hall Hne.
  pose proof (parse_shadow_entry_one_colon line u fh Hc Hs) as Hp.
  cbv zeta in Hp. pose proof (split_length "$" fh) as Hlen.
  destruct (Nat.ltb_spec (length (Py.split "$" fh)) 4) as [?|_]; [lia|].
  rewrite Hp, (int_all_digits _ Hall). unfold Py.int_max_str_digits.
  destruct (N.ltb_spec 4300
              (N.of_nat (String.length (nth 2 (Py.split "$" fh) ""))))
    as [Hlt|Hle]; [split; [lia|done]|].
  destruct (int_digits_ascii (nth 2 (Py.split "$" fh) "") true 0 Hall)
    as (n & -> & _); [lia|by left|]. split; [done|lia].
Qed.

End ParserMore.

Lemma parse_ignores_surrounding_space_witness :
  parse_shadow_entry ("  " +:+ line_Bilbo +:+ String "010" EmptyString)
  = parse_shadow_entry line_Bilbo.
Proof.
  apply (parse_ignores_surrounding_space line_Bilbo "  "
           (String "010" EmptyString)); reflexivity.
Defined.

Section ParserBatch.

Implicit Types (s u v : string) (c : ascii).








End ParserBatch.

Section ParserContent.

Implicit Types (s u v : string) (c : ascii).

Lemma parse_lines_cons_eq entries l1 l2 rest1 rest2 :
  Py.strip l1 = Py.strip l2 ->
  (forall acc, parse_lines acc rest1 = parse_lines acc rest2) ->
  parse_lines entries (l1 :: rest1) = parse_lines entries (l2 :: rest2).
Proof.
  intros Hs Hr. simpl. rewrite (parse_shadow_entry_strip_eq l1 l2 Hs).
  destruct (parse_shadow_entry l2) as [[e|]|]; simpl; by rewrite ?Hr.
Qed.

Lemma parse_lines_blank entries l rest :
  Py.strip l = EmptyString ->
  parse_lines entries (l :: rest) = parse_lines entries rest.
Proof.
  intros Hs. apply parse_lines_skip. unfold parse_shadow_entry.
  by rewrite Hs.
Qed.

Lemma split_nonempty sep s : exists h t, Py.split sep s = h :: t.
Proof.
  unfold Py.split. destruct (Py.fields sep s) as [h t]. eauto.
Qed.

(** Stripping the text on the left does not change what its lines parse
    to. *)
Lemma parse_lines_split_lstrip entries s :
  parse_lines entries (Py.split "010" (Py.lstrip s))
  = parse_lines entries (Py.split "010" s).
Proof.
  induction s as [|c s IH]; [done|]. cbn [Py.lstrip].
  destruct (Py.isspace c) eqn:Ec; [|done].
  rewrite IH, split_cons. destruct (Ascii.eqb c "010").
  - by rewrite parse_lines_blank.
  - destruct (split_nonempty "010" s) as (h & t & ->).
    symmetry. apply parse_lines_cons_eq; [|done].
    by apply strip_cons_space.
Qed.

(** The lines of the text stripped on the right against the lines of the
    text: the first lines differ by trailing white space, the others parse
    alike. *)
Lemma split_rstrip_rel s :
  exists hr tr h t ws,
    Py.split "010" (Py.rstrip s) = hr :: tr
    /\ Py.split "010" s = h :: t
    /\ all_space ws = true /\ h = hr +:+ ws
    /\ forall acc, parse_lines acc tr = parse_lines acc t.
Proof.
  induction s as [|c s (hr & tr & h & t & ws & Hr & Hs & Hws & Hh & Ht)].
  - by exists EmptyString, [], EmptyString, [], EmptyString.
  - rewrite rstrip_cons, (split_cons "010" c s), Hs.
    destruct (Py.rstrip s) as [|c' r] eqn:Er.
    + injection Hr as <- <-. rewrite app_nil_l_str in Hh. subst h.
      destruct (Py.isspace c) eqn:Ec.
      * destruct (Ascii.eqb c "010").
        -- exists EmptyString, [], EmptyString, (ws :: t), EmptyString.
           split_and!; try done. intros acc.
           rewrite parse_lines_blank by by apply strip_all_space.
           apply Ht.
        -- exists EmptyString, [], (String c ws), t, (String c ws).
           split_and!; try done. simpl. by rewrite Ec.
      * assert (Ascii.eqb c "010" = false) as Hnl.
        { destruct (Ascii.eqb_spec c "010") as [->|]; [done|done]. }
        rewrite Hnl. rewrite (split_cons "010" c EmptyString), Hnl. simpl.
        exists (String c EmptyString), [], (String c ws), t, ws.
        by split_and!.
    + rewrite (split_cons "010" c (String c' r)), Hr.
      destruct (Ascii.eqb c "010").
      * exists EmptyString, (hr :: tr), EmptyString, (h :: t), EmptyString.
        split_and!; try done. intros acc.
        apply parse_lines_cons_eq; [|done].
        subst h. symmetry. by apply strip_app_spaces.
      * exists (String c hr), tr, (String c h), t, ws.
        split_and!; try done. by rewrite Hh.
Qed.

Lemma parse_lines_split_rstrip entries s :
  parse_lines entries (Py.split "010" (Py.rstrip s))
  = parse_lines entries (Py.split "010" s).
Proof.
  destruct (split_rstrip_rel s)
    as (hr & tr & h & t & ws & -> & -> & Hws & -> & Ht).
  apply parse_lines_cons_eq; [|done].
  symmetry. by apply strip_app_spaces.
Qed.

(** X4: the [strip()] that [parse_shadow_file] applies to [content] as a whole
    changes nothing: a non-empty text given as [content] parses as its
    lines given through [filepath], with or without the white space
    ([readlines()] keeps the newline) at their ends. *)
Theorem content_mode_agrees_with_file_mode (content : string)
    (filepath : option (list string)) (Hc : content <> EmptyString) :
  parse_shadow_file filepath (Some content)
  = parse_shadow_file (Some (Py.split "010" content)) None
  /\ forall trail, all_space trail = true ->
       parse_shadow_file filepath (Some content)
       = parse_shadow_file
           (Some ((fun line => line +:+ trail) <$> Py.split "010" content)) None.
Proof.
  assert (H : parse_shadow_file filepath (Some content)
              = parse_lines [] (Py.split "010" content)).
  { destruct content as [|c s]; [done|]. cbn [parse_shadow_file].
    unfold Py.strip.
    by rewrite parse_lines_split_rstrip, parse_lines_split_lstrip. }
  split; [done|]. intros trail Htrail. rewrite H. simpl. clear H.
  generalize (@nil Entry). induction (Py.split "010" content) as [|l ls IH];
    intros acc; [done|].
  rewrite fmap_cons. symmetry. apply parse_lines_cons_eq.
  - by apply strip_app_spaces.
  - intros acc'. symmetry. apply IH.
Qed.

End ParserContent.

Lemma content_mode_agrees_with_file_mode_witness :
  parse_shadow_file None
    (Some ("  " +:+ line_Bilbo +:+ String "010" line_cost_zero
                +:+ String "010" " "))
  = parse_shadow_file (Some ["  " +:+ line_Bilbo; line_cost_zero; " "]) None.
Proof.
  assert (Hc : "  " +:+ line_Bilbo +:+ String "010" line_cost_zero
                    +:+ String "010" " " <> EmptyString)
    by (vm_compute; intros H; discriminate H).
  exact (proj1 (content_mode_agrees_with_file_mode _ None Hc)).
Defined.

Section ParserFields.

Implicit Types (s u v : string) (c : ascii).

Lemma str_count_drop c s n : Py.count c (Py.drop n s) <= Py.count c s.
Proof.
  revert s. induction n as [|n IH]; intros [|c' s]; simpl; try lia.
  specialize (IH s). lia.
Qed.

Lemma str_length_drop s n :
  String.length (Py.drop n s) = String.length s - n.
Proof.
  revert s. induction n as [|n IH]; intros [|c' s]; simpl; try done.
Qed.

Lemma str_length_zero s : String.length s = 0 -> s = EmptyString.
Proof. by destruct s. Qed.

(** X5: the fields of every record the parser returns: the user name and the
    hash field hold no ':'; the algorithm, the salt and the hash hold no
    '$', and the hash field holds at least three; the salt has at most 22
    characters, and it has exactly 22 whenever the hash is not empty. *)
Theorem accepted_record_fields (line : string) (e : Entry)
    (H : parse_shadow_entry line = Returned (Some e)) :
  Py.count ":" (user e) = 0 /\ Py.count ":" (full_hash e) = 0
  /\ Py.count ":" line = 1
  /\ 3 <= Py.count "$" (full_hash e)
  /\ Py.count "$" (algorithm e) = 0
  /\ Py.count "$" (salt e) = 0 /\ Py.count "$" (hash e) = 0
  /\ String.length (salt e) <= 22
  /\ (hash e <> EmptyString -> String.length (salt e) = 22)
  /\ (String.length (salt e) < 22 -> hash e = EmptyString).
Proof.
  apply parse_shadow_entry_accepts in H
    as (u & fh & p0 & p1 & p2 & p3 & more & Hc & Hd & Hi
        & -> & -> & -> & -> & -> & _).
  assert (Hcolon : Py.count ":" line = 1).
  { pose proof (split_length ":" (Py.strip line)) as Hl.
    rewrite Hc, count_strip in Hl by done. simpl in Hl. lia. }
  pose proof (split_length "$" fh) as Hl. rewrite Hd in Hl. simpl in Hl.
  assert (Py.count "$" p1 = 0).
  { apply (split_fields_nosep "$" fh). rewrite Hd. right. left. }
  assert (Py.count "$" p3 = 0).
  { apply (split_fields_nosep "$" fh). rewrite Hd. do 3 right. left. }
  pose proof (str_count_take "$" p3 22).
  pose proof (str_count_drop "$" p3 22).
  pose proof (str_length_take p3 22) as Hlt.
  pose proof (str_length_drop p3 22) as Hld.
  split_and!; try lia.
  - apply (split_fields_nosep ":" (Py.strip line)). rewrite Hc. left.
  - apply (split_fields_nosep ":" (Py.strip line)). rewrite Hc. right. left.
  - intros Hne. destruct (decide (String.length p3 <= 22)); [|lia].
    destruct Hne. apply str_length_zero. lia.
  - intros Hlt'. apply str_length_zero. lia.
Qed.

End ParserFields.

Lemma accepted_record_fields_witness :
  exists e,
    parse_shadow_entry line_short_salt = Returned (Some e)
    /\ String.length (salt e) <= 22 /\ Py.count "$" (salt e) = 0.
Proof.
  eexists. split; [reflexivity|].
  pose proof (accepted_record_fields line_short_salt _ eq_refl) as H.
  split; apply H.
Defined.

(** ** The single-core cracker and the workers *)

Section CrackersMore.

Local Open Scope Z_scope.

Context (checkpw : string -> string -> option bool).

(** X7: [crack_single_user] returns the first word that verifies, with its
    1-based position, which lies between 1 and the length of the word list;
    it returns nothing exactly when no word verifies; and words added at
    the end of the list do not change a password that was found. *)
Theorem single_core_finds_first_match (user full_hash : string)
    (word_list : list string) :
  (forall w a,
     crack_single_user checkpw user full_hash word_list = Some (w, a) <->
     exists k : nat,
       a = Z.of_nat k + 1 /\ word_list !! k = Some w
       /\ checkpw w full_hash = Some true
       /\ forall (k' : nat) w', (k' < k)%nat -> word_list !! k' = Some w' ->
            checkpw w' full_hash <> Some true)
  /\ (crack_single_user checkpw user full_hash word_list = None <->
      forall w, w ∈ word_list -> checkpw w full_hash <> Some true)
  /\ (forall w a,
        crack_single_user checkpw user full_hash word_list = Some (w, a) ->
        1 <= a <= Z.of_nat (length word_list))
  /\ (forall more,
        is_Some (crack_single_user checkpw user full_hash word_list) ->
        crack_single_user checkpw user full_hash (word_list ++ more)
        = crack_single_user checkpw user full_hash word_list).
Proof.
  unfold crack_single_user. split_and!.
  - intros w a. rewrite single_user_scan_Some.
    split; intros (k & -> & H); exists k; (split; [lia|done]).
  - apply single_user_scan_None.
  - intros w a (k & -> & Hk & _)%single_user_scan_Some.
    apply lookup_lt_Some in Hk. lia.
  - intros more [r Hr]. by rewrite single_user_scan_app, Hr.
Qed.

(** X8: every task handed to a worker is a slice of the corpus with its start
    index, and a worker that reports a match reports a word that verifies,
    with an index inside its own chunk at which the corpus holds that word;
    no earlier word of the chunk verifies. A worker reports nothing exactly
    when no word of its chunk verifies. *)
Theorem worker_reports_corpus_index (full_hash : string)
    (word_list chunk : list string) (h : string) (start N : Z)
    (HN : 1 <= N)
    (Hin : (chunk, h, start) ∈ chunk_args full_hash word_list N) :
  h = full_hash
  /\ 0 <= start /\ chunk <> []
  /\ start + Z.of_nat (length chunk) <= Z.of_nat (length word_list)
  /\ (forall (k : nat) w, chunk !! k = Some w ->
        word_list !! (Z.to_nat start + k)%nat = Some w)
  /\ (forall w idx,
        crack_worker_chunk checkpw (chunk, h, start) = Some (w, idx) ->
        start <= idx < start + Z.of_nat (length chunk)
        /\ word_list !! Z.to_nat idx = Some w
        /\ checkpw w full_hash = Some true
        /\ forall (j : nat) w', start <= Z.of_nat j < idx ->
             word_list !! j = Some w' -> checkpw w' full_hash <> Some true)
  /\ (crack_worker_chunk checkpw (chunk, h, start) = None <->
      forall w, w ∈ chunk -> checkpw w full_hash <> Some true).
Proof.
  rewrite chunk_args_bounds in Hin.
  apply list_elem_of_fmap in Hin as ([s e] & [= -> -> ->] & Hse). simpl.
  pose proof (chunk_bounds_tiling (Z.of_nat (length word_list)) N
                ltac:(lia) HN) as Ht.
  apply tiling_bounds in Ht.
  pose proof (proj1 (Forall_forall _ _) Ht _ Hse) as (Hs & Hlt & He).
  simpl in Hs, Hlt, He. rewrite slice_eq by lia.
  set (chunk := take (Z.to_nat (e - s)) (drop (Z.to_nat s) word_list)).
  assert (Hlen : Z.of_nat (length chunk) = e - s).
  { unfold chunk. rewrite length_take, length_drop. lia. }
  assert (Hlook : forall (k : nat) w, chunk !! k = Some w ->
            word_list !! (Z.to_nat s + k)%nat = Some w).
  { intros k w Hk. pose proof (lookup_lt_Some _ _ _ Hk) as Hklt.
    unfold chunk in Hk. by rewrite lookup_take_lt, lookup_drop in Hk by lia. }
  pose proof (worker_scan_single checkpw full_hash s 0 chunk) as Hw.
  rewrite Z.add_0_r in Hw.
  split_and!; try done; try lia.
  - intros ->. simpl in Hlen. lia.
  - intros w idx Hr. rewrite Hr in Hw. simpl in Hw. symmetry in Hw.
    apply single_user_scan_Some in Hw as (k & Hidx & Hk & Hc & Hmin).
    pose proof (lookup_lt_Some _ _ _ Hk) as Hklt.
    assert (idx = s + Z.of_nat k) as -> by lia.
    split_and!; try done; try lia.
    + rewrite <- (Hlook k w Hk). f_equal. lia.
    + intros j w' Hj Hw'. apply (Hmin (j - Z.to_nat s)%nat); [lia|].
      destruct (chunk !! (j - Z.to_nat s)%nat) as [w''|] eqn:E.
      * apply Hlook in E. rewrite <- Hw', <- E. f_equal. lia.
      * apply lookup_ge_None_1 in E. lia.
  - destruct (worker_scan checkpw full_hash s 0 chunk) as [[w idx]|] eqn:Hr;
      simpl in Hw; symmetry in Hw.
    + split; [done|]. intros Hnone.
      apply single_user_scan_Some in Hw as (k & _ & Hk & Hc & _).
      destruct (Hnone w); [|done]. by eapply list_elem_of_lookup_2.
    + split; [|done]. intros _. by apply (single_user_scan_None checkpw full_hash s).
Qed.

End CrackersMore.

Lemma worker_reports_corpus_index_witness :
  (1 <= 2)%Z
  /\ (["bbbbbb"; "target"], "ta", 2%Z)
     ∈ chunk_args "ta" ["aaaaaa"; "tamper"; "bbbbbb"; "target"] 2
  /\ "ta" = "ta".
Proof.
  assert (H1 : (1 <= 2)%Z) by lia.
  assert (H2 : (["bbbbbb"; "target"], "ta", 2%Z)
               ∈ chunk_args "ta" ["aaaaaa"; "tamper"; "bbbbbb"; "target"] 2)
    by (vm_compute; right; left).
  split; [exact H1|]. split; [exact H2|].
  exact (proj1 (worker_reports_corpus_index truncating_checkpw "ta"
                  ["aaaaaa"; "tamper"; "bbbbbb"; "target"]
                  ["bbbbbb"; "target"] "ta" 2 2 H1 H2)).
Defined.

(** ** The grouper and the order of the parallel results *)

Section GrouperMore.

Local Open Scope Z_scope.

Lemma group_by_workfactor_lookup entries wf :
  group_by_workfactor entries !! wf
  = match filter (fun e => workfactor e = wf) entries with
    | [] => None
    | es => Some es
    end.
Proof.
  unfold group_by_workfactor.
  rewrite foldl_add_to_group_lookup, lookup_empty.
  by destruct (filter _ entries).
Qed.

Lemma sorted_keys_NoDup groups : NoDup (sorted_keys groups).
Proof.
  unfold sorted_keys, sorted_int. rewrite merge_sort_Permutation.
  apply NoDup_elements.
Qed.

Lemma filter_bind_filter (entries : list Entry) (keys : list Z) wf :
  NoDup keys ->
  filter (fun e => workfactor e = wf)
    (keys ≫= fun k => filter (fun e => workfactor e = k) entries)
  = if decide (wf ∈ keys)
    then filter (fun e => workfactor e = wf) entries else [].
Proof.
  induction 1 as [|k keys Hk Hnd IH]; [done|].
  cbn [mbind list_bind]. rewrite filter_app, IH, list_filter_filter.
  destruct (decide (wf = k)) as [->|Hne].
  - rewrite (decide_True (P := k ∈ k :: keys)) by left.
    rewrite (decide_False (P := k ∈ keys)) by done.
    rewrite app_nil_r. apply list_filter_iff. intros e. tauto.
  - assert (Hnil : filter (fun e => workfactor e = wf /\ workfactor e = k)
                     entries = []).
    { clear -Hne. induction entries as [|e es IHe]; [done|].
      rewrite filter_cons, decide_False by (intros [? ?]; congruence).
      exact IHe. }
    rewrite Hnil. simpl. destruct (decide (wf ∈ keys)).
    + by rewrite (decide_True (P := wf ∈ k :: keys)) by by right.
    + rewrite (decide_False (P := wf ∈ k :: keys)); [done|].
      by intros [?|?]%elem_of_cons.
Qed.

(** X9: the groups are the sublists of the batch, in input order, of the
    entries of one cost factor; no group is empty, a cost factor that does
    not occur has no group, and going through the groups in key order goes
    through every entry once. *)
Theorem groups_keep_input_order (entries : list Entry) :
  let groups := group_by_workfactor entries in
  (forall wf group,
     groups !! wf = Some group <->
     group <> [] /\ group = filter (fun e => workfactor e = wf) entries)
  /\ (forall wf, groups !! wf = None <->
                 forall e, e ∈ entries -> workfactor e <> wf)
  /\ (forall wf group, groups !! wf = Some group ->
        group `sublist_of` entries)
  /\ (sorted_keys groups ≫= fun wf => groups !!! wf) ≡ₚ entries
  /\ (size groups <= length entries)%nat.
Proof.
  intros groups. split_and!.
  - intros wf group. unfold groups. rewrite group_by_workfactor_lookup.
    destruct (filter _ entries) as [|e es] eqn:E.
    + split; [done|]. by intros [? ->].
    + split; [by intros [= <-]|]. by intros [_ ->].
  - intros wf. unfold groups. rewrite group_by_workfactor_lookup.
    destruct (filter _ entries) as [|e es] eqn:E.
    + split; [|done]. intros _ e He Hwf.
      assert (e ∈ filter (fun e => workfactor e = wf) entries) as Hin
        by by apply list_elem_of_filter.
      rewrite E in Hin. by apply elem_of_nil in Hin.
    + split; [done|]. intros Hno.
      assert (e ∈ filter (fun e => workfactor e = wf) entries) as Hin
        by (rewrite E; left).
      apply list_elem_of_filter in Hin as [Hwf Hin]. by destruct (Hno e).
  - intros wf group. unfold groups. rewrite group_by_workfactor_lookup.
    destruct (filter _ entries) as [|e es] eqn:E; [done|].
    intros [= <-]. rewrite <- E. apply sublist_filter.
  - unfold groups.
    etrans; [|apply (groups_cover entries
                       (sorted_keys (group_by_workfactor entries)))].
    + apply reflexive_eq.
      induction (sorted_keys (group_by_workfactor entries)) as [|k ks IH];
        [done|].
      cbn [mbind list_bind].
      by rewrite IH, group_by_workfactor_lookup_total.
    + apply sorted_keys_NoDup.
    + intros e He. apply elem_of_sorted_keys. by exists e.
  - unfold groups. rewrite <- size_dom, group_by_workfactor_dom.
    clear. induction entries as [|e es IH]; [done|].
    rewrite fmap_cons, list_to_set_cons, size_union_alt, size_singleton.
    simpl.
    pose proof (subseteq_size
                  ((list_to_set (workfactor <$> es) : gset Z)
                     ∖ {[workfactor e]})
                  (list_to_set (workfactor <$> es))
                  ltac:(apply subseteq_difference_l; done)).
    lia.
Qed.

End GrouperMore.

(** ** The orchestrators: errors, order of the results, logs *)

Section OrchestratorMore.

Local Open Scope Z_scope.

Context (checkpw : string -> string -> option bool) (cpu_count : Z).

Lemma sorted_keys_cons_group entries e :
  exists wf keys e' group,
    sorted_keys (group_by_workfactor (e :: entries)) = wf :: keys
    /\ group_by_workfactor (e :: entries) !!! wf = e' :: group.
Proof.
  destruct (sorted_keys (group_by_workfactor (e :: entries)))
    as [|wf keys] eqn:E.
  - assert (workfactor e ∈ sorted_keys (group_by_workfactor (e :: entries)))
      as Hin by (apply elem_of_sorted_keys; exists e; split; [left|done]).
    rewrite E in Hin. by apply elem_of_nil in Hin.
  - assert (wf ∈ sorted_keys (group_by_workfactor (e :: entries))) as Hin
      by (rewrite E; left).
    apply elem_of_sorted_keys in Hin as (e' & Hin & Hwf).
    pose proof (group_by_workfactor_lookup_total (e :: entries) wf) as Hg.
    destruct (filter _ (e :: entries)) as [|e'' group] eqn:Ef.
    + assert (e' ∈ filter (fun x => workfactor x = wf) (e :: entries))
        as Hf by by apply list_elem_of_filter.
      rewrite Ef in Hf. by apply elem_of_nil in Hf.
    + by exists wf, keys, e'', group.
Qed.

(** X10: the parallel orchestrator fails for lack of workers only when there is
    something to crack: with an empty batch it returns no result whatever
    the number of processes; with a non-empty batch it raises
    [ZeroDivisionError] for 0 processes and [ValueError] for a negative
    number, before any result is kept; with at least one process it
    returns. The number of processes is [cpu_count()] when none is
    given. *)
Theorem parallel_orchestrator_needs_a_worker (picks : string -> list nat)
    (entries : list Entry) (word_list : list string)
    (num_processes : option Z) :
  let N := default cpu_count num_processes in
  let outcome_ :=
    crack_by_workfactor_group_parallel checkpw cpu_count picks entries
      word_list num_processes in
  (entries = [] -> outcome_ = Returned {| log := []; results := [] |})
  /\ (entries <> [] -> N = 0 -> outcome_ = Raised ZeroDivisionError)
  /\ (entries <> [] -> N < 0 -> outcome_ = Raised ValueError)
  /\ (1 <= N -> exists run, outcome_ = Returned run
                            /\ length (results run) = length entries).
Proof.
  intros N outcome_. unfold outcome_, crack_by_workfactor_group_parallel.
  fold N. split_and!.
  - intros ->. done.
  - intros Hne HN. destruct entries as [|e entries]; [done|].
    destruct (sorted_keys_cons_group entries e)
      as (wf & keys & e' & group & -> & Hg).
    cbn [crack_groups_parallel]. rewrite Hg. cbn [crack_group_parallel].
    unfold crack_user_parallel. by rewrite HN.
  - intros Hne HN. destruct entries as [|e entries]; [done|].
    destruct (sorted_keys_cons_group entries e)
      as (wf & keys & e' & group & -> & Hg).
    cbn [crack_groups_parallel]. rewrite Hg. cbn [crack_group_parallel].
    unfold crack_user_parallel.
    destruct (Z.eqb_spec N 0); [lia|]. destruct (Z.ltb_spec N 1); [|lia].
    done.
  - intros HN. rewrite crack_groups_parallel_eq by done.
    eexists. split; [done|]. simpl.
    by rewrite expected_by_group, length_fmap.
Qed.

(** X11: the parallel orchestrator lists its results by ascending cost factor
    and, within one cost factor, in the order of the batch: the results
    are, position by position, the prescribed results of the entries
    arranged in that way. *)
Theorem parallel_results_in_batch_order (picks : string -> list nat)
    (entries : list Entry) (word_list : list string)
    (num_processes : option Z)
    (HN : 1 <= default cpu_count num_processes) :
  exists run ordered,
    crack_by_workfactor_group_parallel checkpw cpu_count picks entries
      word_list num_processes = Returned run
    /\ Forall2 (prescribed checkpw word_list) ordered (results run)
    /\ Result.user <$> results run = user <$> ordered
    /\ ordered ≡ₚ entries
    /\ StronglySorted Z.le (workfactor <$> ordered)
    /\ forall wf,
         filter (fun e => workfactor e = wf) ordered
         = filter (fun e => workfactor e = wf) entries.
Proof.
  unfold crack_by_workfactor_group_parallel.
  rewrite crack_groups_parallel_eq by done. simpl.
  set (keys := sorted_keys (group_by_workfactor entries)).
  exists {| log := [] ++
              ((fun wf => {| header_workfactor := wf;
                             header_users :=
                               length (group_by_workfactor entries !!! wf);
                             header_cores :=
                               Some (default cpu_count num_processes) |})
                 <$> keys);
            results :=
              keys ≫= fun wf => expected_result checkpw word_list wf
                                  <$> group_by_workfactor entries !!! wf |},
         (keys ≫= fun wf => filter (fun e => workfactor e = wf) entries).
  assert (Hres :
    (keys ≫= fun wf => expected_result checkpw word_list wf
                         <$> group_by_workfactor entries !!! wf)
    = (fun e => expected_result checkpw word_list (workfactor e) e)
        <$> (keys ≫= fun wf => filter (fun e => workfactor e = wf) entries)).
  { induction keys as [|wf ks IH]; [done|].
    cbn [mbind list_bind]. rewrite fmap_app, IH. f_equal.
    rewrite group_by_workfactor_lookup_total. apply list_fmap_ext.
    intros ? e He%list_elem_of_lookup_2.
    apply list_elem_of_filter in He as [<- _]. done. }
  cbn [results]. rewrite Hres. split_and!.
  - done.
  - apply Forall2_fmap_r, Forall_Forall2_diag, Forall_forall.
    intros e _. apply expected_prescribed.
  - rewrite <- list_fmap_compose. apply list_fmap_ext. intros ? e _. simpl.
    unfold expected_result, result_of.
    by destruct (single_user_scan _ _ _ _) as [[? ?]|].
  - apply groups_cover; [apply sorted_keys_NoDup|].
    intros e He. apply elem_of_sorted_keys. by exists e.
  - pose proof (sorted_keys_strict (group_by_workfactor entries)) as Hs.
    fold keys in Hs. clear Hres.
    induction Hs as [|k ks Hs IH Hk]; [constructor|].
    cbn [mbind list_bind]. rewrite fmap_app. apply StronglySorted_app_2.
    + intros x1 x2 (e1 & -> & [<- _]%list_elem_of_filter)%list_elem_of_fmap
                   (e2 & -> & He2)%list_elem_of_fmap.
      apply list_elem_of_bind in He2 as (k2 & [<- _]%list_elem_of_filter & Hk2).
      pose proof (proj1 (Forall_forall _ _) Hk _ Hk2). lia.
    + assert (Forall (fun e => workfactor e = k)
                (filter (fun e => workfactor e = k) entries)) as Hall.
      { apply Forall_forall. by intros e [? _]%list_elem_of_filter. }
      clear -Hall. induction Hall as [|e l He Hall IH]; csimpl; constructor.
      * done.
      * rewrite Forall_fmap. eapply Forall_impl; [exact Hall|].
        simpl. intros e' ->. lia.
    + exact IH.
  - intros wf. unfold keys.
    rewrite filter_bind_filter by apply sorted_keys_NoDup.
    case_decide as Hin; [done|]. symmetry.
    destruct (filter (fun e => workfactor e = wf) entries) as [|e es] eqn:E;
      [done|]. destruct Hin. apply elem_of_sorted_keys. exists e.
    assert (e ∈ filter (fun e => workfactor e = wf) entries) as Hf
      by (rewrite E; left).
    by apply list_elem_of_filter in Hf as [? ?].
Qed.

End OrchestratorMore.

Section SequentialMore.

Local Open Scope Z_scope.

Context (checkpw : string -> string -> option bool) (cpu_count : Z).

Lemma length_bind_filter (entries : list Entry) (keys : list Z) :
  length (keys ≫= fun wf => filter (fun e => workfactor e = wf) entries)
  = sum_list ((fun wf => length (filter (fun e => workfactor e = wf) entries))
                <$> keys).
Proof.
  induction keys as [|k ks IH]; [done|].
  cbn [mbind list_bind]. rewrite length_app, IH. done.
Qed.

(** X12: both orchestrators log one header per cost factor of the batch, in
    ascending order, with the number of entries of that cost factor, which
    is at least one; the numbers add up to the size of the batch. The logs
    of the two differ in the number of cores only. *)
Theorem headers_count_the_batch (picks : string -> list nat)
    (entries : list Entry) (word_list : list string)
    (num_processes : option Z)
    (HN : 1 <= default cpu_count num_processes) :
  let seq_log := log (crack_by_workfactor_group checkpw entries word_list) in
  seq_log
  = (fun wf => {| header_workfactor := wf;
                  header_users :=
                    length (filter (fun e => workfactor e = wf) entries);
                  header_cores := None |})
      <$> sorted_keys (group_by_workfactor entries)
  /\ sum_list (header_users <$> seq_log) = length entries
  /\ Forall (fun h => (1 <= header_users h)%nat) seq_log
  /\ exists run,
       crack_by_workfactor_group_parallel checkpw cpu_count picks entries
         word_list num_processes = Returned run
       /\ log run
          = (fun h => {| header_workfactor := header_workfactor h;
                         header_users := header_users h;
                         header_cores :=
                           Some (default cpu_count num_processes) |})
              <$> seq_log.
Proof.
  intros seq_log.
  assert (Hlog : seq_log
    = (fun wf => {| header_workfactor := wf;
                    header_users :=
                      length (filter (fun e => workfactor e = wf) entries);
                    header_cores := None |})
        <$> sorted_keys (group_by_workfactor entries)).
  { unfold seq_log, crack_by_workfactor_group. rewrite crack_groups_log.
    simpl. apply list_fmap_ext. intros ? wf _.
    by rewrite group_by_workfactor_lookup_total. }
  split_and!; [done|..].
  - rewrite Hlog, <- list_fmap_compose.
    etrans; [symmetry; apply length_bind_filter|].
    apply Permutation_length, groups_cover;
      [apply sorted_keys_NoDup|].
    intros e He. apply elem_of_sorted_keys. by exists e.
  - rewrite Hlog. apply Forall_fmap, Forall_forall. intros wf Hwf. simpl.
    apply elem_of_sorted_keys in Hwf as (e & He & Hwf).
    assert (e ∈ filter (fun e => workfactor e = wf) entries) as Hf
      by by apply list_elem_of_filter.
    destruct (filter _ entries); [by apply elem_of_nil in Hf|simpl; lia].
  - unfold crack_by_workfactor_group_parallel.
    rewrite crack_groups_parallel_eq by done. eexists. split; [done|].
    cbn [log app]. rewrite Hlog, <- list_fmap_compose. apply list_fmap_ext.
    intros ? wf _. cbn [compose header_workfactor header_users].
    by rewrite group_by_workfactor_lookup_total.
Qed.

(** *** The order of the sequential results *)

Lemma scan_words_found wf i word_list remaining results :
  exists found,
    (scan_words checkpw wf i word_list remaining results).2
    = results ++ found
    /\ Forall (fun r => Result.workfactor r = wf
                        /\ is_Some (Result.password r)
                        /\ i + 1 <= Result.attempts r
                           <= i + Z.of_nat (length word_list)) found
    /\ StronglySorted (fun r1 r2 => Result.attempts r1 <= Result.attempts r2)
         found.
Proof.
  revert i remaining results.
  induction word_list as [|word rest IH]; intros i remaining results.
  - exists []. simpl. rewrite app_nil_r. by split_and!; constructor.
  - destruct remaining as [|kv0 d0].
    + exists []. simpl. rewrite app_nil_r. by split_and!; constructor.
    + cbn [scan_words].
      set (d := foldl _ (kv0 :: d0) _).
      set (new := _ <$> filter _ (kv0 :: d0)).
      destruct (IH (i + 1) d (results ++ new)) as (found & -> & Hall & Hs).
      exists (new ++ found).
      assert (Hnew : Forall (fun r => Result.workfactor r = wf
                        /\ is_Some (Result.password r)
                        /\ Result.attempts r = i + 1) new).
      { apply Forall_fmap, Forall_forall. intros kv _.
        cbn [compose Result.workfactor Result.password Result.attempts].
        split_and!; [done|by eexists|done]. }
      clearbody new d.
      cbn [length]. split_and!.
      * by rewrite <- app_assoc.
      * apply Forall_app. split.
        -- eapply Forall_impl; [exact Hnew|]. cbn beta.
           intros r (? & ? & ->). split_and!; [done..| |]; lia.
        -- eapply Forall_impl; [exact Hall|]. cbn beta.
           intros r (? & ? & ?). split_and!; [done..| |]; lia.
      * apply StronglySorted_app_2; [| |done].
        -- intros r1 r2 Hr1 Hr2.
           pose proof (proj1 (Forall_forall _ _) Hnew r1 Hr1) as (_ & _ & ->).
           pose proof (proj1 (Forall_forall _ _) Hall r2 Hr2) as (_ & _ & ?).
           lia.
        -- clear -Hnew. induction Hnew as [|r l Hr Hl IH]; constructor;
             [done|].
           eapply Forall_impl; [exact Hl|]. cbn beta. intros r' (_ & _ & ->).
           destruct Hr as (_ & _ & ->). lia.
Qed.

(** X13: the sequential orchestrator appends the results group by group in
    ascending cost factor, and within a group in the order of discovery:
    first the passwords found, by ascending attempt count, then the users
    whose password was not found, with the length of the word list as
    attempts. *)
Theorem sequential_results_by_discovery (entries : list Entry)
    (word_list : list string) :
  exists parts,
    results (crack_by_workfactor_group checkpw entries word_list)
    = concat parts
    /\ Forall2
         (fun wf part =>
            exists found missing,
              part = found ++ missing
              /\ Forall (fun r => Result.workfactor r = wf
                          /\ is_Some (Result.password r)
                          /\ 1 <= Result.attempts r
                             <= Z.of_nat (length word_list)) found
              /\ StronglySorted
                   (fun r1 r2 => Result.attempts r1 <= Result.attempts r2)
                   found
              /\ Forall (fun r => Result.workfactor r = wf
                          /\ Result.password r = None
                          /\ Result.attempts r
                             = Z.of_nat (length word_list)) missing)
         (sorted_keys (group_by_workfactor entries)) parts.
Proof.
  unfold crack_by_workfactor_group.
  generalize (group_by_workfactor entries). intros groups.
  assert (H : forall keys run, exists parts,
    results (crack_groups checkpw word_list groups keys run)
    = results run ++ concat parts
    /\ Forall2
         (fun wf part =>
            exists found missing,
              part = found ++ missing
              /\ Forall (fun r => Result.workfactor r = wf
                          /\ is_Some (Result.password r)
                          /\ 1 <= Result.attempts r
                             <= Z.of_nat (length word_list)) found
              /\ StronglySorted
                   (fun r1 r2 => Result.attempts r1 <= Result.attempts r2)
                   found
              /\ Forall (fun r => Result.workfactor r = wf
                          /\ Result.password r = None
                          /\ Result.attempts r
                             = Z.of_nat (length word_list)) missing)
         keys parts).
  { induction keys as [|wf keys IH]; intros run.
    - exists []. cbn [crack_groups concat]. rewrite app_nil_r.
      split; [done|constructor].
    - cbn [crack_groups].
      set (run' := Build_Run _ _).
      destruct (IH run') as (parts & -> & Hparts). subst run'.
      cbn [results]. unfold crack_group.
      destruct (scan_words_found wf 0 word_list
                  (users_dict (groups !!! wf)) (results run))
        as (found & Hfound & Hall & Hs).
      destruct (scan_words checkpw wf 0 word_list
                  (users_dict (groups !!! wf)) (results run))
        as [remaining results'].
      cbn [snd] in Hfound. subst results'.
      set (missing := _ <$> remaining).
      exists ((found ++ missing) :: parts). split.
      + cbn [concat]. by rewrite <- !app_assoc.
      + constructor; [|done]. exists found, missing.
        split_and!; [done| |done|].
        * eapply Forall_impl; [exact Hall|]. cbn beta. intros r (?&?&?).
          split_and!; [done..| |]; lia.
        * apply Forall_fmap, Forall_forall. by intros kv _. }
  destruct (H (sorted_keys groups) {| log := []; results := [] |})
    as (parts & Hres & Hparts).
  by exists parts.
Qed.

End SequentialMore.

(** ** User names that occur twice, and the two modes side by side *)

Section Duplicates.

Local Open Scope Z_scope.

Context (checkpw : string -> string -> option bool) (cpu_count : Z).

Lemma last_snoc_filter (P : Entry -> Prop) `{!forall e, Decision (P e)}
    (l : list Entry) x :
  last (filter P (l ++ [x]))
  = if decide (P x) then Some x else last (filter P l).
Proof.
  rewrite filter_app, filter_cons, filter_nil.
  destruct (decide (P x)); [by rewrite last_snoc|by rewrite app_nil_r].
Qed.

Lemma dict_set_elem k v (d : list (string * Entry)) k' e :
  NoDup d.*1 ->
  (k', e) ∈ dict_set k v d <->
  (k' = k /\ e = v) \/ (k' <> k /\ (k', e) ∈ d).
Proof.
  intros Hnd. unfold dict_set. destruct (decide (k ∈ d.*1)) as [Hin|Hnin].
  - rewrite list_elem_of_fmap. split.
    + intros ([k1 e1] & Heq & Hin1). simpl in Heq.
      destruct (decide (k1 = k)) as [->|Hne]; simplify_eq; [by left|].
      right. done.
    + intros [[-> ->]|[Hne Hin1]].
      * apply list_elem_of_fmap in Hin as ([k1 e1] & -> & Hin1).
        exists (k1, e1). simpl. by rewrite decide_True.
      * exists (k', e). simpl. by rewrite decide_False.
  - rewrite elem_of_app, list_elem_of_singleton. split.
    + intros [Hin|[= -> ->]]; [|by left]. right. split; [|done].
      intros ->. apply Hnin. apply list_elem_of_fmap. by exists (k, e).
    + intros [[-> ->]|[_ ?]]; [by right|by left].
Qed.

Lemma dict_set_NoDup k v (d : list (string * Entry)) :
  NoDup d.*1 -> NoDup (dict_set k v d).*1.
Proof.
  intros Hnd. unfold dict_set. destruct (decide (k ∈ d.*1)) as [Hin|Hnin].
  - rewrite <- list_fmap_compose.
    assert ((fst ∘ (fun kv : string * Entry =>
                      if decide (kv.1 = k) then (k, v) else kv)) <$> d
            = d.*1) as ->; [|done].
    apply list_fmap_ext. intros ? [k1 e1] _. simpl.
    by destruct (decide (k1 = k)) as [->|].
  - rewrite fmap_app. apply NoDup_app. split_and!; [done| |].
    + intros x Hx [->|[]%elem_of_nil]%elem_of_cons. done.
    + simpl. apply NoDup_singleton.
Qed.

(** The dict of a group holds, for every user name of the group, the last
    entry of that name. *)
Lemma users_dict_spec (group : list Entry) :
  NoDup (users_dict group).*1
  /\ forall k e,
       (k, e) ∈ users_dict group
       <-> last (filter (fun x => user x = k) group) = Some e.
Proof.
  unfold users_dict. rewrite <- (reverse_involutive group).
  induction (reverse group) as [|x l [IHnd IH]]; [split; [constructor|]|].
  - intros k e. simpl. split; [by intros ?%elem_of_nil|done].
  - rewrite reverse_cons, foldl_app. cbn [foldl]. split.
    + by apply dict_set_NoDup.
    + intros k e. rewrite dict_set_elem by done. rewrite last_snoc_filter.
      rewrite IH. destruct (decide (user x = k)) as [<-|Hne].
      * split; [intros [[_ ->]|[? _]]; done|]. intros [= <-]. by left.
      * split; [intros [[-> _]|[_ ?]]; done|]. intros ?. right. by split.
Qed.

Lemma last_filter_Some (P : Entry -> Prop) `{!forall e, Decision (P e)}
    (l : list Entry) e :
  last (filter P l) = Some e -> P e /\ e ∈ l.
Proof.
  intros Hlast. assert (e ∈ filter P l) as Hin.
  { destruct (filter P l) as [|y ys _] using rev_ind; [done|].
    rewrite last_snoc in Hlast. injection Hlast as ->.
    apply elem_of_app. right. left. }
  by apply list_elem_of_filter in Hin.
Qed.

(** X14: without any assumption on the user names, the sequential orchestrator
    keeps one record per user name within a cost factor, the last of that
    name in the batch, and returns the prescribed result of every record it
    keeps, in some order; the others get no result. So it returns at most
    one result per record of the batch. *)
Theorem sequential_keeps_last_record_of_a_name (entries : list Entry)
    (word_list : list string) :
  exists kept rs,
    results (crack_by_workfactor_group checkpw entries word_list) ≡ₚ rs
    /\ Forall2 (prescribed checkpw word_list) kept rs
    /\ (forall e,
          e ∈ kept <->
          last (filter (fun x => workfactor x = workfactor e
                                 /\ user x = user e) entries) = Some e)
    /\ NoDup kept
    /\ kept ⊆ entries
    /\ (length rs <= length entries)%nat.
Proof.
  set (keys := sorted_keys (group_by_workfactor entries)).
  set (kept_of := fun wf : Z =>
         (users_dict (filter (fun e => workfactor e = wf) entries)).*2).
  exists (keys ≫= kept_of),
         ((fun e => expected_result checkpw word_list (workfactor e) e)
            <$> (keys ≫= kept_of)).
  assert (Hkept : forall wf e,
    e ∈ kept_of wf <->
    last (filter (fun x => user x = user e)
            (filter (fun x => workfactor x = wf) entries)) = Some e).
  { intros wf e. unfold kept_of.
    destruct (users_dict_spec (filter (fun x => workfactor x = wf) entries))
      as [_ Hspec].
    rewrite list_elem_of_fmap. split.
    - intros ([k e'] & -> & Hin). simpl. pose proof Hin as Hin'.
      apply Hspec in Hin. apply last_filter_Some in Hin as [<- _].
      by apply Hspec.
    - intros Hl. exists (user e, e). split; [done|]. by apply Hspec. }
  assert (Hwf : forall wf e, e ∈ kept_of wf -> workfactor e = wf /\ e ∈ entries).
  { intros wf e [_ He]%Hkept%last_filter_Some.
    by apply list_elem_of_filter in He. }
  assert (Hin : forall e,
    e ∈ keys ≫= kept_of <->
    last (filter (fun x => workfactor x = workfactor e /\ user x = user e)
            entries) = Some e).
  { intros e. rewrite list_elem_of_bind. split.
    - intros (wf & He & _). destruct (Hwf _ _ He) as [<- _].
      apply Hkept in He. rewrite list_filter_filter in He.
      rewrite <- He. f_equal. apply list_filter_iff. tauto.
    - intros Hl. exists (workfactor e). split.
      + apply Hkept. rewrite list_filter_filter, <- Hl. f_equal.
        apply list_filter_iff. tauto.
      + apply last_filter_Some in Hl as [_ ?].
        apply elem_of_sorted_keys. by exists e. }
  assert (Hnd : NoDup (keys ≫= kept_of)).
  { clear Hin.
    pose proof (sorted_keys_NoDup (group_by_workfactor entries)) as Hk.
    fold keys in Hk. induction Hk as [|k ks Hnin Hk IH]; [constructor|].
    cbn [mbind list_bind]. apply NoDup_app. split_and!.
    - unfold kept_of.
      destruct (users_dict_spec (filter (fun x => workfactor x = k) entries))
        as [Hkeys Hspec].
      apply (NoDup_fmap_1 user). rewrite <- list_fmap_compose.
      assert ((user ∘ snd) <$>
                users_dict (filter (fun x => workfactor x = k) entries)
              = (users_dict (filter (fun x => workfactor x = k) entries)).*1)
        as ->; [|done].
      apply list_fmap_ext. intros ? [k' e'] Hl%list_elem_of_lookup_2. simpl.
      apply Hspec in Hl. by apply last_filter_Some in Hl as [? _].
    - intros e He (k' & He' & Hk')%list_elem_of_bind.
      destruct (Hwf _ _ He) as [<- _]. destruct (Hwf _ _ He') as [<- _].
      done.
    - exact IH. }
  assert (Hsub : keys ≫= kept_of ⊆ entries).
  { intros e (wf & He & _)%list_elem_of_bind. by destruct (Hwf _ _ He). }
  split_and!; try done.
  - unfold crack_by_workfactor_group. fold keys.
    assert (Hgen : forall ks run,
      results (crack_groups checkpw word_list (group_by_workfactor entries)
                 ks run)
      ≡ₚ results run ++
           ((fun e => expected_result checkpw word_list (workfactor e) e)
              <$> (ks ≫= kept_of))).
    { induction ks as [|wf ks IH]; intros run.
      - simpl. by rewrite app_nil_r.
      - cbn [crack_groups mbind list_bind]. rewrite IH. cbn [results].
        rewrite fmap_app, app_assoc. f_equiv.
        unfold crack_group. rewrite group_by_workfactor_lookup_total.
        destruct (users_dict_spec
                    (filter (fun x => workfactor x = wf) entries))
          as [Hkeys Hspec].
        pose proof (scan_words_perm checkpw wf
                      (Z.of_nat (length word_list)) 0 word_list
                      (users_dict
                         (filter (fun x => workfactor x = wf) entries))
                      (results run) Hkeys) as Hperm.
        destruct (scan_words checkpw wf 0 word_list _ (results run))
          as [remaining results'].
        simpl in Hperm. unfold result_of in Hperm at 1. rewrite Hperm.
        f_equiv. unfold kept_of. rewrite <- list_fmap_compose.
        apply reflexive_eq, list_fmap_ext.
        intros ? [k e] Hl%list_elem_of_lookup_2. simpl.
        pose proof Hl as Hl'. apply Hspec in Hl.
        apply last_filter_Some in Hl as [<- [<- _]%list_elem_of_filter].
        done. }
    apply (Hgen keys {| log := []; results := [] |}).
  - apply Forall2_fmap_r, Forall_Forall2_diag, Forall_forall.
    intros e _. apply expected_prescribed.
  - rewrite length_fmap. apply NoDup_submseteq in Hsub; [|done].
    by apply submseteq_length.
Qed.

(** X15: with distinct user names and at least one worker, the two orchestrators
    return the same results up to order, one per entry of the batch; and
    entries that differ in the user name get results that differ. *)
Theorem parallel_and_sequential_agree (picks : string -> list nat)
    (entries : list Entry) (word_list : list string)
    (num_processes : option Z)
    (HN : 1 <= default cpu_count num_processes)
    (Hnd : NoDup (user <$> entries)) :
  exists run,
    crack_by_workfactor_group_parallel checkpw cpu_count picks entries
      word_list num_processes = Returned run
    /\ results run
       ≡ₚ results (crack_by_workfactor_group checkpw entries word_list)
    /\ length (results run) = length entries
    /\ NoDup (Result.user <$> results run)
    /\ Result.user <$> results run ≡ₚ user <$> entries.
Proof.
  unfold crack_by_workfactor_group_parallel, crack_by_workfactor_group.
  rewrite crack_groups_parallel_eq by done. eexists. split; [done|]. simpl.
  rewrite crack_groups_perm by (intros wf _; by apply NoDup_group_users).
  simpl. rewrite expected_by_group.
  assert (Huser : Result.user <$>
            ((fun e => expected_result checkpw word_list (workfactor e) e)
               <$> entries) = user <$> entries).
  { rewrite <- list_fmap_compose. apply list_fmap_ext. intros ? e _. simpl.
    unfold expected_result, result_of.
    by destruct (single_user_scan _ _ _ _) as [[? ?]|]. }
  split_and!; [done|by rewrite length_fmap|by rewrite Huser|by rewrite Huser].
Qed.

End Duplicates.

(** ** The orchestrator properties on the sample batch *)

Lemma parallel_orchestrator_needs_a_worker_witness :
  crack_by_workfactor_group_parallel truncating_checkpw 4 (fun _ => [1%nat])
    [] sample_words (Some 0%Z)
  = Returned {| log := []; results := [] |}
  /\ crack_by_workfactor_group_parallel truncating_checkpw 4
       (fun _ => [1%nat]) sample_entries sample_words (Some 0%Z)
     = Raised ZeroDivisionError
  /\ crack_by_workfactor_group_parallel truncating_checkpw 4
       (fun _ => [1%nat]) sample_entries sample_words (Some (-3)%Z)
     = Raised ValueError
  /\ exists run,
       crack_by_workfactor_group_parallel truncating_checkpw 4
         (fun _ => [1%nat]) sample_entries sample_words None
       = Returned run
       /\ length (results run) = length sample_entries.
Proof.
  split_and!.
  - apply (parallel_orchestrator_needs_a_worker truncating_checkpw 4
             (fun _ => [1%nat]) [] sample_words (Some 0%Z)).
    reflexivity.
  - apply (parallel_orchestrator_needs_a_worker truncating_checkpw 4
             (fun _ => [1%nat]) sample_entries sample_words (Some 0%Z)).
    + discriminate.
    + reflexivity.
  - apply (parallel_orchestrator_needs_a_worker truncating_checkpw 4
             (fun _ => [1%nat]) sample_entries sample_words (Some (-3)%Z)).
    + discriminate.
    + reflexivity.
  - apply (parallel_orchestrator_needs_a_worker truncating_checkpw 4
             (fun _ => [1%nat]) sample_entries sample_words None).
    vm_compute. discriminate.
Defined.

Lemma parallel_results_in_batch_order_witness :
  (1 <= default 4 (Some 2))%Z
  /\ exists run ordered,
       crack_by_workfactor_group_parallel truncating_checkpw 4
         (fun _ => [1%nat]) sample_entries sample_words (Some 2%Z)
       = Returned run
       /\ Forall2 (prescribed truncating_checkpw sample_words) ordered
            (results run)
       /\ Result.user <$> results run = user <$> ordered
       /\ ordered ≡ₚ sample_entries
       /\ StronglySorted Z.le (workfactor <$> ordered)
       /\ forall wf,
            filter (fun e => workfactor e = wf) ordered
            = filter (fun e => workfactor e = wf) sample_entries.
Proof.
  split; [vm_compute; discriminate|].
  apply (parallel_results_in_batch_order truncating_checkpw 4
           (fun _ => [1%nat]) sample_entries sample_words (Some 2%Z)).
  vm_compute. discriminate.
Defined.

Lemma headers_count_the_batch_witness :
  (1 <= default 4 (Some 2))%Z
  /\ sum_list
       (header_users
          <$> log (crack_by_workfactor_group truncating_checkpw
                     sample_entries sample_words))
     = length sample_entries.
Proof.
  split; [vm_compute; discriminate|].
  apply (headers_count_the_batch truncating_checkpw 4 (fun _ => [1%nat])
           sample_entries sample_words (Some 2%Z)).
  vm_compute. discriminate.
Defined.

Lemma parallel_and_sequential_agree_witness :
  (1 <= default 4 (Some 2))%Z
  /\ NoDup (user <$> sample_entries)
  /\ exists run,
       crack_by_workfactor_group_parallel truncating_checkpw 4
         (fun _ => [1%nat]) sample_entries sample_words (Some 2%Z)
       = Returned run
       /\ results run
          ≡ₚ results (crack_by_workfactor_group truncating_checkpw
                        sample_entries sample_words)
       /\ length (results run) = length sample_entries
       /\ NoDup (Result.user <$> results run)
       /\ Result.user <$> results run ≡ₚ user <$> sample_entries.
Proof.
  assert (Hnd : NoDup (user <$> sample_entries))
    by (apply (bool_decide_unpack _); vm_compute; exact I).
  split; [vm_compute; discriminate|]. split; [exact Hnd|].
  apply (parallel_and_sequential_agree truncating_checkpw 4
           (fun _ => [1%nat]) sample_entries sample_words (Some 2%Z));
    [vm_compute; discriminate|exact Hnd].
Defined.
(** ** The command line *)

Section CommandLine.

Local Open Scope Z_scope.

Lemma isdigit_char_facts c :
  isdigit_char c = true ->
  Py.int_space c = false
  /\ Ascii.eqb c "-" = false /\ Ascii.eqb c "+" = false
  /\ Ascii.eqb c "_" = false.
Proof.
  destruct c as [[] [] [] [] [] [] [] []]; vm_compute;
    first [by intros [=] | intros _; split_and!; congruence].
Qed.

Lemma isdigit_isdigit_char c : Py.isdigit c = true -> isdigit_char c = true.
Proof.
  unfold isdigit_char, Py.isdigit. cbn zeta. intros ->. done.
Qed.

Lemma all_isdigit_get s k c :
  all_isdigit s = true -> String.get k s = Some c -> isdigit_char c = true.
Proof.
  revert k. induction s as [|c' s IH]; intros k Hall; [done|].
  simpl in Hall. apply andb_true_iff in Hall as [Hc Hall].
  destruct k as [|k]; simpl.
  - by intros [= <-].
  - by apply IH.
Qed.

Lemma int_digits_superscript s sep acc :
  all_isdigit s = true -> Py.all_digits s = false ->
  Py.int_digits sep acc s = None.
Proof.
  revert sep acc. induction s as [|c s IH]; intros sep acc Hall Hd; [done|].
  simpl in Hall, Hd. apply andb_true_iff in Hall as [Hc Hall].
  destruct (isdigit_char_facts c Hc) as (_ & _ & _ & Hu).
  simpl. destruct (Py.isdigit c).
  - by apply IH.
  - by rewrite Hu.
Qed.

(** [int] reads a string that passes [isdigit] as a run of digits, unless
    there are more than the interpreter allows. *)
Lemma int_isdigit s :
  all_isdigit s = true ->
  Py.int s
  = if (Py.int_max_str_digits <? Py.digit_count s)%N then None
    else Py.int_digits true 0 s.
Proof.
  intros Hall. unfold Py.int.
  assert (Hl : Py.int_lskip s = s).
  { destruct s as [|c s]; [done|]. simpl.
    pose proof (all_isdigit_get _ 0%nat c Hall eq_refl) as Hc.
    by destruct (isdigit_char_facts c Hc) as (-> & _). }
  rewrite Hl, int_rskip_id.
  - cbn zeta. destruct (_ <? _)%N; [done|].
    destruct s as [|c s]; [done|].
    pose proof (all_isdigit_get _ 0%nat c Hall eq_refl) as Hc.
    destruct (isdigit_char_facts c Hc) as (_ & Hm & Hp & _).
    destruct c as [[] [] [] [] [] [] [] []]; try done.
  - intros k c Hk. pose proof (all_isdigit_get _ _ _ Hall Hk) as Hc.
    by destruct (isdigit_char_facts c Hc) as (-> & _).
Qed.

Lemma all_digits_all_isdigit s : Py.all_digits s = true -> all_isdigit s = true.
Proof.
  induction s as [|c s IH]; [done|]. simpl.
  intros [Hc Hs]%andb_true_iff. by rewrite isdigit_isdigit_char, IH.
Qed.

Lemma str_isdigit_all s : str_isdigit s = true -> all_isdigit s = true.
Proof. by destruct s. Qed.

(** What [int] makes of a string that passes [isdigit]. *)
Lemma int_of_isdigit s :
  str_isdigit s = true ->
  (Py.all_digits s = true /\ Z.of_nat (String.length s) <= 4300
   /\ exists v, Py.int s = Some v /\ 0 <= v)
  \/ ((Py.all_digits s = false \/ 4300 < Z.of_nat (String.length s))
      /\ Py.int s = None).
Proof.
  intros Hs. pose proof (str_isdigit_all s Hs) as Hall.
  rewrite (int_isdigit s Hall).
  destruct (Py.all_digits s) eqn:Hd.
  - rewrite digit_count_all_digits by done. unfold Py.int_max_str_digits.
    destruct (N.ltb_spec 4300 (N.of_nat (String.length s))) as [Hlt|Hle].
    + right. split; [right; lia|done].
    + left. split_and!; [done|lia|]. apply int_digits_ascii; [done|lia|].
      left. by destruct s.
  - right. split; [by left|]. destruct (_ <? _)%N; [done|].
    by apply int_digits_superscript.
Qed.




(** X17: when the script goes on to [main], the number of cores it passes is
    never negative, [cpu_count()] being at least 1; it is 0, the
    sequential mode, when [--parallel] is absent, and a number given after
    [--parallel] is made of decimal digits; the background flag tells
    whether [--background] occurs anywhere. *)
Theorem command_line_worker_count (cpu_count : Z) (argv : list string)
    (background : bool) (parallel : Z)
    (Hcpu : 1 <= cpu_count)
    (Hmain : parse_command_line cpu_count argv
             = Returned (Main background parallel)) :
  0 <= parallel
  /\ (background = true <-> "--background" ∈ argv)
  /\ ("--parallel" ∉ argv -> parallel = 0)
  /\ (parallel = cpu_count
      \/ parallel = 0
      \/ exists arg, arg ∈ argv /\ Py.all_digits arg = true
                     /\ Py.int arg = Some parallel).
Proof.
  unfold parse_command_line in Hmain.
  destruct (_ && _); [done|].
  assert (Hb : forall b : bool,
            b = bool_decide ("--background" ∈ argv) ->
            b = true <-> "--background" ∈ argv).
  { intros b ->. apply bool_decide_eq_true. }
  destruct (decide ("--parallel" ∈ argv)) as [Hp|Hp].
  - destruct (list_index "--parallel" argv) as [idx|]; [|done].
    destruct (argv !! (idx + 1)%nat) as [arg|] eqn:Ea.
    + destruct (str_isdigit arg) eqn:Ed.
      * destruct (int_of_isdigit arg Ed)
          as [(Hd & _ & v & Hv & Hpos)|[Hd Hv]];
          rewrite Hv in Hmain; [|done].
        injection Hmain as Hbg <-. split_and!; [done|by apply Hb|done|].
        right. right. exists arg. split_and!; [|done..].
        by apply list_elem_of_lookup_2 in Ea.
      * injection Hmain as Hbg <-.
        split_and!; [lia|by apply Hb|done|by left].
    + injection Hmain as Hbg <-.
      split_and!; [lia|by apply Hb|done|by left].
  - injection Hmain as Hbg <-.
    split_and!; [done|by apply Hb|done|by right; left].
Qed.

End CommandLine.

Lemma command_line_worker_count_witness :
  (1 <= 8)%Z
  /\ parse_command_line 8 ["task2.py"; "--background"; "--parallel"; "4"]
     = Returned (Main true 4)
  /\ (0 <= 4)%Z.
Proof.
  split; [vm_compute; discriminate|]. split; [reflexivity|].
  apply (command_line_worker_count 8
           ["task2.py"; "--background"; "--parallel"; "4"] true 4).
  - vm_compute. discriminate.
  - reflexivity.
Defined.
(** ** [main]: the run and its summary *)

Section Summary.

Local Open Scope Z_scope.

Lemma summary_key_le_total r1 r2 :
  summary_key_le r1 r2 \/ summary_key_le r2 r1.
Proof.
  unfold summary_key_le.
  destruct (Z.lt_trichotomy (Result.workfactor r1) (Result.workfactor r2))
    as [?|[Heq|?]]; [left; by left| |right; by left].
  destruct (String.le_total (Result.user r1) (Result.user r2)).
  - left. right. done.
  - right. right. done.
Qed.

Lemma summary_key_le_trans r1 r2 r3 :
  summary_key_le r1 r2 -> summary_key_le r2 r3 -> summary_key_le r1 r3.
Proof.
  unfold summary_key_le. intros [?|[? H12]] [?|[? H23]].
  - left. lia.
  - left. lia.
  - left. lia.
  - right. split; [lia|]. by transitivity (Result.user r2).
Qed.

Lemma summary_key_le_antisym r1 r2 :
  summary_key_le r1 r2 -> summary_key_le r2 r1 ->
  Result.user r1 = Result.user r2.
Proof.
  unfold summary_key_le. intros [?|[? H12]] [?|[? H21]]; [lia..|].
  by apply (anti_symm String.le).
Qed.

Lemma insert_by_key_perm r l : insert_by_key r l ≡ₚ r :: l.
Proof.
  induction l as [|y l IH]; [done|]. cbn [insert_by_key].
  destruct (decide (summary_key_le r y)); [done|].
  rewrite IH. apply Permutation_swap.
Qed.

Lemma insert_by_key_sorted r l :
  StronglySorted summary_key_le l ->
  StronglySorted summary_key_le (insert_by_key r l).
Proof.
  induction 1 as [|y l Hs IH Hy]; cbn [insert_by_key].
  - repeat constructor.
  - destruct (decide (summary_key_le r y)) as [Hle|Hnle].
    + constructor; [by constructor|]. constructor; [done|].
      eapply Forall_impl; [exact Hy|]. intros z.
      by apply summary_key_le_trans.
    + constructor; [done|]. rewrite insert_by_key_perm.
      constructor; [|done]. by destruct (summary_key_le_total r y).
Qed.

Lemma sorted_by_key_perm l : sorted_by_key l ≡ₚ l.
Proof.
  induction l as [|r l IH]; [done|]. cbn [sorted_by_key foldr].
  rewrite insert_by_key_perm. by constructor.
Qed.

Lemma sorted_by_key_sorted l : StronglySorted summary_key_le (sorted_by_key l).
Proof.
  induction l as [|r l IH]; [constructor|]. by apply insert_by_key_sorted.
Qed.

(** Results of distinct users have one ascending arrangement. *)
Lemma sorted_perm_unique (l1 l2 : list Result.t) :
  StronglySorted summary_key_le l1 -> StronglySorted summary_key_le l2 ->
  l1 ≡ₚ l2 -> NoDup (Result.user <$> l1) -> l1 = l2.
Proof.
  intros Hs1. revert l2. induction Hs1 as [|x l1 Hs1 IH Hx]; intros l2 Hs2 Hp Hnd.
  - by apply Permutation_nil_l in Hp.
  - destruct Hs2 as [|y l2 Hs2 Hy]; [by apply Permutation_nil_r in Hp|].
    assert (x = y) as <-.
    { assert (x ∈ y :: l2) as Hxin by (rewrite <- Hp; left).
      assert (y ∈ x :: l1) as Hyin by (rewrite Hp; left).
      apply elem_of_cons in Hxin as [?|Hxin]; [done|].
      pose proof Hyin as Hyin'.
      apply elem_of_cons in Hyin as [?|Hyin]; [done|].
      apply (NoDup_fmap_elem_inj Result.user (x :: l1)); [done|left|done|].
      apply summary_key_le_antisym.
      - by apply (proj1 (Forall_forall _ _) Hx).
      - by apply (proj1 (Forall_forall _ _) Hy). }
    f_equal. apply IH; [done|by apply Permutation_cons_inv in Hp|].
    rewrite fmap_cons in Hnd. by apply NoDup_cons in Hnd as [_ ?].
Qed.

(** The summary does not depend on the order of the results when the
    users are distinct. *)
Lemma sorted_by_key_Permutation (l1 l2 : list Result.t) :
  l1 ≡ₚ l2 -> NoDup (Result.user <$> l1) ->
  sorted_by_key l1 = sorted_by_key l2.
Proof.
  intros Hp Hnd. apply sorted_perm_unique.
  - apply sorted_by_key_sorted.
  - apply sorted_by_key_sorted.
  - by rewrite !sorted_by_key_perm.
  - by rewrite sorted_by_key_perm.
Qed.

Lemma lower_not_upper x : Py.lower x <> "NOT FOUND".
Proof.
  destruct x as [|c x]; [done|]. simpl. intros [= Hc _].
  revert Hc. clear. destruct c as [[] [] [] [] [] [] [] []]; vm_compute;
    congruence.
Qed.

Context (checkpw : string -> string -> option bool).

Lemma expected_result_user word_list (entries : list Entry) :
  Result.user <$>
    ((fun e => expected_result checkpw word_list (workfactor e) e) <$> entries)
  = user <$> entries.
Proof.
  rewrite <- list_fmap_compose. apply list_fmap_ext. intros ? e _. simpl.
  unfold expected_result, result_of.
  by destruct (single_user_scan _ _ _ _) as [[? ?]|].
Qed.

(** What a result shows in the summary, over a corpus without the empty
    word and without the words NOT FOUND. *)
Lemma summary_row_expected word_list wf (e : Entry) :
  (forall w, w ∈ word_list -> w <> EmptyString) ->
  summary_row (expected_result checkpw word_list wf e)
  = (user e,
     match single_user_scan checkpw (full_hash e) 0 word_list with
     | Some (w, _) => w
     | None => "NOT FOUND"
     end, wf)
  /\ (password_found (expected_result checkpw word_list wf e) = true
      <-> Exists (fun w => checkpw w (full_hash e) = Some true) word_list).
Proof.
  intros Hne. unfold expected_result, result_of, summary_row, password_found.
  destruct (single_user_scan checkpw (full_hash e) 0 word_list)
    as [[w idx]|] eqn:E.
  - pose proof (proj1 (single_user_scan_Some checkpw _ _ _ _ _) E)
      as (k & _ & Hk & Hw & _).
    apply list_elem_of_lookup_2 in Hk.
    cbn [Result.user Result.password Result.workfactor].
    destruct w as [|c w]; [by destruct (Hne _ Hk)|].
    split; [done|]. split; [|done]. intros _. apply Exists_exists.
    by exists (String c w).
  - cbn [Result.user Result.password Result.workfactor]. split; [done|].
    split; [done|]. intros (w & Hin & Hw)%Exists_exists.
    by destruct (proj1 (single_user_scan_None checkpw _ _ _) E w Hin).
Qed.

Lemma parallel_results_expected cpu_count picks entries word_list num_processes :
  1 <= default cpu_count num_processes ->
  exists run,
    crack_by_workfactor_group_parallel checkpw cpu_count picks entries
      word_list num_processes = Returned run
    /\ results run
       ≡ₚ (fun e => expected_result checkpw word_list (workfactor e) e)
            <$> entries
    /\ Forall (fun h => header_cores h = Some (default cpu_count num_processes))
         (log run).
Proof.
  intros HN. unfold crack_by_workfactor_group_parallel.
  rewrite crack_groups_parallel_eq by done. eexists. split; [done|].
  cbn [results log app]. split; [apply expected_by_group|].
  apply Forall_fmap, Forall_forall. by intros wf _.
Qed.

Lemma sequential_results_expected entries word_list :
  NoDup (user <$> entries) ->
  results (crack_by_workfactor_group checkpw entries word_list)
  ≡ₚ (fun e => expected_result checkpw word_list (workfactor e) e) <$> entries
  /\ Forall (fun h => header_cores h = None)
       (log (crack_by_workfactor_group checkpw entries word_list)).
Proof.
  intros Hnd. unfold crack_by_workfactor_group. split.
  - rewrite crack_groups_perm by (intros wf _; by apply NoDup_group_users).
    cbn [results app]. apply expected_by_group.
  - rewrite crack_groups_log. cbn [log app].
    apply Forall_fmap, Forall_forall. by intros wf _.
Qed.

End Summary.
(** ** [main] on the shadow file of the assignment *)

Lemma shadow_file_entries :
  exists entries,
    parse_shadow_file None (Some SHADOW_FILE_CONTENT) = Returned entries
    /\ user <$> entries
       = ["Bilbo"; "Gandalf"; "Thorin"; "Fili"; "Kili"; "Balin"; "Dwalin";
          "Oin"; "Gloin"; "Dori"; "Nori"; "Ori"; "Bifur"; "Bofur"; "Durin"]
    /\ workfactor <$> entries
       = [8; 8; 8; 9; 9; 10; 10; 10; 11; 11; 11; 12; 12; 12; 13]%Z
    /\ NoDup (user <$> entries).
Proof.
  eexists. split; [vm_compute; reflexivity|].
  split; [reflexivity|]. split; [reflexivity|].
  apply (bool_decide_unpack _). vm_compute. exact I.
Qed.

Lemma length_filter_fmap {A B} (f : A -> B) (P : B -> Prop)
    `{!forall y, Decision (P y)} (Q : A -> Prop) `{!forall x, Decision (Q x)}
    (l : list A) :
  (forall x, P (f x) <-> Q x) ->
  length (filter P (f <$> l)) = length (filter Q l).
Proof.
  intros HPQ. induction l as [|x l IH]; [done|].
  rewrite fmap_cons, !filter_cons.
  destruct (decide (P (f x))) as [HP|HP], (decide (Q x)) as [HQ|HQ];
    cbn [length]; [by rewrite IH|by apply HPQ in HP|by apply HPQ in HQ|done].
Qed.

Lemma corpus_words_not_empty nltk_words w :
  w ∈ get_nltk_words nltk_words 6 10 -> w <> EmptyString.
Proof.
  intros (x & _ & Hlen & ->)%elem_of_get_nltk_words Hw.
  apply (f_equal String.length) in Hw. rewrite lower_length in Hw.
  simpl in Hw. lia.
Qed.

Section MainFacts.

Local Open Scope Z_scope.

Context (checkpw : string -> string -> option bool).
Context (hashpw : string -> string -> option string).
Context (cpu_count : Z).

Lemma main_returns nltk_words picks background_mode parallel entries :
  verify_test_vector hashpw = Returned true ->
  parse_shadow_file None (Some SHADOW_FILE_CONTENT) = Returned entries ->
  NoDup (user <$> entries) ->
  let word_list := get_nltk_words nltk_words 6 10 in
  let expected :=
    (fun e => expected_result checkpw word_list (workfactor e) e)
      <$> entries in
  exists out,
    main checkpw hashpw cpu_count nltk_words picks background_mode parallel
    = Returned (Some out)
    /\ results (main_run out) ≡ₚ expected
    /\ Forall (fun h => header_cores h
                        = if 0 <? parallel then Some parallel else None)
         (log (main_run out))
    /\ summary_rows out = summary_row <$> sorted_by_key expected
    /\ cracked out
       = length (filter (fun r => password_found r = true) expected).
Proof.
  intros Hv He Hnd word_list expected. unfold main. rewrite Hv.
  cbn [mbind outcome_bind negb]. rewrite He. cbn [mbind outcome_bind].
  fold word_list. destruct (0 <? parallel) eqn:Hp.
  - apply Z.ltb_lt in Hp.
    destruct (parallel_results_expected checkpw cpu_count picks entries
                word_list (Some parallel))
      as (run & -> & Hperm & Hlog); [simpl; lia|].
    fold expected in Hperm. cbn [mbind outcome_bind].
    eexists. split; [done|]. cbn [main_run summary_rows cracked].
    split_and!; [done|done| |by rewrite Hperm].
    f_equal. apply sorted_by_key_Permutation; [done|].
    rewrite Hperm. unfold expected. by rewrite expected_result_user.
  - destruct (sequential_results_expected checkpw entries word_list Hnd)
      as [Hperm Hlog].
    fold expected in Hperm.
    eexists. split; [done|]. cbn [main_run summary_rows cracked].
    split_and!; [done|done| |by rewrite Hperm].
    f_equal. apply sorted_by_key_Permutation; [done|].
    rewrite Hperm. unfold expected. by rewrite expected_result_user.
Qed.

(** X18: [main] stops with [None] when the test vector fails and lets an
    exception of the test vector through; otherwise it returns, whatever
    number of cores it is given: a positive number goes to the parallel
    orchestrator, which logs that number of cores in every header, and any
    other number, negative ones included, to the sequential one. Either
    way the results are, up to order, the prescribed results of the fifteen
    users of the shadow file over the words of 6 to 10 characters. *)
Theorem main_runs_one_orchestrator (nltk_words : list string)
    (picks : string -> list nat) (background_mode : bool) (parallel : Z) :
  let word_list := get_nltk_words nltk_words 6 10 in
  let outcome_ :=
    main checkpw hashpw cpu_count nltk_words picks background_mode parallel in
  match verify_test_vector hashpw with
  | Raised e => outcome_ = Raised e
  | Returned false => outcome_ = Returned None
  | Returned true =>
      exists entries out rs,
        parse_shadow_file None (Some SHADOW_FILE_CONTENT) = Returned entries
        /\ length entries = 15%nat
        /\ outcome_ = Returned (Some out)
        /\ results (main_run out) ≡ₚ rs
        /\ Forall2 (prescribed checkpw word_list) entries rs
        /\ Forall (fun h => header_cores h
                            = if 0 <? parallel then Some parallel else None)
             (log (main_run out))
  end.
Proof.
  intros word_list outcome_.
  destruct (verify_test_vector hashpw) as [[|]|e] eqn:Hv.
  - destruct shadow_file_entries as (entries & He & Hu & _ & Hnd).
    destruct (main_returns nltk_words picks background_mode parallel entries
                Hv He Hnd) as (out & Hout & Hperm & Hlog & _).
    exists entries, out,
      ((fun e => expected_result checkpw word_list (workfactor e) e)
         <$> entries).
    split_and!; [done| |done|done| |done].
    + apply (f_equal length) in Hu. by rewrite length_fmap in Hu.
    + apply Forall2_fmap_r, Forall_Forall2_diag, Forall_forall.
      intros e _. apply expected_prescribed.
  - unfold outcome_, main. by rewrite Hv.
  - unfold outcome_, main. by rewrite Hv.
Qed.

(** X19: when the test vector passes, the summary of [main] has one row per
    user of the shadow file, with the first corpus word that verifies or
    NOT FOUND, in ascending order of cost factor and then user name; the
    count of cracked passwords is the number of users for whom some corpus
    word verifies; and the rows and the count are the same whatever the
    number of cores, the finishing order of the workers and the background
    flag. *)
Theorem main_summary_same_in_both_modes (nltk_words : list string)
    (picks : string -> list nat) (background_mode : bool) (parallel : Z)
    (Hv : verify_test_vector hashpw = Returned true) :
  let word_list := get_nltk_words nltk_words 6 10 in
  exists entries out,
    parse_shadow_file None (Some SHADOW_FILE_CONTENT) = Returned entries
    /\ main checkpw hashpw cpu_count nltk_words picks background_mode parallel
       = Returned (Some out)
    /\ summary_rows out
       ≡ₚ (fun e =>
             (user e,
              match single_user_scan checkpw (full_hash e) 0 word_list with
              | Some (w, _) => w
              | None => "NOT FOUND"
              end, workfactor e)) <$> entries
    /\ StronglySorted
         (fun row1 row2 : string * string * Z =>
            row1.2 < row2.2
            \/ (row1.2 = row2.2 /\ String.le row1.1.1 row2.1.1))
         (summary_rows out)
    /\ cracked out
       = length
           (filter (fun e => Exists (fun w => checkpw w (full_hash e)
                                              = Some true) word_list)
              entries)
    /\ forall picks' background_mode' parallel',
         exists out',
           main checkpw hashpw cpu_count nltk_words picks' background_mode'
             parallel' = Returned (Some out')
           /\ summary_rows out' = summary_rows out
           /\ cracked out' = cracked out.
Proof.
  intros word_list.
  destruct shadow_file_entries as (entries & He & _ & _ & Hnd).
  destruct (main_returns nltk_words picks background_mode parallel entries
              Hv He Hnd) as (out & Hout & _ & _ & Hrows & Hcracked).
  fold word_list in Hrows, Hcracked.
  assert (Hne : forall w, w ∈ word_list -> w <> EmptyString)
    by (intros w; apply corpus_words_not_empty).
  exists entries, out. split_and!; [done|done|..].
  - rewrite Hrows, sorted_by_key_perm, <- list_fmap_compose.
    apply reflexive_eq, list_fmap_ext. intros ? e _. cbn [compose].
    by apply summary_row_expected.
  - rewrite Hrows.
    apply (StronglySorted_fmap summary_row summary_key_le);
      [|apply sorted_by_key_sorted].
    intros r1 r2 Hle. exact Hle.
  - rewrite Hcracked. apply length_filter_fmap. intros e.
    by apply summary_row_expected.
  - intros picks' background_mode' parallel'.
    destruct (main_returns nltk_words picks' background_mode' parallel'
                entries Hv He Hnd) as (out' & Hout' & _ & _ & Hrows' & Hc').
    exists out'. split; [done|]. fold word_list in Hrows', Hc'.
    by rewrite Hrows, Hrows', Hcracked, Hc'.
Qed.

End MainFacts.

Lemma main_summary_same_in_both_modes_witness :
  verify_test_vector
    (fun _ _ =>
       Some "$2b$08$J9FW66ZdPI2nrIMcOxFYI.zKGJsUXmWLAYWsNmIANUy5JbSjfyLFu")
  = Returned true
  /\ exists entries out,
       parse_shadow_file None (Some SHADOW_FILE_CONTENT) = Returned entries
       /\ main truncating_checkpw
            (fun _ _ =>
               Some "$2b$08$J9FW66ZdPI2nrIMcOxFYI.zKGJsUXmWLAYWsNmIANUy5JbSjfyLFu")
            4 ["Registration"; "welcome"; "cat"] (fun _ => [1%nat]) false 2
          = Returned (Some out)
       /\ length (summary_rows out) = length entries.
Proof.
  split; [reflexivity|].
  destruct (main_summary_same_in_both_modes truncating_checkpw
              (fun _ _ =>
                 Some "$2b$08$J9FW66ZdPI2nrIMcOxFYI.zKGJsUXmWLAYWsNmIANUy5JbSjfyLFu")
              4 ["Registration"; "welcome"; "cat"] (fun _ => [1%nat]) false 2
              eq_refl)
    as (entries & out & He & Hout & Hrows & _).
  exists entries, out. split; [exact He|]. split; [exact Hout|].
  apply Permutation_length in Hrows. rewrite Hrows. apply length_fmap.
Defined.
